(** * NetworkNeuron: incentive ledger and traffic router

    A shallow embedding of the token incentive system
    ([IncentiveSystem], incentives.js) and of the traffic router
    ([TrafficRouter], [PathOptimizer], routing.js), with the properties
    the specification states about them.

    Conventions of the embedding.
    - A JavaScript number is the rational it denotes ([Q]).  Arithmetic
      on numbers rounds as IEEE 754 binary64 does: [JS.add], [JS.sub],
      [JS.mul] and [JS.divide] give the double nearest to the exact
      result, the one with the even significand of two nearest.  A
      result beyond the largest double (1.8e308) is outside the model,
      and so are the two signs of zero; an infinity or [NaN] comes from
      a division by zero only.  Counters that the code only ever
      increments by one from zero are [nat].
    - A [Big] of big.js is the decimal it denotes, an exact rational;
      a number enters [Big] through its shortest decimal, as
      [String(x)] prints it.
    - A [Map] that the code iterates over is an insertion-ordered
      association list ([JSMap]); a [Map] that is only read and written by
      key is a [gmap].
    - A method is a computation over the object's fields that either
      returns a value or throws; what was written before a throw stays
      written, as in JavaScript.
    - [new Date()], [Date.now()], [crypto.randomBytes], the RSA
      primitives of node-forge, SHA-256 and number printing are not code of
      the repository: they are the fields of an [Oracle]. *)

From Stdlib Require Import QArith Qminmax Qround Qpower Qabs ZArith String
  List Lia Lqa Sorted Permutation.
From stdpp Require Import gmap strings pretty.

Local Open Scope Z_scope.

(** ** JavaScript values and operators *)

Module JS.

Local Open Scope Q_scope.

(** *** Doubles *)

(** The nearest integer, the even one of two nearest. *)
Definition roundHalfEven (x : Q) : Z :=
  let f := Qfloor x in
  match Qcompare (x - inject_Z f) (1 # 2) with
  | Lt => f
  | Gt => (f + 1)%Z
  | Eq => if Z.even f then f else (f + 1)%Z
  end.

(** [floor (log2 |x|)] for [x] other than zero. *)
Definition ilog2 (x : Q) : Z :=
  let k := (Z.log2 (Z.abs (Qnum x)) - Z.log2 (Zpos (Qden x)))%Z in
  if Qle_bool (2 ^ k) (Qabs x) then k else (k - 1)%Z.

(** The multiple of [2^e] nearest to [x]. *)
Definition roundAt (e : Z) (x : Q) : Q :=
  inject_Z (roundHalfEven (x / 2 ^ e)) * 2 ^ e.

(** The exponent of the last of 53 significant bits of [x], not below
    [emin] when there is one. *)
Definition exponent (emin : option Z) (x : Q) : Z :=
  match emin with
  | Some m => Z.max (ilog2 x - 52) m
  | None => (ilog2 x - 52)%Z
  end.

(** [x] rounded to 53 significant bits, in lowest terms. *)
Definition nearest (emin : option Z) (x : Q) : Q :=
  let x := Qred x in
  if Qeq_bool x 0 then 0 else Qred (roundAt (exponent emin x) x).

Definition round53 : Q -> Q := nearest None.

(** The nearest double: the smallest is [2^-1074]. *)
Definition fl : Q -> Q := nearest (Some (-1074)%Z).

(** [a + b] and [a - b].  The sum and the difference of two doubles
    are multiples of the smallest double, so that no lowest exponent
    comes into their rounding. *)
Definition add (a b : Q) : Q := round53 (a + b)%Q.
Definition sub (a b : Q) : Q := round53 (a - b)%Q.

(** [a * b] and [a / b], the divisor not being zero. *)
Definition mul (a b : Q) : Q := fl (a * b)%Q.
Definition divide (a b : Q) : Q := fl (a / b)%Q.

(** A number written in decimal in the source, such as [0.4]. *)
Definition lit (q : Q) : Q := fl q.

(** [floor (log10 x)] for positive [x]. *)
Definition ilog10 (x : Q) : Z :=
  let k := (ilog2 x * 1233 / 4096)%Z in
  let k := if Qle_bool (10 ^ (k + 1)) x then (k + 1)%Z else k in
  let k := if Qle_bool (10 ^ (k + 1)) x then (k + 1)%Z else k in
  let k := if Qle_bool (10 ^ k) x then k else (k - 1)%Z in
  if Qle_bool (10 ^ k) x then k else (k - 1)%Z.

(** The decimal of [digits] digits that reads back as [x], if there is
    one: the nearer to [x] of two. *)
Definition decimalOf (digits : nat) (x : Q) : option Q :=
  let e := (ilog10 x - Z.of_nat digits + 1)%Z in
  let lo := Qfloor (x / 10 ^ e) in
  let below := inject_Z lo * 10 ^ e in
  let above := inject_Z (lo + 1) * 10 ^ e in
  match Qeq_bool (fl below) x, Qeq_bool (fl above) x with
  | true, true =>
      match Qcompare (x - below) (above - x) with
      | Lt => Some below
      | Gt => Some above
      | Eq => Some (if Z.even lo then below else above)
      end
  | true, false => Some below
  | false, true => Some above
  | false, false => None
  end.

Fixpoint shortest (fuel digits : nat) (x : Q) : Q :=
  match fuel with
  | O => x
  | S fuel' =>
      match decimalOf digits x with
      | Some d => d
      | None => shortest fuel' (S digits) x
      end
  end.

(** What [String(x)] prints, as a number: the shortest decimal that
    reads back as [x]. *)
Definition toDecimal (x : Q) : Q :=
  let x := Qred x in
  if Qeq_bool x 0 then 0
  else if Qle_bool 0 x then Qred (shortest 17 1 x)
  else Qred (- shortest 17 1 (- x)).

(** [new Big(x)] for a finite number [x], and [big.toNumber()]. *)
Definition Big (x : Q) : Q := toDecimal x.
Definition toNumber (b : Q) : Q := fl b.

(** *** Comparisons and defaults *)

(** [a < b] on numbers. *)
Definition ltb (a b : Q) : bool := negb (Qle_bool b a).
(** [a <= b] on numbers. *)
Definition leb (a b : Q) : bool := Qle_bool a b.
(** [a >= b] on numbers. *)
Definition geb (a b : Q) : bool := Qle_bool b a.
(** [a > b] on numbers. *)
Definition gtb (a b : Q) : bool := negb (Qle_bool a b).

(** [x || d] where [x] is a number: zero is falsy. *)
Definition orElse (x d : Q) : Q := if Qeq_bool x 0 then d else x.

(** [map.get(k) || d]: [undefined] and zero are both falsy. *)
Definition getOr (o : option Q) (d : Q) : Q :=
  match o with
  | Some x => orElse x d
  | None => d
  end.

(** [n || d] where [n] is a counter. *)
Definition orElseNat (n d : nat) : nat :=
  match n with
  | O => d
  | S _ => n
  end.

(** [Math.min(a, b)] and [Math.max(a, b)]. *)
Definition Math_min (a b : Q) : Q := if ltb b a then b else a.
Definition Math_max (a b : Q) : Q := if ltb a b then b else a.

(** A counter as a number. *)
Definition ofNat (n : nat) : Q := inject_Z (Z.of_nat n).

(** Errors.  [NetworkNeuronError] carries a message and a code
    (core/types.js); anything else that can be thrown is a native error
    with a message only. *)
Inductive Error : Type :=
| NetworkNeuronError (message code : string)
| NativeError (message : string).

Definition message (e : Error) : string :=
  match e with
  | NetworkNeuronError m _ => m
  | NativeError m => m
  end.

(** [error.code]; a native error has none. *)
Definition code (e : Error) : option string :=
  match e with
  | NetworkNeuronError _ c => Some c
  | NativeError _ => None
  end.

Definition RouteNotFoundError (destination : string) : Error :=
  NetworkNeuronError ("No route found to " +:+ destination) "ROUTE_NOT_FOUND".

Definition AuthenticationError (msg : string) : Error :=
  NetworkNeuronError msg "AUTHENTICATION_ERROR".

(** What the runtime and the libraries provide. *)
Record Oracle : Type := {
  (** the n-th reading of the wall clock, in milliseconds *)
  clock : nat -> Z;
  (** the n-th draw of [crypto.randomBytes(16).toString('hex')] *)
  randomHex : nat -> string;
  (** forge [privateKeyFromPem] then [sign] over SHA-256 of the data,
      base64; [inr msg] when forge throws *)
  rsaSign : string -> string -> string + string;
  (** forge [publicKeyFromPem] then [verify]; [inr msg] when forge throws *)
  rsaVerify : string -> string -> string -> bool + string;
  (** SHA-256 in hexadecimal *)
  sha256 : string -> string;
  (** a number inside a template literal *)
  numToString : Q -> string;
  (** the text of the [TypeError] that the named method of
      [Object.prototype] raises when it is called on [undefined] *)
  receiverError : string -> string
}.

(** An object together with the number of oracle readings so far. *)
Record World (St : Type) : Type := mkWorld { reads : nat; self : St }.
Arguments mkWorld {St} _ _.
Arguments reads {St} _.
Arguments self {St} _.

Inductive Outcome (A : Type) : Type :=
| Returned (a : A)
| Thrown (e : Error).
Arguments Returned {A} _.
Arguments Thrown {A} _.

Definition Comp (St A : Type) : Type := World St -> Outcome A * World St.

Definition ret {St A} (a : A) : Comp St A := fun w => (Returned a, w).

Definition bind {St A B} (m : Comp St A) (k : A -> Comp St B) : Comp St B :=
  fun w =>
    match m w with
    | (Returned a, w') => k a w'
    | (Thrown e, w') => (Thrown e, w')
    end.

Definition throw {St A} (e : Error) : Comp St A := fun w => (Thrown e, w).

(** [try { m } catch (error) { h error }] *)
Definition tryCatch {St A} (m : Comp St A) (h : Error -> Comp St A) : Comp St A :=
  fun w =>
    match m w with
    | (Returned a, w') => (Returned a, w')
    | (Thrown e, w') => h e w'
    end.

Definition gets {St A} (f : St -> A) : Comp St A :=
  fun w => (Returned (f (self w)), w).

Definition modify {St} (f : St -> St) : Comp St unit :=
  fun w => (Returned tt, mkWorld (reads w) (f (self w))).

(** [new Date()] and [Date.now()] *)
Definition now {St} (O : Oracle) : Comp St Z :=
  fun w => (Returned (clock O (reads w)), mkWorld (S (reads w)) (self w)).

(** [CryptoManager.generateRandomString(16)] *)
Definition generateRandomString {St} (O : Oracle) : Comp St string :=
  fun w => (Returned (randomHex O (reads w)), mkWorld (S (reads w)) (self w)).

(** [for (const x of l) { body x }] *)
Fixpoint forEach {St A} (l : list A) (body : A -> Comp St unit) : Comp St unit :=
  match l with
  | [] => ret tt
  | x :: l' => bind (body x) (fun _ => forEach l' body)
  end.

(** [CryptoManager.sign(data, privateKeyPem)]; an unset key is
    [undefined], in which forge finds no PEM message. *)
Definition sign {St} (O : Oracle) (data : string) (privateKeyPem : option string)
  : Comp St string :=
  match privateKeyPem with
  | None =>
      throw (AuthenticationError "Signing failed: Invalid PEM formatted message.")
  | Some pem =>
      match rsaSign O data pem with
      | inl signature => ret signature
      | inr msg => throw (AuthenticationError ("Signing failed: " +:+ msg))
      end
  end.

(** [CryptoManager.verify(data, signature, publicKeyPem)] *)
Definition verify {St} (O : Oracle) (data signature : string)
    (publicKeyPem : option string) : Comp St bool :=
  match publicKeyPem with
  | None =>
      throw (AuthenticationError
               "Signature verification failed: Invalid PEM formatted message.")
  | Some pem =>
      match rsaVerify O data signature pem with
      | inl ok => ret ok
      | inr msg => throw (AuthenticationError ("Signature verification failed: " +:+ msg))
      end
  end.

End JS.

(** Arithmetic is unfolded last when two terms are compared. *)
Strategy 1000 [JS.nearest JS.round53 JS.fl JS.add JS.sub JS.mul JS.divide
               JS.lit JS.toDecimal JS.Big JS.toNumber].

Notation "'let*' x ':=' m 'in' k" := (JS.bind m (fun x => k))
  (at level 10, x pattern, m at level 100, k at level 200).
Notation "m ';;' k" := (JS.bind m (fun _ => k))
  (at level 100, k at level 200, right associativity).

(** ** Insertion-ordered maps with string keys *)

Module JSMap.

Definition t (V : Type) : Type := list (string * V).

Definition empty {V} : t V := [].

Fixpoint get {V} (k : string) (m : t V) : option V :=
  match m with
  | [] => None
  | (k', v) :: m' => if String.eqb k k' then Some v else get k m'
  end.

Definition has {V} (k : string) (m : t V) : bool :=
  match get k m with
  | Some _ => true
  | None => false
  end.

(** [map.set(k, v)]: an existing key keeps its place, a new key goes last. *)
Fixpoint set {V} (k : string) (v : V) (m : t V) : t V :=
  match m with
  | [] => [(k, v)]
  | (k', v') :: m' =>
      if String.eqb k k' then (k, v) :: m' else (k', v') :: set k v m'
  end.

(** [map.delete(k)] *)
Fixpoint delete {V} (k : string) (m : t V) : t V :=
  match m with
  | [] => []
  | (k', v') :: m' =>
      if String.eqb k k' then delete k m' else (k', v') :: delete k m'
  end.

Definition size {V} (m : t V) : nat := length m.

Definition keys {V} (m : t V) : list string := map fst m.

Definition values {V} (m : t V) : list V := map snd m.

(** [map.keys().next().value] *)
Definition firstKey {V} (m : t V) : option string :=
  match m with
  | [] => None
  | (k, _) :: _ => Some k
  end.

End JSMap.

(** ** The incentive system (incentives.js) *)

Module Incentive.
Import JS.

(** [this.config] after the defaults of the constructor. *)
Record Config : Type := {
  tokenName : string;
  initialSupply : Q;
  rewardRate : Q;
  minStake : Q;
  maxRewardPerDay : Q;
  rewardPeriod : Q;
  bootstrapNodes : list string;
  privateKey : option string;
  publicKey : option string
}.

(** The options a caller passes to the constructor. *)
Record Options : Type := {
  o_tokenName : option string;
  o_initialSupply : option Q;
  o_rewardRate : option Q;
  o_minStake : option Q;
  o_maxRewardPerDay : option Q;
  o_rewardPeriod : option Q;
  o_bootstrapNodes : option (list string);
  o_privateKey : option string;
  o_publicKey : option string
}.

(** [{ x: config.x || d, ...config }]: a value that is passed wins,
    whatever it is. *)
Definition mergeConfig (o : Options) : Config := {|
  tokenName := default "NNR"%string (o_tokenName o);
  initialSupply := default 1000000000%Q (o_initialSupply o);
  rewardRate := default (lit (1 # 10)) (o_rewardRate o);
  minStake := default 1000%Q (o_minStake o);
  maxRewardPerDay := default 1000%Q (o_maxRewardPerDay o);
  rewardPeriod := default 86400%Q (o_rewardPeriod o);
  bootstrapNodes := default [] (o_bootstrapNodes o);
  privateKey := o_privateKey o;
  publicKey := o_publicKey o
|}.

Record Performance : Type := {
  uptime : option Q;
  averageLatency : option Q;
  reputation : option Q;
  lastUpdated : option Z
}.

Definition noPerformance : Performance :=
  {| uptime := None; averageLatency := None; reputation := None;
     lastUpdated := None |}.

Record Metadata : Type := {
  md_period : string;
  md_bandwidthProvided : Q;
  md_sessionsServed : nat
}.

Record Transaction : Type := {
  tx_id : string;
  tx_type : string;
  tx_from : string;
  tx_to : string;
  tx_amount : Q;
  tx_timestamp : Z;
  tx_metadata : option Metadata;
  tx_signature : string
}.

(** The object [calculateRewards] returns. *)
Record RewardInfo : Type := {
  r_nodeId : string;
  r_amount : Q;
  r_period : string;
  r_bandwidthProvided : Q;
  r_sessionsServed : nat;
  r_stake : Q;
  r_performance : option (Q * Q * Q);
  r_timestamp : Z;
  r_reason : option string
}.

Inductive Event : Type :=
| StakeCreated (nodeId : string) (amount totalStake : Q)
| StakeRemoved (nodeId : string) (amount totalStake : Q)
| RewardsDistributed (period : string) (rewards : list RewardInfo) (totalDistributed : Q)
| RewardDistributed (reward : RewardInfo)
| PerformanceUpdated (nodeId : string)
| BandwidthRecorded (nodeId : string) (bytes total : Q)
| SessionServed (nodeId : string) (totalSessions : nat)
| TransactionRecorded (tx : Transaction).

Record IncentiveSystem : Type := {
  config : Config;
  balances : gmap string Q;
  stakes : JSMap.t Q;
  rewards : JSMap.t RewardInfo;
  transactions : list Transaction;
  nodePerformance : gmap string Performance;
  bandwidthProvided : gmap string Q;
  sessionsServed : gmap string nat;
  emitted : list Event
}.

Definition with_balances (f : gmap string Q -> gmap string Q)
    (s : IncentiveSystem) : IncentiveSystem :=
  {| config := config s; balances := f (balances s); stakes := stakes s;
     rewards := rewards s; transactions := transactions s;
     nodePerformance := nodePerformance s;
     bandwidthProvided := bandwidthProvided s;
     sessionsServed := sessionsServed s; emitted := emitted s |}.

Definition with_stakes (f : JSMap.t Q -> JSMap.t Q)
    (s : IncentiveSystem) : IncentiveSystem :=
  {| config := config s; balances := balances s; stakes := f (stakes s);
     rewards := rewards s; transactions := transactions s;
     nodePerformance := nodePerformance s;
     bandwidthProvided := bandwidthProvided s;
     sessionsServed := sessionsServed s; emitted := emitted s |}.

Definition with_rewards (f : JSMap.t RewardInfo -> JSMap.t RewardInfo)
    (s : IncentiveSystem) : IncentiveSystem :=
  {| config := config s; balances := balances s; stakes := stakes s;
     rewards := f (rewards s); transactions := transactions s;
     nodePerformance := nodePerformance s;
     bandwidthProvided := bandwidthProvided s;
     sessionsServed := sessionsServed s; emitted := emitted s |}.

Definition with_transactions (f : list Transaction -> list Transaction)
    (s : IncentiveSystem) : IncentiveSystem :=
  {| config := config s; balances := balances s; stakes := stakes s;
     rewards := rewards s; transactions := f (transactions s);
     nodePerformance := nodePerformance s;
     bandwidthProvided := bandwidthProvided s;
     sessionsServed := sessionsServed s; emitted := emitted s |}.

Definition with_nodePerformance
    (f : gmap string Performance -> gmap string Performance)
    (s : IncentiveSystem) : IncentiveSystem :=
  {| config := config s; balances := balances s; stakes := stakes s;
     rewards := rewards s; transactions := transactions s;
     nodePerformance := f (nodePerformance s);
     bandwidthProvided := bandwidthProvided s;
     sessionsServed := sessionsServed s; emitted := emitted s |}.

Definition with_bandwidthProvided (f : gmap string Q -> gmap string Q)
    (s : IncentiveSystem) : IncentiveSystem :=
  {| config := config s; balances := balances s; stakes := stakes s;
     rewards := rewards s; transactions := transactions s;
     nodePerformance := nodePerformance s;
     bandwidthProvided := f (bandwidthProvided s);
     sessionsServed := sessionsServed s; emitted := emitted s |}.

Definition with_sessionsServed (f : gmap string nat -> gmap string nat)
    (s : IncentiveSystem) : IncentiveSystem :=
  {| config := config s; balances := balances s; stakes := stakes s;
     rewards := rewards s; transactions := transactions s;
     nodePerformance := nodePerformance s;
     bandwidthProvided := bandwidthProvided s;
     sessionsServed := f (sessionsServed s); emitted := emitted s |}.

(** [this.emit(...)]: the event goes to the end of the record of what
    was emitted. *)
Definition emit (e : Event) : Comp IncentiveSystem unit :=
  modify (fun s =>
    {| config := config s; balances := balances s; stakes := stakes s;
       rewards := rewards s; transactions := transactions s;
       nodePerformance := nodePerformance s;
       bandwidthProvided := bandwidthProvided s;
       sessionsServed := sessionsServed s; emitted := emitted s ++ [e] |}).

(** [initializeTokenSystem], after the field initialisers of the
    constructor. *)
Definition create (o : Options) : IncentiveSystem :=
  let cfg := mergeConfig o in
  let tokensPerBootstrap :=
    divide (initialSupply cfg) (ofNat (length (bootstrapNodes cfg) + 1)) in
  let seeded :=
    fold_left (fun b nodeId => <[nodeId := tokensPerBootstrap]> b)
              (bootstrapNodes cfg) (∅ : gmap string Q) in
  {| config := cfg;
     balances := <["reward_pool"%string := mul (initialSupply cfg) (1 # 2)]> seeded;
     stakes := JSMap.empty;
     rewards := JSMap.empty;
     transactions := [];
     nodePerformance := ∅;
     bandwidthProvided := ∅;
     sessionsServed := ∅;
     emitted := [] |}.

Definition balanceOf (s : IncentiveSystem) (nodeId : string) : Q :=
  getOr (balances s !! nodeId) 0.

Definition stakeOf (s : IncentiveSystem) (nodeId : string) : Q :=
  getOr (JSMap.get nodeId (stakes s)) 0.

Definition getBalance (nodeId : string) : Comp IncentiveSystem Q :=
  gets (fun s => balanceOf s nodeId).

Definition getStake (nodeId : string) : Comp IncentiveSystem Q :=
  gets (fun s => stakeOf s nodeId).

(** How many transactions the log keeps. *)
Definition maxTransactions : nat := Z.to_nat 10000.

(** [array.slice(-n)] *)
Definition lastN {A} (n : nat) (l : list A) : list A :=
  skipn (length l - n) l.

(** ** Numbers that can leave the rationals

    The one division whose divisor comes from the configuration is
    [stake / minStake]; with a zero divisor JavaScript yields an
    infinity or [NaN], which [Big] refuses. *)
Inductive Num : Type :=
| Finite (q : Q)
| Infinity
| NegInfinity
| NaN.

Definition div (a b : Q) : Num :=
  if Qeq_bool b 0 then
    if Qeq_bool a 0 then NaN
    else if ltb 0 a then Infinity else NegInfinity
  else Finite (divide a b).

(** [Math.min(1 + x * 0.5, 2)] *)
Definition halfPlusOneCapped (x : Num) : Num :=
  match x with
  | Finite q => Finite (Math_min (add 1 (mul q (1 # 2))) 2)
  | Infinity => Finite 2
  | NegInfinity => NegInfinity
  | NaN => NaN
  end.

(** [big.mul(x)] for a JavaScript number [x]: the product is exact. *)
Definition Big_mul (b : Q) (x : Num) : Comp IncentiveSystem Q :=
  match x with
  | Finite q => ret (b * Big q)%Q
  | _ => throw (NativeError "[big.js] Invalid number")
  end.

(** [rewards.reduce((sum, r) => sum + r.amount, 0)] *)
Definition sum_amounts (rewards : list RewardInfo) : Q :=
  fold_left (fun sum r => add sum (r_amount r)) rewards 0%Q.

Record StakeReceipt : Type := {
  sr_nodeId : string;
  sr_amount : Q;
  sr_totalStake : Q;
  sr_timestamp : Z
}.

Record Distribution : Type := {
  d_period : string;
  d_rewards : list RewardInfo;
  d_totalDistributed : Q;
  d_timestamp : Z
}.

(** The errors the ledger throws, and the wrappers its [catch] blocks
    put around whatever was thrown inside the [try]. *)
Definition InsufficientBalance : Error :=
  NetworkNeuronError "Insufficient balance for staking" "INSUFFICIENT_BALANCE".

Definition MinStakeNotMet (required : string) : Error :=
  NetworkNeuronError ("Minimum stake required: " +:+ required)
                     "MIN_STAKE_NOT_MET".

Definition InsufficientStake : Error :=
  NetworkNeuronError "Insufficient stake to unstake" "INSUFFICIENT_STAKE".

Definition InsufficientRewardPool : Error :=
  NetworkNeuronError "Insufficient reward pool" "INSUFFICIENT_REWARD_POOL".

Definition StakingError (cause : Error) : Error :=
  NetworkNeuronError ("Staking failed: " +:+ message cause) "STAKING_ERROR".

Definition UnstakingError (cause : Error) : Error :=
  NetworkNeuronError ("Unstaking failed: " +:+ message cause) "UNSTAKING_ERROR".

Definition RewardDistributionError (cause : Error) : Error :=
  NetworkNeuronError ("Reward distribution failed: " +:+ message cause)
                     "REWARD_DISTRIBUTION_ERROR".

Section Methods.

Variable O : Oracle.

(** [recordTransaction(transaction)] *)
Definition recordTransaction
    (type from to : string) (amount : Q) (timestamp : Z)
    (metadata : option Metadata) (signature : string)
  : Comp IncentiveSystem unit :=
  let* id := generateRandomString O in
  let tx := {| tx_id := id; tx_type := type; tx_from := from; tx_to := to;
               tx_amount := amount; tx_timestamp := timestamp;
               tx_metadata := metadata; tx_signature := signature |} in
  modify (with_transactions (fun l => l ++ [tx])) ;;
  (let* n := gets (fun s => length (transactions s)) in
   if (maxTransactions <? n)%nat
   then modify (with_transactions (lastN maxTransactions))
   else ret tt) ;;
  emit (TransactionRecorded tx).

(** [stakeTokens(nodeId, amount)] *)
Definition stakeTokens (nodeId : string) (amount : Q)
  : Comp IncentiveSystem StakeReceipt :=
  tryCatch
    (let* currentBalance := getBalance nodeId in
     let* currentStake := getStake nodeId in
     let* cfg := gets config in
     if ltb currentBalance amount then
       throw InsufficientBalance
     else if ltb amount (minStake cfg) then
       throw (MinStakeNotMet (numToString O (minStake cfg)))
     else
       modify (with_balances <[nodeId := sub currentBalance amount]>) ;;
       modify (with_stakes (JSMap.set nodeId (add (orElse currentStake 0) amount))) ;;
       let* timestamp := now O in
       let* signature :=
         sign O (nodeId +:+ ":" +:+ numToString O amount +:+ ":stake")
              (privateKey cfg) in
       recordTransaction "stake" nodeId "stake_pool" amount timestamp None
                         signature ;;
       let* total := getStake nodeId in
       emit (StakeCreated nodeId amount total) ;;
       let* totalStake := getStake nodeId in
       let* ts := now O in
       ret {| sr_nodeId := nodeId; sr_amount := amount;
              sr_totalStake := totalStake; sr_timestamp := ts |})
    (fun error => throw (StakingError error)).

(** [unstakeTokens(nodeId, amount)] *)
Definition unstakeTokens (nodeId : string) (amount : Q)
  : Comp IncentiveSystem StakeReceipt :=
  tryCatch
    (let* currentStake := getStake nodeId in
     let* cfg := gets config in
     if ltb currentStake amount then
       throw InsufficientStake
     else
       let* balance := getBalance nodeId in
       modify (with_balances <[nodeId := add balance amount]>) ;;
       modify (with_stakes (JSMap.set nodeId (sub currentStake amount))) ;;
       let* timestamp := now O in
       let* signature :=
         sign O (nodeId +:+ ":" +:+ numToString O amount +:+ ":unstake")
              (privateKey cfg) in
       recordTransaction "unstake" "stake_pool" nodeId amount timestamp None
                         signature ;;
       let* total := getStake nodeId in
       emit (StakeRemoved nodeId amount total) ;;
       let* totalStake := getStake nodeId in
       let* ts := now O in
       ret {| sr_nodeId := nodeId; sr_amount := amount;
              sr_totalStake := totalStake; sr_timestamp := ts |})
    (fun error => throw (UnstakingError error)).

(** [calculateRewards(nodeId, period)] *)
Definition calculateRewards (nodeId period : string)
  : Comp IncentiveSystem RewardInfo :=
  tryCatch
    (let* performance :=
       gets (fun s => default noPerformance (nodePerformance s !! nodeId)) in
     let* bandwidth := gets (fun s => getOr (bandwidthProvided s !! nodeId) 0) in
     let* sessions :=
       gets (fun s => orElseNat (default 0%nat (sessionsServed s !! nodeId)) 0) in
     let* staked := getStake nodeId in
     let stake := orElse staked 0 in
     let* cfg := gets config in
     if ltb stake (minStake cfg) then
       let* ts := now O in
       ret {| r_nodeId := nodeId; r_amount := 0; r_period := period;
              r_bandwidthProvided := 0; r_sessionsServed := 0;
              r_stake := stake; r_performance := None; r_timestamp := ts;
              r_reason := Some "insufficient_stake"%string |}
     else
       let bandwidthReward := (Big bandwidth * Big (rewardRate cfg))%Q in
       let stakeMultiplier := halfPlusOneCapped (div stake (minStake cfg)) in
       let uptimeBonus := divide (getOr (uptime performance) 0) 100 in
       let latencyBonus :=
         Math_max 0 (sub 1 (divide (getOr (averageLatency performance) 0) 1000)) in
       let* withStake := Big_mul bandwidthReward stakeMultiplier in
       let totalReward :=
         (withStake * Big uptimeBonus * Big latencyBonus
          * Big (ofNat (orElseNat sessions 1)))%Q in
       let cappedReward :=
         Math_min (toNumber totalReward) (maxRewardPerDay cfg) in
       let* ts := now O in
       ret {| r_nodeId := nodeId; r_amount := cappedReward; r_period := period;
              r_bandwidthProvided := bandwidth; r_sessionsServed := sessions;
              r_stake := stake;
              r_performance :=
                Some (getOr (uptime performance) 0,
                      getOr (averageLatency performance) 0,
                      getOr (reputation performance) 0);
              r_timestamp := ts; r_reason := None |})
    (fun error =>
       throw (NetworkNeuronError
                ("Reward calculation failed: " +:+ message error)
                "REWARD_CALCULATION_ERROR")).

(** [distributeReward(reward)] *)
Definition distributeReward (reward : RewardInfo)
  : Comp IncentiveSystem unit :=
  tryCatch
    (let* rewardPoolBalance := getBalance "reward_pool" in
     if ltb rewardPoolBalance (r_amount reward) then
       ret tt
     else
       modify (with_balances
                 <["reward_pool"%string := sub rewardPoolBalance (r_amount reward)]>) ;;
       let* balance := getBalance (r_nodeId reward) in
       modify (with_balances
                 <[r_nodeId reward := add balance (r_amount reward)]>) ;;
       let* cfg := gets config in
       let* timestamp := now O in
       let* signature :=
         sign O ("reward:" +:+ r_nodeId reward +:+ ":"
                 +:+ numToString O (r_amount reward))
              (privateKey cfg) in
       recordTransaction "reward" "reward_pool" (r_nodeId reward)
         (r_amount reward) timestamp
         (Some {| md_period := r_period reward;
                  md_bandwidthProvided := r_bandwidthProvided reward;
                  md_sessionsServed := r_sessionsServed reward |})
         signature ;;
       let* stamp := now O in
       modify (with_rewards
                 (JSMap.set (r_nodeId reward +:+ ":"
                             +:+ numToString O (inject_Z stamp)) reward)) ;;
       emit (RewardDistributed reward))
    (fun error =>
       throw (NetworkNeuronError
                ("Individual reward distribution failed: " +:+ message error)
                "INDIVIDUAL_REWARD_ERROR")).

(** The first loop of [distributeRewards]: one reward record per entry
    of [this.stakes] that reaches the minimum stake, in the order of
    the map. *)
Fixpoint collectRewards (period : string) (entries : list (string * Q))
  : Comp IncentiveSystem (list RewardInfo) :=
  match entries with
  | [] => ret []
  | (nodeId, stake) :: rest =>
      let* cfg := gets config in
      if geb stake (minStake cfg) then
        let* reward := calculateRewards nodeId period in
        let* more := collectRewards period rest in
        ret (reward :: more)
      else collectRewards period rest
  end.

(** [distributeRewards(period)] *)
Definition distributeRewards (period : string)
  : Comp IncentiveSystem Distribution :=
  tryCatch
    (let* totalRewardPool := getBalance "reward_pool" in
     if leb totalRewardPool 0 then
       throw InsufficientRewardPool
     else
       let* entries := gets stakes in
       let* rewards := collectRewards period entries in
       forEach rewards
         (fun reward =>
            if gtb (r_amount reward) 0 then distributeReward reward
            else ret tt) ;;
       emit (RewardsDistributed period rewards (sum_amounts rewards)) ;;
       let* ts := now O in
       ret {| d_period := period; d_rewards := rewards;
              d_totalDistributed := sum_amounts rewards;
              d_timestamp := ts |})
    (fun error => throw (RewardDistributionError error)).

(** [updateNodePerformance(nodeId, metrics)]: the fields that
    [metrics] has replace the stored ones. *)
Definition updateNodePerformance (nodeId : string) (metrics : Performance)
  : Comp IncentiveSystem unit :=
  let* current :=
    gets (fun s => default noPerformance (nodePerformance s !! nodeId)) in
  let* stamp := now O in
  let pick {A} (new old : option A) : option A :=
    match new with Some _ => new | None => old end in
  modify (with_nodePerformance
            <[nodeId := {| uptime := pick (uptime metrics) (uptime current);
                           averageLatency :=
                             pick (averageLatency metrics) (averageLatency current);
                           reputation :=
                             pick (reputation metrics) (reputation current);
                           lastUpdated := Some stamp |}]>) ;;
  emit (PerformanceUpdated nodeId).

(** [recordBandwidthProvided(nodeId, bytes)] *)
Definition recordBandwidthProvided (nodeId : string) (bytes : Q)
  : Comp IncentiveSystem unit :=
  let* currentBandwidth :=
    gets (fun s => getOr (bandwidthProvided s !! nodeId) 0) in
  modify (with_bandwidthProvided <[nodeId := add currentBandwidth bytes]>) ;;
  emit (BandwidthRecorded nodeId bytes (add currentBandwidth bytes)).

(** [recordSessionServed(nodeId, sessionInfo)] *)
Definition recordSessionServed (nodeId : string)
  : Comp IncentiveSystem unit :=
  let* currentSessions :=
    gets (fun s => orElseNat (default 0%nat (sessionsServed s !! nodeId)) 0) in
  modify (with_sessionsServed <[nodeId := (currentSessions + 1)%nat]>) ;;
  emit (SessionServed nodeId (currentSessions + 1)%nat).

(** The message [validateTransaction] rebuilds from a transaction. *)
Definition canonicalMessage (tx : Transaction) : string :=
  tx_from tx +:+ ":" +:+ tx_to tx +:+ ":" +:+ numToString O (tx_amount tx)
  +:+ ":" +:+ tx_type tx.

(** [validateTransaction(transaction)] *)
Definition validateTransaction (tx : Transaction)
  : Comp IncentiveSystem bool :=
  tryCatch
    (let* cfg := gets config in
     verify O (canonicalMessage tx) (tx_signature tx) (publicKey cfg))
    (fun _ => ret false).

End Methods.

End Incentive.


(** ** The traffic router (routing.js) *)

Module Sorting.
Import JS.

(** [array.sort(compare)].  The language fixes the result, not the
    algorithm: the sort is stable, [a] stays before [b] unless
    [compare(a, b) > 0].  A stable insertion sort computes it.  (The
    comparison functions of this code compare by the sign of a
    difference, which orders the elements consistently.) *)
Fixpoint insert {A} (compare : A -> A -> Q) (x : A) (sorted : list A) : list A :=
  match sorted with
  | [] => [x]
  | y :: rest =>
      if gtb (compare x y) 0 then y :: insert compare x rest
      else x :: y :: rest
  end.

Definition sort {A} (compare : A -> A -> Q) (l : list A) : list A :=
  fold_right (insert compare) [] l.

End Sorting.

Module Router.
Import JS.

Record BandwidthInfo : Type := {
  upload : Q;
  download : Q;
  latency : Q;
  uptime : Q;
  capacity : Q
}.

(** [NetworkNode] of core/types.js, without the transport handles. *)
Record NetworkNode : Type := {
  id : string;
  bandwidth : BandwidthInfo;
  reputation : Q;
  region : string;
  isActive : bool;
  stake : Q
}.

(** A route as [findRoute] builds it.  The four fields it copies from
    what the optimizer returned are [undefined] ([None]) when that was
    not a path. *)
Record Route : Type := {
  route_id : string;
  nodes : option (list string);
  route_latency : option Q;
  route_bandwidth : option Q;
  cost : option Q;
  encrypted : bool;
  expiresAt : Z
}.

Record RouteRequirements : Type := {
  minBandwidth : option Q;
  maxLatency : option Q;
  maxCost : option Q;
  regions : option (list string);
  encryption : option bool;
  algorithm : option string
}.

Record ClientSession : Type := {
  session_id : string;
  clientId : string;
  nodeId : option string;
  startTime : Z;
  bytesTransferred : Q;
  session_isActive : bool;
  route : Route
}.

(** What an optimizer returns. *)
Record Path : Type := {
  path_nodes : list string;
  path_latency : Q;
  path_bandwidth : Q;
  path_cost : Q
}.

(** What [findOptimalPath] returns: the path of an optimizer, or, when
    the name of the algorithm was found on [Object.prototype], a value
    that has none of the fields of a path and is truthy or not. *)
Inductive Optimal : Type :=
| APath (path : Path)
| NotAPath (truthy : bool).

Inductive Event : Type :=
| RouteCreated (r : Route)
| RouteRemoved (routeId reason : string)
| RouteExpired (routeId : string)
| SessionCreated (s : ClientSession)
| SessionClosed (s : ClientSession).

(** The fields of a [TrafficRouter]; [discoveredNodes] is what
    [networkManager.getDiscoveredNodes()] answers.  Route objects are
    shared between the cache, the route table and the sessions; none of
    the methods below writes to a route, so a copy stands for the
    shared object. *)
Record TrafficRouter : Type := {
  discoveredNodes : list NetworkNode;
  activeRoutes : JSMap.t Route;
  clientSessions : JSMap.t ClientSession;
  routeCache : JSMap.t Route;
  routeTimeout : Z;
  maxCacheSize : nat;
  emitted : list Event
}.

Definition with_activeRoutes (f : JSMap.t Route -> JSMap.t Route)
    (s : TrafficRouter) : TrafficRouter :=
  {| discoveredNodes := discoveredNodes s; activeRoutes := f (activeRoutes s);
     clientSessions := clientSessions s; routeCache := routeCache s;
     routeTimeout := routeTimeout s; maxCacheSize := maxCacheSize s;
     emitted := emitted s |}.

Definition with_clientSessions
    (f : JSMap.t ClientSession -> JSMap.t ClientSession)
    (s : TrafficRouter) : TrafficRouter :=
  {| discoveredNodes := discoveredNodes s; activeRoutes := activeRoutes s;
     clientSessions := f (clientSessions s); routeCache := routeCache s;
     routeTimeout := routeTimeout s; maxCacheSize := maxCacheSize s;
     emitted := emitted s |}.

Definition with_routeCache (f : JSMap.t Route -> JSMap.t Route)
    (s : TrafficRouter) : TrafficRouter :=
  {| discoveredNodes := discoveredNodes s; activeRoutes := activeRoutes s;
     clientSessions := clientSessions s; routeCache := f (routeCache s);
     routeTimeout := routeTimeout s; maxCacheSize := maxCacheSize s;
     emitted := emitted s |}.

Definition emit (e : Event) : Comp TrafficRouter unit :=
  modify (fun s =>
    {| discoveredNodes := discoveredNodes s; activeRoutes := activeRoutes s;
       clientSessions := clientSessions s; routeCache := routeCache s;
       routeTimeout := routeTimeout s; maxCacheSize := maxCacheSize s;
       emitted := emitted s ++ [e] |}).

(** The constructor: empty tables, five minutes, a thousand entries. *)
Definition create (network : list NetworkNode) : TrafficRouter :=
  {| discoveredNodes := network; activeRoutes := JSMap.empty;
     clientSessions := JSMap.empty; routeCache := JSMap.empty;
     routeTimeout := 300000; maxCacheSize := Z.to_nat 1000; emitted := [] |}.

(** [array.includes(x)] on strings *)
Definition includes (x : string) (l : list string) : bool :=
  existsb (String.eqb x) l.

(** [x && ...] on an optional number: [undefined] and zero are falsy. *)
Definition truthy (o : option Q) : option Q :=
  match o with
  | Some x => if Qeq_bool x 0 then None else Some x
  | None => None
  end.

(** ** PathOptimizer *)

Definition pathThrough (best : NetworkNode) : Path :=
  {| path_nodes := [id best];
     path_latency := orElse (latency (bandwidth best)) 100;
     path_bandwidth := orElse (download (bandwidth best)) 10;
     path_cost := 1 |}.

Definition directScore (n : NetworkNode) : Q :=
  sub (orElse (download (bandwidth n)) 0) (orElse (latency (bandwidth n)) 0).

(** [findShortestPath] *)
Definition findShortestPath (availableNodes : list NetworkNode)
  : Comp TrafficRouter Path :=
  match availableNodes with
  | [] => throw (NativeError "Reduce of empty array with no initial value")
  | first :: rest =>
      ret (pathThrough
             (fold_left
                (fun best current =>
                   if gtb (directScore current) (directScore best)
                   then current else best)
                rest first))
  end.

(** [findLowestLatency] *)
Definition findLowestLatency (availableNodes : list NetworkNode)
  : Comp TrafficRouter Path :=
  match Sorting.sort
          (fun a b => sub (orElse (latency (bandwidth a)) 0)
                          (orElse (latency (bandwidth b)) 0))
          availableNodes with
  | [] => throw (NativeError "Cannot read properties of undefined (reading 'id')")
  | best :: _ => ret (pathThrough best)
  end.

(** [findHighestBandwidth] *)
Definition findHighestBandwidth (availableNodes : list NetworkNode)
  : Comp TrafficRouter Path :=
  match Sorting.sort
          (fun a b => sub (orElse (download (bandwidth b)) 0)
                          (orElse (download (bandwidth a)) 0))
          availableNodes with
  | [] => throw (NativeError "Cannot read properties of undefined (reading 'id')")
  | best :: _ => ret (pathThrough best)
  end.

(** [totalScore] inside [findBalancedPath] *)
Definition totalScore (node : NetworkNode) : Q :=
  let bandwidthScore := divide (orElse (download (bandwidth node)) 0) 100 in
  let latencyScore :=
    sub 1 (divide (orElse (latency (bandwidth node)) 0) 1000) in
  let reputationScore := divide (orElse (reputation node) 0) 100 in
  let uptimeScore := divide (orElse (uptime (bandwidth node)) 0) 100 in
  add (add (add (mul bandwidthScore (lit (4 # 10)))
                (mul latencyScore (lit (3 # 10))))
           (mul reputationScore (lit (2 # 10))))
      (mul uptimeScore (lit (1 # 10))).

(** [scoredNodes] after [sort((a, b) => b.score - a.score)] *)
Definition scoredNodes (availableNodes : list NetworkNode)
  : list (NetworkNode * Q) :=
  Sorting.sort (fun a b => sub (snd b) (snd a))
               (map (fun node => (node, totalScore node)) availableNodes).

(** [findBalancedPath] *)
Definition findBalancedPath (availableNodes : list NetworkNode)
  : Comp TrafficRouter Path :=
  match scoredNodes availableNodes with
  | [] => throw (NativeError "Cannot read properties of undefined (reading 'node')")
  | (bestNode, _) :: _ => ret (pathThrough bestNode)
  end.

(** [requirements.algorithm || 'balanced'] *)
Definition algorithmOf (requirements : RouteRequirements) : string :=
  match algorithm requirements with
  | Some a => if String.eqb a "" then "balanced" else a
  | None => "balanced"
  end.

(** What [this.optimizationAlgorithms[name]] finds when [name] is none
    of the four own properties: the object is a plain one, so the
    lookup goes on to [Object.prototype].  The value found is then
    called as [optimizer(destination, availableNodes, requirements)],
    without a receiver and with a string as its first argument. *)
Inductive Inherited : Type :=
| Wraps          (** [constructor]: [Object(destination)], a [String] object *)
| Describes      (** [toString]: the text ["[object Undefined]"] *)
| Denies         (** [isPrototypeOf]: [false], a string is no object *)
| NeedsReceiver  (** a method that turns its receiver into an object first *)
| NotCallable.   (** [__proto__]: the prototype itself, which is no function *)

Definition inherited (name : string) : option Inherited :=
  if String.eqb name "constructor" then Some Wraps
  else if String.eqb name "toString" then Some Describes
  else if String.eqb name "isPrototypeOf" then Some Denies
  else if String.eqb name "__proto__" then Some NotCallable
  else if existsb (String.eqb name)
            ["valueOf"; "toLocaleString"; "hasOwnProperty";
             "propertyIsEnumerable"; "__defineGetter__"; "__defineSetter__";
             "__lookupGetter__"; "__lookupSetter__"]%string
       then Some NeedsReceiver
  else None.

(** [findOptimalPath]; [O] gives the text of the [TypeError] of a
    built-in method called without a receiver. *)
Definition findOptimalPath (O : Oracle) (availableNodes : list NetworkNode)
    (requirements : RouteRequirements) : Comp TrafficRouter Optimal :=
  let algorithm := algorithmOf requirements in
  if String.eqb algorithm "shortestPath" then
    let* path := findShortestPath availableNodes in ret (APath path)
  else if String.eqb algorithm "lowestLatency" then
    let* path := findLowestLatency availableNodes in ret (APath path)
  else if String.eqb algorithm "highestBandwidth" then
    let* path := findHighestBandwidth availableNodes in ret (APath path)
  else if String.eqb algorithm "balanced" then
    let* path := findBalancedPath availableNodes in ret (APath path)
  else
    match inherited algorithm with
    | Some Wraps | Some Describes => ret (NotAPath true)
    | Some Denies => ret (NotAPath false)
    | Some NeedsReceiver => throw (NativeError (receiverError O algorithm))
    | Some NotCallable => throw (NativeError "optimizer is not a function")
    | None =>
        throw (NetworkNeuronError
                 ("Unknown optimization algorithm: " +:+ algorithm)
                 "UNKNOWN_ALGORITHM")
    end.

(** ** TrafficRouter *)

(** The predicate of [getAvailableNodes] *)
Definition available (requirements : RouteRequirements) (node : NetworkNode)
  : bool :=
  if negb (isActive node) then false
  else if match truthy (minBandwidth requirements) with
          | Some m => ltb (download (bandwidth node)) m
          | None => false
          end then false
  else if match truthy (maxLatency requirements) with
          | Some m => gtb (latency (bandwidth node)) m
          | None => false
          end then false
  else if match regions requirements with
          | Some rs => negb (includes (region node) rs)
          | None => false
          end then false
  else true.

Definition getAvailableNodes (requirements : RouteRequirements)
  : Comp TrafficRouter (list NetworkNode) :=
  gets (fun s => List.filter (available requirements) (discoveredNodes s)).

(** [cacheRoute(key, route)] *)
Definition cacheRoute (key : string) (r : Route) : Comp TrafficRouter unit :=
  (let* cache := gets routeCache in
   let* limit := gets maxCacheSize in
   if (limit <=? JSMap.size cache)%nat then
     match JSMap.firstKey cache with
     | Some firstKey => modify (with_routeCache (JSMap.delete firstKey))
     | None => ret tt
     end
   else ret tt) ;;
  modify (with_routeCache (JSMap.set key r)).

(** [cleanupRoute(routeId)] *)
Definition cleanupRoute (O : Oracle) (routeId : string)
  : Comp TrafficRouter unit :=
  let* found := gets (fun s => JSMap.get routeId (activeRoutes s)) in
  match found with
  | None => ret tt
  | Some r =>
      let* date := now O in
      if (expiresAt r <? date)%Z then
        modify (with_activeRoutes (JSMap.delete routeId)) ;;
        emit (RouteExpired routeId)
      else ret tt
  end.

(** [closeSession(sessionId)] *)
Definition closeSession (O : Oracle) (sessionId : string)
  : Comp TrafficRouter unit :=
  let* found := gets (fun s => JSMap.get sessionId (clientSessions s)) in
  match found with
  | None => ret tt
  | Some session =>
      let closed :=
        {| session_id := session_id session; clientId := clientId session;
           nodeId := nodeId session; startTime := startTime session;
           bytesTransferred := bytesTransferred session;
           session_isActive := false; route := route session |} in
      modify (with_clientSessions (JSMap.delete sessionId)) ;;
      cleanupRoute O (route_id (route session)) ;;
      emit (SessionClosed closed)
  end.

(** [route.nodes.includes(x)]: a route without hop list has
    [undefined] there. *)
Definition hopsInclude (x : string) (r : Route) : Comp TrafficRouter bool :=
  match nodes r with
  | Some hops => ret (includes x hops)
  | None =>
      throw (NativeError
               "Cannot read properties of undefined (reading 'includes')")
  end.

(** [for (const [key, route] of map) if (route.nodes.includes(x))
    keys.push(key)] *)
Fixpoint keysThrough (x : string) (entries : list (string * Route))
  : Comp TrafficRouter (list string) :=
  match entries with
  | [] => ret []
  | (key, r) :: rest =>
      let* found := hopsInclude x r in
      let* more := keysThrough x rest in
      ret (if found then key :: more else more)
  end.

(** [handlePeerDisconnection(peerId)].  The second loop runs over the
    live session map while [closeSession] deletes from it; each call
    deletes the entry being visited only, so the loop visits exactly the
    entries present when it starts. *)
Definition handlePeerDisconnection (O : Oracle) (peerId : string)
  : Comp TrafficRouter unit :=
  let* routes := gets activeRoutes in
  let* routesToRemove := keysThrough peerId routes in
  forEach routesToRemove
    (fun routeId =>
       modify (with_activeRoutes (JSMap.delete routeId)) ;;
       emit (RouteRemoved routeId "peer_disconnected")) ;;
  let* sessions := gets clientSessions in
  forEach sessions
    (fun e =>
       let* found := hopsInclude peerId (route (snd e)) in
       if found then closeSession O (fst e) else ret tt).

(** [invalidateRouteCache(nodeId)] *)
Definition invalidateRouteCache (node : string) : Comp TrafficRouter unit :=
  let* cache := gets routeCache in
  let* keysToDelete := keysThrough node cache in
  forEach keysToDelete
    (fun key => modify (with_routeCache (JSMap.delete key))).

Section Methods.

Variable O : Oracle.

(** [JSON.stringify(requirements)] *)
Variable stringify : RouteRequirements -> string.

(** [generateCacheKey(destination, requirements)] *)
Definition generateCacheKey (destination : string)
    (requirements : RouteRequirements) : string :=
  destination +:+ ":" +:+ sha256 O (stringify requirements).

(** [optimalPath.f] *)
Definition fieldOf {A} (f : Path -> A) (optimalPath : Optimal) : option A :=
  match optimalPath with
  | APath path => Some (f path)
  | NotAPath _ => None
  end.

(** [findRoute(destination, requirements)] *)
Definition findRoute (destination : string)
    (requirements : RouteRequirements) : Comp TrafficRouter Route :=
  tryCatch
    (let cacheKey := generateCacheKey destination requirements in
     let* cached := gets (fun s => JSMap.get cacheKey (routeCache s)) in
     let miss :=
       let* availableNodes := getAvailableNodes requirements in
       match availableNodes with
       | [] => throw (RouteNotFoundError destination)
       | _ :: _ =>
           let* optimalPath := findOptimalPath O availableNodes requirements in
           match optimalPath with
           | NotAPath false => throw (RouteNotFoundError destination)
           | _ =>
               let* rid := generateRandomString O in
               let* date := now O in
               let* timeout := gets routeTimeout in
               let r :=
                 {| route_id := rid; nodes := fieldOf path_nodes optimalPath;
                    route_latency := fieldOf path_latency optimalPath;
                    route_bandwidth := fieldOf path_bandwidth optimalPath;
                    cost := fieldOf path_cost optimalPath;
                    encrypted := match encryption requirements with
                                 | Some false => false
                                 | _ => true
                                 end;
                    expiresAt := date + timeout |} in
               cacheRoute cacheKey r ;;
               modify (with_activeRoutes (JSMap.set rid r)) ;;
               emit (RouteCreated r) ;;
               ret r
           end
       end in
     match cached with
     | Some cachedRoute =>
         let* date := now O in
         if (date <? expiresAt cachedRoute)%Z then ret cachedRoute
         else modify (with_routeCache (JSMap.delete cacheKey)) ;; miss
     | None => miss
     end)
    (fun error =>
       throw (NetworkNeuronError
                ("Route finding failed: " +:+ message error)
                "ROUTE_FINDING_ERROR")).

(** [createSession(clientId, requirements)] *)
Definition createSession (client : string)
    (requirements : RouteRequirements) : Comp TrafficRouter ClientSession :=
  tryCatch
    (let* r := findRoute client requirements in
     let* sid := generateRandomString O in
     let* first :=
       match nodes r with
       | Some hops => ret (head hops)
       | None =>
           throw (NativeError
                    "Cannot read properties of undefined (reading '0')")
       end in
     let* date := now O in
     let session :=
       {| session_id := sid; clientId := client; nodeId := first;
          startTime := date; bytesTransferred := 0;
          session_isActive := true; route := r |} in
     modify (with_clientSessions (JSMap.set sid session)) ;;
     emit (SessionCreated session) ;;
     ret session)
    (fun error =>
       throw (NetworkNeuronError
                ("Session creation failed: " +:+ message error)
                "SESSION_CREATION_ERROR")).

End Methods.

End Router.

(** ** Further methods of the incentive system *)

Module JSArray.

(** [array.slice(start)]: a negative [start] counts from the end. *)
Definition sliceFrom {A} (start : Z) (l : list A) : list A :=
  let len := Z.of_nat (length l) in
  skipn (Z.to_nat (if start <? 0 then Z.max (len + start) 0
                   else Z.min start len)) l.

(** [array.slice(0, stop)]: a negative [stop] counts from the end. *)
Definition sliceTo {A} (stop : Z) (l : list A) : list A :=
  let len := Z.of_nat (length l) in
  firstn (Z.to_nat (if stop <? 0 then Z.max (len + stop) 0
                    else Z.min stop len)) l.

End JSArray.

Module IncentiveQueries.
Import JS Incentive.

(** [getTransactionHistory(nodeId, limit)]; [None] is the [null] of the
    default, and the empty string is as falsy as [null]. *)
Definition getTransactionHistory (nodeId : option string) (limit : Z)
  : Comp IncentiveSystem (list Transaction) :=
  let* all := gets transactions in
  let selected :=
    match nodeId with
    | Some node =>
        if String.eqb node "" then all
        else List.filter
               (fun tx => String.eqb (tx_from tx) node
                          || String.eqb (tx_to tx) node)
               all
    | None => all
    end in
  ret (JSArray.sliceFrom (- limit) selected).

(** The loop of [getTotalRewards]. *)
Definition totalRewardsOf (s : IncentiveSystem) (nodeId : string) : Q :=
  fold_left
    (fun totalRewards entry =>
       if String.eqb (r_nodeId (snd entry)) nodeId
       then add totalRewards (r_amount (snd entry))
       else totalRewards)
    (rewards s) 0%Q.

(** [getTotalRewards(nodeId)] *)
Definition getTotalRewards (nodeId : string) : Comp IncentiveSystem Q :=
  gets (fun s => totalRewardsOf s nodeId).

(** [getNodePerformance(nodeId)] *)
Definition getNodePerformance (nodeId : string)
  : Comp IncentiveSystem Performance :=
  gets (fun s => default noPerformance (nodePerformance s !! nodeId)).

(** A row of the boards by rewards and by stake. *)
Record NodeRow : Type := {
  nr_nodeId : string;
  nr_rewards : Q;
  nr_stake : Q;
  nr_performance : Performance
}.

(** A row of the board by bandwidth. *)
Record BandwidthRow : Type := {
  br_nodeId : string;
  br_bandwidthProvided : Q;
  br_stake : Q;
  br_rewards : Q
}.

(** The nodes a leaderboard ranks: the keys of [this.stakes] whose stake
    reaches the minimum. *)
Definition rankedNodes (s : IncentiveSystem) : list string :=
  List.filter (fun nodeId => geb (stakeOf s nodeId) (minStake (config s)))
              (JSMap.keys (stakes s)).

Definition nodeRow (s : IncentiveSystem) (nodeId : string) : NodeRow :=
  {| nr_nodeId := nodeId; nr_rewards := totalRewardsOf s nodeId;
     nr_stake := stakeOf s nodeId;
     nr_performance := default noPerformance (nodePerformance s !! nodeId) |}.

Definition bandwidthRow (s : IncentiveSystem) (nodeId : string) : BandwidthRow :=
  {| br_nodeId := nodeId;
     br_bandwidthProvided := getOr (bandwidthProvided s !! nodeId) 0;
     br_stake := stakeOf s nodeId; br_rewards := totalRewardsOf s nodeId |}.

(** [getLeaderboard(metric, limit)] *)
Definition getLeaderboard (metric : string) (limit : Z)
  : Comp IncentiveSystem (list NodeRow + list BandwidthRow) :=
  let* s := gets (fun s => s) in
  if String.eqb metric "rewards" then
    ret (inl (JSArray.sliceTo limit
                (Sorting.sort (fun a b => sub (nr_rewards b) (nr_rewards a))
                              (map (nodeRow s) (rankedNodes s)))))
  else if String.eqb metric "stake" then
    ret (inl (JSArray.sliceTo limit
                (Sorting.sort (fun a b => sub (nr_stake b) (nr_stake a))
                              (map (nodeRow s) (rankedNodes s)))))
  else if String.eqb metric "bandwidth" then
    ret (inr (JSArray.sliceTo limit
                (Sorting.sort
                   (fun a b => sub (br_bandwidthProvided b)
                                   (br_bandwidthProvided a))
                   (map (bandwidthRow s) (rankedNodes s)))))
  else
    throw (NetworkNeuronError ("Unknown leaderboard metric: " +:+ metric)
                              "UNKNOWN_METRIC").

End IncentiveQueries.

(** ** The load balancer (routing.js) *)

Module LoadBalancer.
Import JS.

(** Loads and capacities by node identifier, as numbers. *)
Record LoadBalancer : Type := {
  nodeLoads : JSMap.t Q;
  nodeCapacities : JSMap.t Q
}.

Definition create : LoadBalancer :=
  {| nodeLoads := JSMap.empty; nodeCapacities := JSMap.empty |}.

Record Requirements : Type := {
  minCapacity : option Q
}.

(** An entry of [nodeScores]. *)
Record NodeScore : Type := {
  nodeId : string;
  score : Q;
  capacity : Q;
  load : Q
}.

(** The callback of [availableNodes.map]. *)
Definition scoreOf (lb : LoadBalancer) (nodeId : string) : NodeScore :=
  let load := getOr (JSMap.get nodeId (nodeLoads lb)) 0 in
  let capacity := getOr (JSMap.get nodeId (nodeCapacities lb)) 1 in
  let loadRatio := divide load capacity in
  {| nodeId := nodeId; score := sub 1 loadRatio; capacity := capacity;
     load := load |}.

(** The callback of [nodeScores.filter]. *)
Definition meets (requirements : Requirements) (node : NodeScore) : bool :=
  if match Router.truthy (minCapacity requirements) with
     | Some m => ltb (capacity node) m
     | None => false
     end then false
  else true.

(** [selectNode(requirements)]; [None] is [null]. *)
Definition selectNode (requirements : Requirements) (lb : LoadBalancer)
  : option string :=
  let availableNodes := JSMap.keys (nodeCapacities lb) in
  if (length availableNodes =? 0)%nat then None
  else
    let nodeScores := map (scoreOf lb) availableNodes in
    let sorted := Sorting.sort (fun a b => sub (score b) (score a)) nodeScores in
    let filteredScores := List.filter (meets requirements) sorted in
    match filteredScores with
    | first :: _ => Some (nodeId first)
    | [] => None
    end.

(** [updateNodeBandwidth(nodeId, bandwidth)] *)
Definition updateNodeBandwidth (nodeId : string)
    (bandwidth : Router.BandwidthInfo) (lb : LoadBalancer) : LoadBalancer :=
  {| nodeLoads := nodeLoads lb;
     nodeCapacities :=
       JSMap.set nodeId (Router.download bandwidth) (nodeCapacities lb) |}.

(** [updateNodeLoad(nodeId, load)] *)
Definition updateNodeLoad (nodeId : string) (load : Q) (lb : LoadBalancer)
  : LoadBalancer :=
  {| nodeLoads := JSMap.set nodeId load (nodeLoads lb);
     nodeCapacities := nodeCapacities lb |}.

End LoadBalancer.

(** ** The reward formula in the words of the specification *)

Module RewardSpec.
Import Incentive.

Definition bytes_forwarded (s : IncentiveSystem) (node : string) : Q :=
  default 0%Q (bandwidthProvided s !! node).

Definition sessions_served (s : IncentiveSystem) (node : string) : nat :=
  default 0%nat (sessionsServed s !! node).

Definition performance (s : IncentiveSystem) (node : string) : Performance :=
  default noPerformance (nodePerformance s !! node).

Definition uptime_pct (s : IncentiveSystem) (node : string) : Q :=
  default 0%Q (uptime (performance s node)).

Definition avg_latency (s : IncentiveSystem) (node : string) : Q :=
  default 0%Q (averageLatency (performance s node)).

Definition stake (s : IncentiveSystem) (node : string) : Q :=
  default 0%Q (JSMap.get node (stakes s)).

(** [base · stake_mult · uptime_bonus · latency_bonus · max(sessions, 1)]
    over the rationals. *)
Definition raw (s : IncentiveSystem) (node : string) : Q :=
  let base := (bytes_forwarded s node * rewardRate (config s))%Q in
  let stake_mult :=
    Qmin (1 + (stake s node / minStake (config s)) * (1 # 2)) 2 in
  let uptime_bonus := (uptime_pct s node / 100)%Q in
  let latency_bonus := Qmax 0 (1 - avg_latency s node / 1000) in
  (base * stake_mult * uptime_bonus * latency_bonus
   * inject_Z (Z.of_nat (Nat.max (sessions_served s node) 1)))%Q.

(** The same in the arithmetic of the code.  The three factors that
    the code computes as numbers are doubles; the product is taken,
    exactly, over the decimals of its six factors, and is turned into a
    number at the end.  A positive stake over a minimum stake of zero is
    infinite, and the multiplier 2. *)
Definition stake_mult (s : IncentiveSystem) (node : string) : Q :=
  if Qeq_bool (minStake (config s)) 0 then 2
  else Qmin (JS.add 1 (JS.mul (JS.divide (stake s node) (minStake (config s)))
                              (1 # 2))) 2.

(** What the [catch] block of [calculateRewards] makes of what was
    thrown. *)
Definition RewardCalculationError (cause : JS.Error) : JS.Error :=
  JS.NetworkNeuronError ("Reward calculation failed: " +:+ JS.message cause)
                        "REWARD_CALCULATION_ERROR".

Definition uptime_bonus (s : IncentiveSystem) (node : string) : Q :=
  JS.divide (uptime_pct s node) 100.

Definition latency_bonus (s : IncentiveSystem) (node : string) : Q :=
  Qmax 0 (JS.sub 1 (JS.divide (avg_latency s node) 1000)).

Definition rounded (s : IncentiveSystem) (node : string) : Q :=
  JS.toNumber
    (JS.Big (bytes_forwarded s node) * JS.Big (rewardRate (config s))
     * JS.Big (stake_mult s node) * JS.Big (uptime_bonus s node)
     * JS.Big (latency_bonus s node)
     * JS.Big (inject_Z (Z.of_nat (Nat.max (sessions_served s node) 1))))%Q.

End RewardSpec.

(** ** The transactions the ledger writes *)

Module LedgerSpec.
Import JS Incentive.

(** The text [stakeTokens] signs. *)
Definition stakeMessage (O : Oracle) (node : string) (amount : Q) : string :=
  node +:+ ":" +:+ numToString O amount +:+ ":stake".

(** The text [unstakeTokens] signs. *)
Definition unstakeMessage (O : Oracle) (node : string) (amount : Q) : string :=
  node +:+ ":" +:+ numToString O amount +:+ ":unstake".

(** The text [distributeReward] signs. *)
Definition rewardMessage (O : Oracle) (node : string) (amount : Q) : string :=
  "reward:" +:+ node +:+ ":" +:+ numToString O amount.

(** The stake transaction written when the clock is read at [k] and the
    identifier drawn at [k + 1]. *)
Definition stakeTx (O : Oracle) (k : nat) (node : string) (amount : Q)
    (signature : string) : Transaction :=
  {| tx_id := randomHex O (S k); tx_type := "stake"; tx_from := node;
     tx_to := "stake_pool"; tx_amount := amount; tx_timestamp := clock O k;
     tx_metadata := None; tx_signature := signature |}.

Definition unstakeTx (O : Oracle) (k : nat) (node : string) (amount : Q)
    (signature : string) : Transaction :=
  {| tx_id := randomHex O (S k); tx_type := "unstake"; tx_from := "stake_pool";
     tx_to := node; tx_amount := amount; tx_timestamp := clock O k;
     tx_metadata := None; tx_signature := signature |}.

Definition rewardTx (O : Oracle) (k : nat) (reward : RewardInfo)
    (signature : string) : Transaction :=
  {| tx_id := randomHex O (S k); tx_type := "reward"; tx_from := "reward_pool";
     tx_to := r_nodeId reward; tx_amount := r_amount reward;
     tx_timestamp := clock O k;
     tx_metadata := Some {| md_period := r_period reward;
                            md_bandwidthProvided := r_bandwidthProvided reward;
                            md_sessionsServed := r_sessionsServed reward |};
     tx_signature := signature |}.

(** The coordinator's private key signs every text. *)
Definition signs (O : Oracle) (s : IncentiveSystem) : Prop :=
  exists pem, privateKey (config s) = Some pem
              /\ forall data, exists signature, rsaSign O data pem = inl signature.

(** A signature made with [sk] verifies under [pk] for the signed text
    only. *)
Definition unforgeable (O : Oracle) (sk pk : string) : Prop :=
  forall data data' signature,
    rsaSign O data sk = inl signature ->
    rsaVerify O data' signature pk = inl true ->
    data = data'.

(** What reward computation reads: the configuration, the stakes and
    the three accounting maps. *)
Definition same_accounting (s s' : IncentiveSystem) : Prop :=
  config s' = config s /\ stakes s' = stakes s
  /\ nodePerformance s' = nodePerformance s
  /\ bandwidthProvided s' = bandwidthProvided s
  /\ sessionsServed s' = sessionsServed s.

(** A reward record without the time it was computed at. *)
Definition untimed (r : RewardInfo) : RewardInfo :=
  {| r_nodeId := r_nodeId r; r_amount := r_amount r; r_period := r_period r;
     r_bandwidthProvided := r_bandwidthProvided r;
     r_sessionsServed := r_sessionsServed r; r_stake := r_stake r;
     r_performance := r_performance r; r_timestamp := 0;
     r_reason := r_reason r |}.

End LedgerSpec.

(** ** The balanced score in the words of the specification *)

Module RouterSpec.
Import JS Router.

(** The comparison function [(a, b) => score(b) - score(a)]. *)
Definition descending {A} (score : A -> Q) (a b : A) : Q :=
  sub (score b) (score a).

(** [0.4·bw_norm + 0.3·(1 − lat_norm) + 0.2·reputation_norm
    + 0.1·uptime_norm] with [bw_norm = bw/100] capped at 1 and
    [lat_norm = lat/1000] capped at 1. *)
Definition cappedScore (n : NetworkNode) : Q :=
  let bw_norm := Qmin (download (bandwidth n) / 100) 1 in
  let lat_norm := Qmin (latency (bandwidth n) / 1000) 1 in
  ((4 # 10) * bw_norm + (3 # 10) * (1 - lat_norm)
   + (2 # 10) * (reputation n / 100) + (1 # 10) * (uptime (bandwidth n) / 100))%Q.

(** The same without the caps. *)
Definition uncappedScore (n : NetworkNode) : Q :=
  ((4 # 10) * (download (bandwidth n) / 100)
   + (3 # 10) * (1 - latency (bandwidth n) / 1000)
   + (2 # 10) * (reputation n / 100)
   + (1 # 10) * (uptime (bandwidth n) / 100))%Q.

(** The hop list of a route; a route that has none goes through no
    peer. *)
Definition hops (r : Route) : list string := default [] (nodes r).

Definition hasHops (r : Route) : Prop := nodes r <> None.

(** The error of [route.nodes.includes] on a route without hop list. *)
Definition NoHops : Error :=
  NativeError "Cannot read properties of undefined (reading 'includes')".

(** A session as [closeSession] hands it to the listeners of
    [session:closed]. *)
Definition closed (session : ClientSession) : ClientSession :=
  {| session_id := session_id session; clientId := clientId session;
     nodeId := nodeId session; startTime := startTime session;
     bytesTransferred := bytesTransferred session;
     session_isActive := false; route := route session |}.

(** [best] is the first element of [l] that no element of [l] beats:
    the ones before it score strictly less, the ones after it at most as
    much. *)
Definition firstBest {A} (score : A -> Q) (l : list A) (best : A) : Prop :=
  exists before after,
    l = before ++ best :: after
    /\ (forall x, In x before -> (score x < score best)%Q)
    /\ (forall x, In x after -> (score x <= score best)%Q).

(** The four algorithms [findOptimalPath] knows. *)
Definition knownAlgorithm (name : string) : Prop :=
  In name ["shortestPath"; "lowestLatency"; "highestBandwidth"; "balanced"]%string.

(** What the [catch] block of [findRoute] makes of what was thrown. *)
Definition RouteFindingError (cause : Error) : Error :=
  NetworkNeuronError ("Route finding failed: " +:+ message cause)
                     "ROUTE_FINDING_ERROR".

(** The part of [findRoute] after the cache lookup has failed: choose
    among the candidates, build the route, cache and register it. *)
Definition computeRoute (O : Oracle) (cacheKey destination : string)
    (requirements : RouteRequirements) : Comp TrafficRouter Route :=
  let* availableNodes := getAvailableNodes requirements in
  match availableNodes with
  | [] => throw (RouteNotFoundError destination)
  | _ :: _ =>
      let* optimalPath := findOptimalPath O availableNodes requirements in
      match optimalPath with
      | NotAPath false => throw (RouteNotFoundError destination)
      | _ =>
          let* rid := generateRandomString O in
          let* date := now O in
          let* timeout := gets routeTimeout in
          let r :=
            {| route_id := rid; nodes := fieldOf path_nodes optimalPath;
               route_latency := fieldOf path_latency optimalPath;
               route_bandwidth := fieldOf path_bandwidth optimalPath;
               cost := fieldOf path_cost optimalPath;
               encrypted := match encryption requirements with
                            | Some false => false
                            | _ => true
                            end;
               expiresAt := date + timeout |} in
          cacheRoute cacheKey r ;;
          modify (with_activeRoutes (JSMap.set rid r)) ;;
          emit (RouteCreated r) ;;
          ret r
      end
  end.

(** The route [findRoute] builds through [best] when the identifier is
    drawn at reading [k] and the clock is read right after. *)
Definition routeThrough (O : Oracle) (k : nat) (timeout : Z)
    (requirements : RouteRequirements) (best : NetworkNode) : Route :=
  {| route_id := randomHex O k; nodes := Some [id best];
     route_latency := Some (path_latency (pathThrough best));
     route_bandwidth := Some (path_bandwidth (pathThrough best));
     cost := Some 1%Q;
     encrypted := match encryption requirements with
                  | Some false => false
                  | _ => true
                  end;
     expiresAt := clock O (S k) + timeout |}.

(** The route [findRoute] builds when the optimizer gave back a value
    that is no path. *)
Definition routeWithoutPath (O : Oracle) (k : nat) (timeout : Z)
    (requirements : RouteRequirements) : Route :=
  {| route_id := randomHex O k; nodes := None; route_latency := None;
     route_bandwidth := None; cost := None;
     encrypted := match encryption requirements with
                  | Some false => false
                  | _ => true
                  end;
     expiresAt := clock O (S k) + timeout |}.

(** The cache after [cacheRoute] has made room. *)
Definition evicted (limit : nat) (cache : JSMap.t Route) : JSMap.t Route :=
  if (limit <=? JSMap.size cache)%nat then
    match JSMap.firstKey cache with
    | Some firstKey => JSMap.delete firstKey cache
    | None => cache
    end
  else cache.

(** What the [catch] block of [createSession] makes of what was
    thrown. *)
Definition SessionCreationError (cause : Error) : Error :=
  NetworkNeuronError ("Session creation failed: " +:+ message cause)
                     "SESSION_CREATION_ERROR".

End RouterSpec.

(** ** Concrete inputs

    A coordinator with one bootstrap node and a toy signature scheme, used
    to run the definitions above on explicit values. *)

Module Demo.
Import JS Incentive.

(** A rational in lowest terms, as [n] or [n/d]. *)
Definition showQ (q : Q) : string :=
  let r := Qred q in
  match Qden r with
  | xH => pretty (Qnum r)
  | d => pretty (Qnum r) +:+ "/" +:+ pretty (Zpos d)
  end.

(** A signature is the signed text in brackets; only the key named
    [PRIVATE] signs and only the key named [PUBLIC] verifies. *)
Definition oracle : Oracle := {|
  clock := fun n => 1000 * Z.of_nat n;
  randomHex := fun n => "id" +:+ pretty n;
  rsaSign := fun data pem =>
    if String.eqb pem "PRIVATE" then inl ("<" +:+ data +:+ ">")
    else inr "Invalid PEM formatted message."%string;
  rsaVerify := fun data signature pem =>
    if String.eqb pem "PUBLIC"
    then inl (String.eqb signature ("<" +:+ data +:+ ">"))
    else inr "Invalid PEM formatted message."%string;
  sha256 := fun data => data;
  numToString := showQ;
  receiverError := fun _ => "Cannot convert undefined or null to object"%string
|}.

Definition options : Options := {|
  o_tokenName := None;
  o_initialSupply := Some 20000%Q;
  o_rewardRate := Some (lit (1 # 10));
  o_minStake := Some 1000%Q;
  o_maxRewardPerDay := Some 1000%Q;
  o_rewardPeriod := None;
  o_bootstrapNodes := Some ["X"%string];
  o_privateKey := Some "PRIVATE"%string;
  o_publicKey := Some "PUBLIC"%string
|}.

(** The ledger right after construction: [X] holds 10000 and the reward
    pool holds 10000. *)
Definition ledger : IncentiveSystem := create options.

Definition fresh : World IncentiveSystem := mkWorld 0 ledger.

Definition after {St A} (m : Comp St A) (w : World St) : World St := snd (m w).

(** [X] stakes 5000, forwards 100 units in 5 sessions, with uptime 100
    and average latency 50. *)
Definition staked : World IncentiveSystem :=
  after (stakeTokens oracle "X" 5000) fresh.

Definition measured : World IncentiveSystem :=
  after (recordBandwidthProvided "X" 100 ;;
         forEach [1; 2; 3; 4; 5]%nat (fun _ => recordSessionServed "X") ;;
         updateNodePerformance oracle "X"
           {| uptime := Some 100%Q; averageLatency := Some 50%Q;
              reputation := Some 100%Q; lastUpdated := None |})
        staked.

(** The same with an uptime of 99.9. *)
Definition nearlyUp : World IncentiveSystem :=
  after (updateNodePerformance oracle "X"
           {| uptime := Some (lit (999 # 10)); averageLatency := None;
              reputation := None; lastUpdated := None |})
        measured.

(** Two bootstrap nodes: each holds a third of the supply.  [X] stakes
    1234.56 and takes it back. *)
Definition thirds : IncentiveSystem :=
  create {| o_tokenName := None; o_initialSupply := Some 20000%Q;
            o_rewardRate := Some (lit (1 # 10)); o_minStake := Some 1000%Q;
            o_maxRewardPerDay := Some 1000%Q; o_rewardPeriod := None;
            o_bootstrapNodes := Some ["X"; "Y"]%string;
            o_privateKey := Some "PRIVATE"%string;
            o_publicKey := Some "PUBLIC"%string |}.

Definition staked1234 : World IncentiveSystem :=
  after (stakeTokens oracle "X" (lit (123456 # 100))) (mkWorld 0 thirds).

Definition unstaked1234 : World IncentiveSystem :=
  after (unstakeTokens oracle "X" (lit (123456 # 100))) staked1234.

(** A coordinator that asks for no stake at all. *)
Definition freeLedger : IncentiveSystem :=
  create {| o_tokenName := None; o_initialSupply := Some 20000%Q;
            o_rewardRate := Some (lit (1 # 10)); o_minStake := Some 0%Q;
            o_maxRewardPerDay := Some 1000%Q; o_rewardPeriod := None;
            o_bootstrapNodes := Some ["X"%string];
            o_privateKey := Some "PRIVATE"%string;
            o_publicKey := Some "PUBLIC"%string |}.

(** A coordinator that starts with no supply, hence an empty reward
    pool. *)
Definition emptyLedger : IncentiveSystem :=
  create {| o_tokenName := None; o_initialSupply := Some 0%Q;
            o_rewardRate := None; o_minStake := None;
            o_maxRewardPerDay := None; o_rewardPeriod := None;
            o_bootstrapNodes := None;
            o_privateKey := Some "PRIVATE"%string;
            o_publicKey := Some "PUBLIC"%string |}.

(** The reward of the scenario, as [calculateRewards] returns it. *)
Definition reward95 : RewardInfo :=
  {| r_nodeId := "X"; r_amount := 95; r_period := "daily";
     r_bandwidthProvided := 100; r_sessionsServed := 5; r_stake := 5000;
     r_performance := Some (100, 50, 100)%Q; r_timestamp := 0;
     r_reason := None |}.

(** The same coordinator with a key that node-forge rejects. *)
Definition brokenLedger : IncentiveSystem :=
  create {| o_tokenName := None; o_initialSupply := Some 20000%Q;
            o_rewardRate := Some (lit (1 # 10)); o_minStake := Some 1000%Q;
            o_maxRewardPerDay := Some 1000%Q; o_rewardPeriod := None;
            o_bootstrapNodes := Some ["X"%string];
            o_privateKey := Some "BROKEN"%string;
            o_publicKey := Some "PUBLIC"%string |}.

(** One distribution run, and a second one right after it. *)
Definition paidOnce : World IncentiveSystem :=
  after (distributeRewards oracle "daily") measured.

Definition paidTwice : World IncentiveSystem :=
  after (distributeRewards oracle "daily") paidOnce.

End Demo.

(** Peers and routers to run the routing code on. *)

Module DemoRouter.
Import JS Router.

Definition peer (name : string) (bw lat rep up : Q) : NetworkNode :=
  {| id := name;
     bandwidth := {| upload := bw; download := bw; latency := lat;
                     uptime := up; capacity := bw |};
     reputation := rep; region := "eu"; isActive := true; stake := 1000 |}.

(** The three peers of the routing scenario of the specification. *)
Definition node1 : NetworkNode := peer "node-1" 100 50 95 99.
Definition node2 : NetworkNode := peer "node-2" 50 100 85 99.
Definition node3 : NetworkNode := peer "node-3" 200 25 98 99.

(** Two peers with the same figures, the higher identifier first. *)
Definition twinB : NetworkNode := peer "b" 100 50 90 99.
Definition twinA : NetworkNode := peer "a" 100 50 90 99.

(** A fast peer that is slow to answer, and an all-round peer. *)
Definition wide : NetworkNode := peer "wide" 300 1000 0 0.
Definition round : NetworkNode := peer "round" 100 0 100 100.

(** Two peers with the same score over the rationals, 0.435. *)
Definition steady : NetworkNode := peer "p" 10 50 10 90.
Definition quick : NetworkNode := peer "q" 20 200 10 95.

(** Two peers with the same download minus latency over the
    rationals, 50.2: 100.3 and 50.1, 60.2 and 10. *)
Definition near : NetworkNode :=
  peer "near" (lit (1003 # 10)) (lit (501 # 10)) 90 99.
Definition far : NetworkNode := peer "far" (lit (602 # 10)) 10 90 99.

Definition anyRoute : RouteRequirements :=
  {| minBandwidth := None; maxLatency := None; maxCost := None;
     regions := None; encryption := None; algorithm := None |}.

Definition inRegion (r : string) : RouteRequirements :=
  {| minBandwidth := None; maxLatency := None; maxCost := None;
     regions := Some [r]; encryption := None; algorithm := None |}.

Definition fastest : RouteRequirements :=
  {| minBandwidth := None; maxLatency := None; maxCost := None;
     regions := None; encryption := None; algorithm := Some "fastest"%string |}.

(** An algorithm name that every object inherits. *)
Definition inheritedName : RouteRequirements :=
  {| minBandwidth := None; maxLatency := None; maxCost := None;
     regions := None; encryption := None;
     algorithm := Some "toString"%string |}.

(** A stand-in for [JSON.stringify] on requirements: the regions asked
    for tell the demo requirements apart. *)
Definition stringify (r : RouteRequirements) : string :=
  match regions r, algorithm r with
  | Some rs, _ => "{regions:" +:+ String.concat "," rs +:+ "}"
  | None, Some name => "{algorithm:" +:+ name +:+ "}"
  | None, None => "{}"
  end.

Definition router (network : list NetworkNode) : World TrafficRouter :=
  mkWorld 0 (create network).

(** The same router after its network manager lost every peer. *)
Definition isolated (w : World TrafficRouter) : World TrafficRouter :=
  mkWorld (reads w)
    {| discoveredNodes := []; activeRoutes := activeRoutes (self w);
       clientSessions := clientSessions (self w);
       routeCache := routeCache (self w); routeTimeout := routeTimeout (self w);
       maxCacheSize := maxCacheSize (self w); emitted := emitted (self w) |}.

(** A router with room for two cached routes. *)
Definition small (network : list NetworkNode) : World TrafficRouter :=
  mkWorld 0
    {| discoveredNodes := network; activeRoutes := JSMap.empty;
       clientSessions := JSMap.empty; routeCache := JSMap.empty;
       routeTimeout := 300000; maxCacheSize := 2; emitted := [] |}.

Definition find (destination : string) : Comp TrafficRouter Route :=
  findRoute Demo.oracle stringify destination anyRoute.

(** One peer; a route to [dest] is found through it; the peer
    disconnects and the network manager knows no peer any more. *)
Definition routed : World TrafficRouter :=
  Demo.after (find "dest") (router [node1]).

Definition deserted : World TrafficRouter :=
  isolated (Demo.after (handlePeerDisconnection Demo.oracle "node-1") routed).


(** One peer; a route to [dest] is asked for with the algorithm
    [toString]. *)
Definition pathless : World TrafficRouter :=
  Demo.after (findRoute Demo.oracle stringify "dest" inheritedName)
             (router [node1]).

(** Room for two routes: [d1] and [d2] are looked up, [d1] is looked up
    again, then [d3]. *)
Definition twoLookups : World TrafficRouter :=
  Demo.after (find "d1" ;; find "d2") (small [node1]).

Definition reused : World TrafficRouter := Demo.after (find "d1") twoLookups.

Definition thirdKey : World TrafficRouter := Demo.after (find "d3") reused.

(** The same without the repeated lookup. *)
Definition threeLookups : World TrafficRouter :=
  Demo.after (find "d3") twoLookups.

(** The three peers of the scenario. *)
Definition mesh : TrafficRouter := create [node1; node2; node3].

(** The route that the lookup of [routed] cached, and the router 301
    clock readings later, when it has expired. *)
Definition cachedRoute : Route :=
  {| route_id := "id0"; nodes := Some ["node-1"%string];
     route_latency := Some 50%Q; route_bandwidth := Some 100%Q;
     cost := Some 1%Q; encrypted := true; expiresAt := 301000 |}.

(** A client connects through the only peer; the session it is given. *)
Definition connect (client : string) : Comp TrafficRouter ClientSession :=
  createSession Demo.oracle stringify client anyRoute.

Definition connected : World TrafficRouter :=
  Demo.after (connect "client") (router [node1]).

Definition clientSession : ClientSession :=
  {| session_id := "id2"; clientId := "client";
     nodeId := Some "node-1"%string; startTime := 3000;
     bytesTransferred := 0; session_isActive := true;
     route := cachedRoute |}.

End DemoRouter.

(** A load balancer that knows two nodes of capacity 100, the first one
    loaded to 90. *)
Module DemoBalancer.
Import JS LoadBalancer.

Definition link (bw : Q) : Router.BandwidthInfo :=
  {| Router.upload := bw; Router.download := bw; Router.latency := 10;
     Router.uptime := 99; Router.capacity := bw |}.

Definition balancer : LoadBalancer :=
  updateNodeLoad "busy" 90
    (updateNodeBandwidth "idle" (link 100)
       (updateNodeBandwidth "busy" (link 100) create)).

(** Two nodes loaded to seven tenths as the figures are written: 2.1
    of 3, registered first, and 0.7 of 1. *)
Definition tied : LoadBalancer :=
  updateNodeLoad "second" (lit (7 # 10))
    (updateNodeLoad "first" (lit (21 # 10))
       (updateNodeBandwidth "second" (link 1)
          (updateNodeBandwidth "first" (link 3) create))).

Definition anyNode : Requirements := {| minCapacity := None |}.

Definition large : Requirements := {| minCapacity := Some 500%Q |}.

End DemoBalancer.
(** * Properties *)

(** ** Operators *)

Module JSFacts.
Import JS.

Local Open Scope Q_scope.

(** *** Rounding *)

Lemma inject_Z_succ (z : Z) : inject_Z (z + 1) == inject_Z z + 1.
Proof. rewrite inject_Z_plus. reflexivity. Qed.

Lemma roundHalfEven_spec (x : Q) :
  let z := roundHalfEven x in
  inject_Z z - (1 # 2) <= x /\ x <= inject_Z z + (1 # 2)
  /\ (x == inject_Z z + (1 # 2) -> Z.even z = true)
  /\ (x == inject_Z z - (1 # 2) -> Z.even z = true).
Proof.
  unfold roundHalfEven.
  pose proof (Qfloor_le x) as Hlo. pose proof (Qlt_floor x) as Hhi.
  rewrite inject_Z_succ in Hhi.
  set (f := Qfloor x) in *.
  destruct (Qcompare (x - inject_Z f) (1 # 2)) eqn:Hc; cbv zeta.
  - apply Qeq_alt in Hc.
    destruct (Z.even f) eqn:He.
    + repeat split; try lra. intros _. exact He.
    + rewrite inject_Z_succ. repeat split; try lra.
      intros _. rewrite Z.even_add, He. reflexivity.
  - apply Qlt_alt in Hc. repeat split; try lra.
  - apply Qgt_alt in Hc. rewrite inject_Z_succ. repeat split; try lra.
Qed.

Lemma inject_Z_le_succ (a b : Z) : (a < b)%Z -> inject_Z a + 1 <= inject_Z b.
Proof.
  intros H. rewrite <- inject_Z_succ. rewrite <- Zle_Qle. lia.
Qed.

Lemma roundHalfEven_mono (x y : Q) :
  x <= y -> (roundHalfEven x <= roundHalfEven y)%Z.
Proof.
  intros Hxy.
  destruct (roundHalfEven_spec x) as (Hx1 & Hx2 & Hx3 & Hx4).
  destruct (roundHalfEven_spec y) as (Hy1 & Hy2 & Hy3 & Hy4).
  cbv zeta in *.
  set (a := roundHalfEven x) in *. set (b := roundHalfEven y) in *.
  destruct (Z_le_gt_dec a b) as [H|H]; [exact H|exfalso].
  assert (Hab : inject_Z b + 1 <= inject_Z a) by (apply inject_Z_le_succ; lia).
  assert (Ex : x == inject_Z a - (1 # 2)) by lra.
  assert (Ey : y == inject_Z b + (1 # 2)) by lra.
  assert (Eab : inject_Z a == inject_Z b + 1) by lra.
  rewrite <- inject_Z_succ in Eab.
  assert (Eab' : a = (b + 1)%Z).
  { unfold Qeq in Eab. cbn in Eab. lia. }
  specialize (Hx4 Ex). specialize (Hy3 Ey).
  rewrite Eab', Z.even_add, Hy3 in Hx4. discriminate.
Qed.

Lemma roundHalfEven_Z (z : Z) : roundHalfEven (inject_Z z) = z.
Proof.
  destruct (roundHalfEven_spec (inject_Z z)) as (H1 & H2 & _).
  cbv zeta in *. set (a := roundHalfEven (inject_Z z)) in *.
  destruct (Z.lt_trichotomy a z) as [H|[H|H]]; [exfalso|exact H|exfalso].
  - apply inject_Z_le_succ in H. lra.
  - apply inject_Z_le_succ in H. lra.
Qed.

Lemma pow2_pos (e : Z) : 0 < 2 ^ e.
Proof. apply Qpower_0_lt. reflexivity. Qed.

Lemma pow2_succ (e : Z) : 2 ^ (e + 1) == 2 * 2 ^ e.
Proof. rewrite Qpower_plus by discriminate. rewrite Qpower_1_r. ring. Qed.

Lemma pow2_le (a b : Z) : (a <= b)%Z -> 2 ^ a <= 2 ^ b.
Proof. intros H. apply Qpower_le_compat_l; [exact H | discriminate]. Qed.

Lemma pow2_lt (a b : Z) : (a < b)%Z -> 2 ^ a < 2 ^ b.
Proof. intros H. apply Qpower_lt_compat_l; [exact H | reflexivity]. Qed.

Lemma pow2_Z (n : Z) : (0 <= n)%Z -> 2 ^ n == inject_Z (2 ^ n).
Proof. intros H. rewrite Zpower_Qpower by exact H. reflexivity. Qed.

(** [ilog2] brackets a positive number between two powers of two. *)
Lemma ilog2_spec (x : Q) :
  0 < x -> 2 ^ ilog2 x <= x /\ x < 2 ^ (ilog2 x + 1).
Proof.
  intros Hx. unfold ilog2.
  rewrite (Qabs_pos x) by lra.
  destruct x as [n d]. cbn [Qnum Qden].
  assert (Hn : (0 < n)%Z).
  { unfold Qlt in Hx. cbn in Hx. lia. }
  rewrite (Z.abs_eq n) by lia.
  set (a := Z.log2 n). set (b := Z.log2 (Z.pos d)).
  assert (Ha : (2 ^ a <= n < 2 ^ (a + 1))%Z).
  { unfold a. pose proof (Z.log2_spec n Hn). lia. }
  assert (Hb : (2 ^ b <= Z.pos d < 2 ^ (b + 1))%Z).
  { unfold b. pose proof (Z.log2_spec (Z.pos d) eq_refl). lia. }
  assert (Ha0 : (0 <= a)%Z) by apply Z.log2_nonneg.
  assert (Hb0 : (0 <= b)%Z) by apply Z.log2_nonneg.
  assert (Ex : (n # d) * inject_Z (Z.pos d) == inject_Z n).
  { unfold Qeq, Qmult, inject_Z. cbn. lia. }
  assert (Hd : 0 < inject_Z (Z.pos d)) by (rewrite <- (Zlt_Qlt 0); lia).
  set (X := inject_Z n) in *. set (D := inject_Z (Z.pos d)) in *.
  assert (HA : 2 ^ a <= X /\ X < 2 * 2 ^ a).
  { rewrite <- pow2_succ, !pow2_Z by lia. unfold X.
    rewrite <- Zle_Qle, <- Zlt_Qlt. lia. }
  assert (HB : 2 ^ b <= D /\ D < 2 * 2 ^ b).
  { rewrite <- pow2_succ, !pow2_Z by lia. unfold D.
    rewrite <- Zle_Qle, <- Zlt_Qlt. lia. }
  assert (Ek : 2 ^ (a - b) * 2 ^ b == 2 ^ a).
  { rewrite <- Qpower_plus by discriminate. now replace (a - b + b)%Z with a by lia. }
  pose proof (pow2_pos a) as Pa. pose proof (pow2_pos b) as Pb.
  pose proof (pow2_pos (a - b)) as Pk.
  set (x := n # d) in *. set (A := 2 ^ a) in *. set (B := 2 ^ b) in *.
  clearbody x X D A B. destruct HA as [HA1 HA2]. destruct HB as [HB1 HB2].
  destruct (Qle_bool (2 ^ (a - b)) x) eqn:Ht.
  - apply Qle_bool_iff in Ht. split; [exact Ht|].
    rewrite pow2_succ. set (K := 2 ^ (a - b)) in *. clearbody K.
    (* x D = X < 2A = 2 K B <= 2 K D *)
    apply Qnot_le_lt. intros Hc.
    assert (2 * K * D <= x * D) by (apply Qmult_le_compat_r; lra).
    assert (2 * K * B <= 2 * K * D) by (apply Qmult_le_l; lra).
    nra.
  - assert (Hlt : x < 2 ^ (a - b)).
    { apply Qnot_le_lt. intros Hc. apply Qle_bool_iff in Hc. congruence. }
    split.
    + assert (E1 : 2 ^ (a - b) == 2 * 2 ^ (a - b - 1)).
      { rewrite <- pow2_succ. now replace (a - b - 1 + 1)%Z with (a - b)%Z by lia. }
      pose proof (pow2_pos (a - b - 1)) as Pk1.
      set (K := 2 ^ (a - b)) in *. set (K1 := 2 ^ (a - b - 1)) in *.
      clearbody K K1.
      (* K1 * D < K1 * 2 B = K B = A <= X = x D *)
      apply Qnot_lt_le. intros Hc.
      assert (x * D < K1 * D) by (apply Qmult_lt_compat_r; lra).
      assert (K1 * D <= K1 * (2 * B)) by (apply Qmult_le_l; lra).
      nra.
    + now replace (a - b - 1 + 1)%Z with (a - b)%Z by lia.
Qed.

Lemma ilog2_mono (x y : Q) : 0 < x -> x <= y -> (ilog2 x <= ilog2 y)%Z.
Proof.
  intros Hx Hxy.
  destruct (ilog2_spec x Hx) as [Hx1 _].
  destruct (ilog2_spec y) as [_ Hy2]; [lra|].
  destruct (Z_le_gt_dec (ilog2 x) (ilog2 y)) as [H|H]; [exact H|exfalso].
  assert (2 ^ (ilog2 y + 1) <= 2 ^ ilog2 x) by (apply pow2_le; lia).
  lra.
Qed.

Lemma nearest_eq (emin : option Z) (x y : Q) : x == y -> nearest emin x = nearest emin y.
Proof. intros H. unfold nearest. now rewrite (Qred_complete _ _ H). Qed.

Lemma nearest_pos_eq (emin : option Z) (x : Q) :
  0 < x ->
  exists x', x' == x
    /\ nearest emin x == roundAt (exponent emin x') x'.
Proof.
  intros Hx. unfold nearest. exists (Qred x). split; [apply Qred_correct|].
  destruct (Qeq_bool (Qred x) 0) eqn:E.
  - apply Qeq_bool_iff in E. rewrite Qred_correct in E. lra.
  - apply Qred_correct.
Qed.

Lemma exponent_mono (emin : option Z) (x y : Q) :
  0 < x -> x <= y -> (exponent emin x <= exponent emin y)%Z.
Proof.
  intros Hx Hxy. pose proof (ilog2_mono x y Hx Hxy).
  destruct emin; cbn [exponent]; lia.
Qed.

Lemma exponent_lower (emin : option Z) (x : Q) :
  (ilog2 x - 52 <= exponent emin x)%Z.
Proof. destruct emin; cbn [exponent]; lia. Qed.

Lemma pow2_52 : 2 ^ 52 == inject_Z (2 ^ 52).
Proof. apply pow2_Z. lia. Qed.

Lemma pow2_53 : 2 ^ 53 == inject_Z (2 ^ 53).
Proof. apply pow2_Z. lia. Qed.

(** The scaled significand stays below [2^53]. *)
Lemma roundAt_upper (e : Z) (x : Q) :
  0 < x -> (ilog2 x - 52 <= e)%Z -> roundAt e x <= 2 ^ (e + 53).
Proof.
  intros Hx He. unfold roundAt.
  destruct (ilog2_spec x Hx) as [_ H2].
  pose proof (pow2_pos e) as Pe.
  assert (Hs : x / 2 ^ e <= 2 ^ 53).
  { apply Qle_shift_div_r; [exact Pe|].
    rewrite <- Qpower_plus by discriminate.
    assert (2 ^ (ilog2 x + 1) <= 2 ^ (53 + e)) by (apply pow2_le; lia).
    lra. }
  rewrite pow2_53 in Hs. apply roundHalfEven_mono in Hs.
  rewrite roundHalfEven_Z in Hs.
  rewrite Qpower_plus by discriminate. rewrite pow2_53.
  rewrite (Qmult_comm (2 ^ e)).
  apply Qmult_le_compat_r; [|lra]. now rewrite <- Zle_Qle.
Qed.

(** A normal number keeps at least [2^52] in its significand. *)
Lemma roundAt_lower (x : Q) :
  0 < x -> 2 ^ ilog2 x <= roundAt (ilog2 x - 52) x.
Proof.
  intros Hx. unfold roundAt.
  destruct (ilog2_spec x Hx) as [H1 _].
  set (e := (ilog2 x - 52)%Z) in *.
  pose proof (pow2_pos e) as Pe.
  assert (Hs : 2 ^ 52 <= x / 2 ^ e).
  { apply Qle_shift_div_l; [exact Pe|].
    rewrite <- Qpower_plus by discriminate.
    now replace (52 + e)%Z with (ilog2 x) by (unfold e; lia). }
  rewrite pow2_52 in Hs. apply roundHalfEven_mono in Hs.
  rewrite roundHalfEven_Z in Hs.
  replace (ilog2 x) with (52 + e)%Z at 1 by (unfold e; lia).
  rewrite Qpower_plus by discriminate. rewrite pow2_52.
  apply Qmult_le_compat_r; [|lra]. now rewrite <- Zle_Qle.
Qed.

Lemma roundAt_mono (e : Z) (x y : Q) : x <= y -> roundAt e x <= roundAt e y.
Proof.
  intros H. unfold roundAt. pose proof (pow2_pos e) as Pe.
  apply Qmult_le_compat_r; [|lra]. rewrite <- Zle_Qle.
  apply roundHalfEven_mono. apply Qmult_le_compat_r; [exact H|].
  apply Qlt_le_weak, Qinv_lt_0_compat, Pe.
Qed.

Lemma roundHalfEven_comp (x y : Q) :
  x == y -> roundHalfEven x = roundHalfEven y.
Proof.
  intros H. apply Z.le_antisymm; apply roundHalfEven_mono; rewrite H; apply Qle_refl.
Qed.

Lemma roundAt_0 (e : Z) : roundAt e 0 == 0.
Proof.
  unfold roundAt. rewrite (roundHalfEven_comp (0 / 2 ^ e) (inject_Z 0)).
  - rewrite roundHalfEven_Z. ring.
  - unfold Qdiv. ring.
Qed.

Lemma roundAt_comp (e : Z) (x y : Q) : x == y -> roundAt e x == roundAt e y.
Proof.
  intros H. apply Qle_antisym; apply roundAt_mono; rewrite H; apply Qle_refl.
Qed.

Lemma ilog2_comp (x y : Q) : 0 < x -> x == y -> ilog2 x = ilog2 y.
Proof.
  intros Hx H. apply Z.le_antisymm; apply ilog2_mono; lra.
Qed.

Lemma exponent_comp (emin : option Z) (x y : Q) :
  0 < x -> x == y -> exponent emin x = exponent emin y.
Proof.
  intros Hx H. pose proof (ilog2_comp x y Hx H). destruct emin; cbn [exponent]; lia.
Qed.

Lemma nearest_pos (emin : option Z) (x : Q) :
  0 < x -> nearest emin x == roundAt (exponent emin x) x.
Proof.
  intros Hx. destruct (nearest_pos_eq emin x Hx) as (x' & Hx' & ->).
  rewrite (exponent_comp emin x' x) by lra. now apply roundAt_comp.
Qed.

Lemma nearest_0 (emin : option Z) (x : Q) : x == 0 -> nearest emin x = 0.
Proof.
  intros H. unfold nearest. rewrite (Qred_complete _ _ H). reflexivity.
Qed.

(** Rounding keeps the order of positive numbers. *)
Lemma nearest_mono_pos (emin : option Z) (x y : Q) :
  0 < x -> x <= y -> nearest emin x <= nearest emin y.
Proof.
  intros Hx Hxy. rewrite !nearest_pos by lra.
  pose proof (exponent_mono emin x y Hx Hxy) as He.
  destruct (Z.eq_dec (exponent emin x) (exponent emin y)) as [E|E].
  - rewrite E. now apply roundAt_mono.
  - assert (Hlt : (exponent emin x < exponent emin y)%Z) by lia.
    assert (Hey : exponent emin y = (ilog2 y - 52)%Z).
    { pose proof (exponent_lower emin x).
      destruct emin; cbn [exponent] in *; lia. }
    apply Qle_trans with (2 ^ (exponent emin x + 53)).
    + apply roundAt_upper; [exact Hx | apply exponent_lower].
    + apply Qle_trans with (2 ^ ilog2 y).
      * apply pow2_le. lia.
      * rewrite Hey. apply roundAt_lower. lra.
Qed.

Lemma nearest_nonneg (emin : option Z) (x : Q) : 0 <= x -> 0 <= nearest emin x.
Proof.
  intros Hx. destruct (Qeq_dec x 0) as [E|E].
  - rewrite (nearest_0 emin x E). apply Qle_refl.
  - rewrite nearest_pos by (destruct (Qle_lt_or_eq _ _ Hx); [assumption|exfalso; apply E; lra]).
    rewrite <- (roundAt_0 (exponent emin x)). now apply roundAt_mono.
Qed.

Lemma nearest_mono_nonneg (emin : option Z) (x y : Q) :
  0 <= x -> x <= y -> nearest emin x <= nearest emin y.
Proof.
  intros Hx Hxy. destruct (Qeq_dec x 0) as [E|E].
  - rewrite (nearest_0 emin x E). apply nearest_nonneg. lra.
  - apply nearest_mono_pos; [|exact Hxy].
    destruct (Qle_lt_or_eq _ _ Hx); [assumption|exfalso; apply E; lra].
Qed.

(** Without a lowest exponent a positive number stays positive. *)
Lemma round53_pos (x : Q) : 0 < x -> 0 < round53 x.
Proof.
  intros Hx. unfold round53. rewrite nearest_pos by exact Hx.
  cbn [exponent]. pose proof (roundAt_lower x Hx). pose proof (pow2_pos (ilog2 x)).
  lra.
Qed.

Lemma roundHalfEven_unique (x : Q) (z : Z) :
  inject_Z z - (1 # 2) <= x -> x <= inject_Z z + (1 # 2) ->
  (x == inject_Z z + (1 # 2) -> Z.even z = true) ->
  (x == inject_Z z - (1 # 2) -> Z.even z = true) ->
  roundHalfEven x = z.
Proof.
  intros H1 H2 H3 H4.
  destruct (roundHalfEven_spec x) as (G1 & G2 & G3 & G4). cbv zeta in *.
  set (a := roundHalfEven x) in *.
  destruct (Z.lt_trichotomy a z) as [H|[H|H]]; [exfalso|exact H|exfalso].
  - pose proof (inject_Z_le_succ _ _ H) as Hs.
    assert (Ex : x == inject_Z a + (1 # 2)) by lra.
    assert (Ez : x == inject_Z z - (1 # 2)) by lra.
    assert (E : inject_Z z == inject_Z (a + 1)) by (rewrite inject_Z_succ; lra).
    assert (E' : z = (a + 1)%Z) by (unfold Qeq in E; cbn in E; lia).
    specialize (G3 Ex). specialize (H4 Ez).
    rewrite E', Z.even_add, G3 in H4. discriminate.
  - pose proof (inject_Z_le_succ _ _ H) as Hs.
    assert (Ex : x == inject_Z a - (1 # 2)) by lra.
    assert (Ez : x == inject_Z z + (1 # 2)) by lra.
    assert (E : inject_Z a == inject_Z (z + 1)) by (rewrite inject_Z_succ; lra).
    assert (E' : a = (z + 1)%Z) by (unfold Qeq in E; cbn in E; lia).
    specialize (G4 Ex). specialize (H3 Ez).
    rewrite E', Z.even_add, H3 in G4. discriminate.
Qed.

Lemma roundHalfEven_opp (x : Q) : roundHalfEven (- x) = (- roundHalfEven x)%Z.
Proof.
  destruct (roundHalfEven_spec x) as (G1 & G2 & G3 & G4). cbv zeta in *.
  apply roundHalfEven_unique; rewrite ?inject_Z_opp; try lra.
  - intros E. rewrite Z.even_opp. apply G4. lra.
  - intros E. rewrite Z.even_opp. apply G3. lra.
Qed.

Lemma roundAt_opp (e : Z) (x : Q) : roundAt e (- x) == - roundAt e x.
Proof.
  unfold roundAt.
  rewrite (roundHalfEven_comp (- x / 2 ^ e) (- (x / 2 ^ e))).
  - rewrite roundHalfEven_opp, inject_Z_opp. ring.
  - unfold Qdiv. ring.
Qed.

Lemma ilog2_opp (x : Q) : ilog2 (- x) = ilog2 x.
Proof.
  unfold ilog2. destruct x as [n d]. cbn [Qopp Qnum Qden].
  rewrite Z.abs_opp.
  assert (E : Qabs (- n # d) == Qabs (n # d)) by apply (Qabs_opp (n # d)).
  set (k := (Z.log2 (Z.abs n) - Z.log2 (Z.pos d))%Z).
  assert (Eb : Qle_bool (2 ^ k) (Qabs (- n # d)) = Qle_bool (2 ^ k) (Qabs (n # d))).
  { apply Qleb_comp; [reflexivity | exact E]. }
  change (- (n # d)) with (- n # d). now rewrite Eb.
Qed.

Lemma nearest_opp (emin : option Z) (x : Q) : nearest emin (- x) == - nearest emin x.
Proof.
  unfold nearest. rewrite Qred_opp.
  set (y := Qred x).
  assert (Eb : Qeq_bool (- y) 0 = Qeq_bool y 0).
  { destruct (Qeq_bool y 0) eqn:E.
    - apply Qeq_bool_iff in E. apply Qeq_bool_iff. rewrite E. reflexivity.
    - apply not_true_iff_false. intros H. apply Qeq_bool_iff in H.
      apply not_true_iff_false in E. apply E. apply Qeq_bool_iff. lra. }
  rewrite Eb. destruct (Qeq_bool y 0); [reflexivity|].
  rewrite !Qred_correct.
  assert (Ee : exponent emin (- y) = exponent emin y).
  { destruct emin; cbn [exponent]; now rewrite ilog2_opp. }
  rewrite Ee. apply roundAt_opp.
Qed.

(** Rounding keeps the order. *)
Lemma nearest_mono (emin : option Z) (x y : Q) :
  x <= y -> nearest emin x <= nearest emin y.
Proof.
  intros Hxy. destruct (Qlt_le_dec x 0) as [Hx|Hx].
  - destruct (Qlt_le_dec y 0) as [Hy|Hy].
    + assert (H : nearest emin (- y) <= nearest emin (- x))
        by (apply nearest_mono_nonneg; lra).
      rewrite !nearest_opp in H. lra.
    + assert (H : 0 <= nearest emin (- x)) by (apply nearest_nonneg; lra).
      rewrite nearest_opp in H. pose proof (nearest_nonneg emin y Hy). lra.
  - now apply nearest_mono_nonneg.
Qed.

Lemma round53_neg (x : Q) : x < 0 -> round53 x < 0.
Proof.
  intros Hx. assert (H : 0 < round53 (- x)) by (apply round53_pos; lra).
  unfold round53 in *. rewrite nearest_opp in H. lra.
Qed.

(** The sign of a sum or a difference is exact. *)
Lemma round53_sign (x : Q) :
  (0 < round53 x <-> 0 < x) /\ (round53 x < 0 <-> x < 0)
  /\ (round53 x == 0 <-> x == 0).
Proof.
  destruct (Q_dec x 0) as [[H|H]|H].
  - pose proof (round53_neg x H). repeat split; intros; lra.
  - pose proof (round53_pos x H). repeat split; intros; lra.
  - unfold round53. rewrite (nearest_0 None x H). repeat split; intros; lra.
Qed.

(** Integers of fewer than 54 bits are doubles. *)
Lemma nearest_Z (emin : option Z) (z : Z) :
  (Z.abs z < 2 ^ 53)%Z ->
  match emin with Some m => (m <= 0)%Z | None => True end ->
  nearest emin (inject_Z z) == inject_Z z.
Proof.
  assert (Hpos : forall z, (0 < z < 2 ^ 53)%Z ->
            match emin with Some m => (m <= 0)%Z | None => True end ->
            nearest emin (inject_Z z) == inject_Z z).
  { clear z. intros z Hz Hm.
    assert (Hx : 0 < inject_Z z) by (rewrite <- (Zlt_Qlt 0); lia).
    rewrite nearest_pos by exact Hx.
    set (e := exponent emin (inject_Z z)).
    assert (He : (e <= 0)%Z).
    { destruct (ilog2_spec _ Hx) as [H1 _].
      assert (Hl : (ilog2 (inject_Z z) < 53)%Z).
      { destruct (Z_lt_ge_dec (ilog2 (inject_Z z)) 53) as [H|H]; [exact H|exfalso].
        assert (2 ^ 53 <= 2 ^ ilog2 (inject_Z z)) by (apply pow2_le; lia).
        rewrite pow2_53 in H0.
        assert (inject_Z (2 ^ 53) <= inject_Z z) by lra.
        rewrite <- Zle_Qle in H2. lia. }
      unfold e. destruct emin; cbn [exponent]; lia. }
    unfold roundAt.
    assert (E : inject_Z z / 2 ^ e == inject_Z (z * 2 ^ (- e))).
    { rewrite inject_Z_mult, <- pow2_Z by lia. rewrite Qpower_opp.
      reflexivity. }
    rewrite (roundHalfEven_comp _ _ E), roundHalfEven_Z.
    rewrite inject_Z_mult, <- pow2_Z by lia. rewrite Qpower_opp.
    field. pose proof (pow2_pos e). lra. }
  intros Hz Hm. destruct (Z.lt_trichotomy z 0) as [H|[H|H]].
  - assert (E : inject_Z z == - inject_Z (- z)) by (rewrite inject_Z_opp; ring).
    rewrite (nearest_eq emin _ _ E), nearest_opp, Hpos; [lra | lia | exact Hm].
  - subst z. apply Qeq_refl.
  - apply Hpos; [lia | exact Hm].
Qed.

(** A multiple of [2^e] is a multiple of every lower power of two. *)
Lemma roundAt_finer (e e' : Z) (x : Q) :
  (e' <= e)%Z -> roundAt e x == x -> roundAt e' x == x.
Proof.
  intros He Hx. unfold roundAt in *.
  set (z := roundHalfEven (x / 2 ^ e)) in *.
  pose proof (pow2_pos e) as Pe. pose proof (pow2_pos e') as Pe'.
  assert (E2 : 2 ^ e == inject_Z (2 ^ (e - e')) * 2 ^ e').
  { rewrite <- pow2_Z by lia. rewrite <- Qpower_plus by discriminate.
    now replace (e - e' + e')%Z with e by lia. }
  assert (E : x / 2 ^ e' == inject_Z (z * 2 ^ (e - e'))).
  { rewrite inject_Z_mult.
    transitivity (inject_Z z * 2 ^ e / 2 ^ e').
    - unfold Qdiv. now rewrite Hx.
    - rewrite E2. field. lra. }
  rewrite (roundHalfEven_comp _ _ E), roundHalfEven_Z.
  rewrite inject_Z_mult. transitivity (inject_Z z * 2 ^ e); [|exact Hx].
  rewrite E2. ring.
Qed.

(** A double is its own sum with zero. *)
Lemma double_round53 (x : Q) : fl x == x -> round53 x == x.
Proof.
  intros H. destruct (Q_dec x 0) as [[Hn|Hp]|Hz].
  - assert (Hx : 0 < - x) by lra.
    assert (H' : fl (- x) == - x).
    { unfold fl in *. rewrite nearest_opp. lra. }
    unfold fl, round53 in *. rewrite nearest_pos in H' by exact Hx.
    assert (G : nearest None (- x) == - x).
    { rewrite nearest_pos by exact Hx.
      apply (roundAt_finer _ _ _ (exponent_lower (Some (-1074)%Z) (- x))).
      exact H'. }
    rewrite nearest_opp in G. lra.
  - unfold fl, round53 in *. rewrite nearest_pos in H by exact Hp.
    rewrite nearest_pos by exact Hp.
    apply (roundAt_finer _ _ _ (exponent_lower (Some (-1074)%Z) x)).
    exact H.
  - unfold round53. rewrite (nearest_0 None x Hz). lra.
Qed.

(** *** Comparisons and defaults *)

Lemma ltb_true (a b : Q) : ltb a b = true <-> (a < b)%Q.
Proof.
  unfold ltb. rewrite negb_true_iff, <- not_true_iff_false, Qle_bool_iff.
  split; [apply Qnot_le_lt | apply Qlt_not_le].
Qed.

Lemma ltb_false (a b : Q) : ltb a b = false <-> (b <= a)%Q.
Proof. unfold ltb. rewrite negb_false_iff. apply Qle_bool_iff. Qed.

Lemma gtb_ltb (a b : Q) : gtb a b = ltb b a.
Proof. reflexivity. Qed.

Lemma geb_true (a b : Q) : geb a b = true <-> (b <= a)%Q.
Proof. apply Qle_bool_iff. Qed.

Lemma leb_true (a b : Q) : leb a b = true <-> (a <= b)%Q.
Proof. apply Qle_bool_iff. Qed.

Lemma leb_false (a b : Q) : leb a b = false <-> (b < a)%Q.
Proof.
  unfold leb. rewrite <- not_true_iff_false, Qle_bool_iff.
  split; [apply Qnot_le_lt | apply Qlt_not_le].
Qed.

Lemma orElse_zero (x : Q) : orElse x 0 == x.
Proof.
  unfold orElse. destruct (Qeq_bool x 0) eqn:E; [|reflexivity].
  apply Qeq_bool_iff in E. now rewrite E.
Qed.

Lemma getOr_default (o : option Q) : getOr o 0 == default 0%Q o.
Proof. destruct o; simpl; [apply orElse_zero | reflexivity]. Qed.

Lemma Math_min_le (a b : Q) : (a <= b)%Q -> Math_min a b = a.
Proof.
  intros H. unfold Math_min. apply ltb_false in H. now rewrite H.
Qed.

Lemma Math_min_gt (a b : Q) : (b < a)%Q -> Math_min a b = b.
Proof.
  intros H. unfold Math_min. apply ltb_true in H. now rewrite H.
Qed.

Lemma Math_min_Qmin (a b : Q) : Math_min a b == Qmin a b.
Proof.
  destruct (Qlt_le_dec b a) as [H|H].
  - rewrite (Math_min_gt _ _ H). symmetry. apply Q.min_r. now apply Qlt_le_weak.
  - rewrite (Math_min_le _ _ H). symmetry. now apply Q.min_l.
Qed.

Lemma Math_max_Qmax (a b : Q) : Math_max a b == Qmax a b.
Proof.
  unfold Math_max. destruct (ltb a b) eqn:E.
  - apply ltb_true in E. symmetry. apply Q.max_r. now apply Qlt_le_weak.
  - apply ltb_false in E. symmetry. now apply Q.max_l.
Qed.

Lemma orElseNat_max (n : nat) : orElseNat n 1 = Nat.max n 1.
Proof. destruct n as [|[|n]]; reflexivity. Qed.

Lemma orElseNat_zero (n : nat) : orElseNat n 0 = n.
Proof. now destruct n. Qed.


(** *** Arithmetic on numbers *)

Lemma add_comp (a a' b b' : Q) : a == a' -> b == b' -> add a b = add a' b'.
Proof. intros Ha Hb. apply nearest_eq. now rewrite Ha, Hb. Qed.

Lemma sub_comp (a a' b b' : Q) : a == a' -> b == b' -> sub a b = sub a' b'.
Proof. intros Ha Hb. apply nearest_eq. now rewrite Ha, Hb. Qed.

Lemma mul_comp (a a' b b' : Q) : a == a' -> b == b' -> mul a b = mul a' b'.
Proof. intros Ha Hb. apply nearest_eq. now rewrite Ha, Hb. Qed.

Lemma divide_comp (a a' b b' : Q) :
  a == a' -> b == b' -> divide a b = divide a' b'.
Proof. intros Ha Hb. apply nearest_eq. now rewrite Ha, Hb. Qed.

(** [b - a > 0] exactly when [a < b]. *)
Lemma gtb_sub (a b : Q) : gtb (sub b a) 0 = true <-> a < b.
Proof.
  rewrite gtb_ltb, ltb_true. unfold sub.
  destruct (round53_sign (b - a)) as (H & _). rewrite H. split; intros; lra.
Qed.

Lemma Big_comp (a a' : Q) : a == a' -> Big a = Big a'.
Proof. intros H. unfold Big, toDecimal. now rewrite (Qred_complete _ _ H). Qed.

#[global] Instance add_proper : Proper (Qeq ==> Qeq ==> eq) add.
Proof. intros a a' Ha b b' Hb. now apply add_comp. Qed.

#[global] Instance sub_proper : Proper (Qeq ==> Qeq ==> eq) sub.
Proof. intros a a' Ha b b' Hb. now apply sub_comp. Qed.

#[global] Instance mul_proper : Proper (Qeq ==> Qeq ==> eq) mul.
Proof. intros a a' Ha b b' Hb. now apply mul_comp. Qed.

#[global] Instance divide_proper : Proper (Qeq ==> Qeq ==> eq) divide.
Proof. intros a a' Ha b b' Hb. now apply divide_comp. Qed.

#[global] Instance Big_proper : Proper (Qeq ==> eq) Big.
Proof. intros a a' Ha. now apply Big_comp. Qed.

#[global] Instance toNumber_proper : Proper (Qeq ==> eq) toNumber.
Proof. intros a a' Ha. now apply nearest_eq. Qed.

Lemma mul_nonneg (a b : Q) : 0 <= a -> 0 <= b -> 0 <= mul a b.
Proof. intros Ha Hb. apply nearest_nonneg. now apply Qmult_le_0_compat. Qed.

Lemma divide_nonneg (a b : Q) : 0 <= a -> 0 < b -> 0 <= divide a b.
Proof.
  intros Ha Hb. apply nearest_nonneg. apply Qle_shift_div_l; [exact Hb|]. lra.
Qed.

Lemma add_nonneg (a b : Q) : 0 <= a -> 0 <= b -> 0 <= add a b.
Proof. intros Ha Hb. apply nearest_nonneg. lra. Qed.

Lemma add_mono (a a' b b' : Q) : a <= a' -> b <= b' -> add a b <= add a' b'.
Proof. intros Ha Hb. apply nearest_mono. lra. Qed.

Lemma mul_mono (a a' b : Q) : 0 <= b -> a <= a' -> mul a b <= mul a' b.
Proof. intros Hb Ha. apply nearest_mono. now apply Qmult_le_compat_r. Qed.

Lemma divide_mono (a a' b : Q) : 0 < b -> a <= a' -> divide a b <= divide a' b.
Proof.
  intros Hb Ha. apply nearest_mono. apply Qmult_le_compat_r; [exact Ha|].
  apply Qlt_le_weak, Qinv_lt_0_compat, Hb.
Qed.

(** *** Decimals *)

Lemma pow10_pos (e : Z) : 0 < 10 ^ e.
Proof. apply Qpower_0_lt. reflexivity. Qed.

Lemma decimalOf_nonneg (digits : nat) (x d : Q) :
  0 <= x -> decimalOf digits x = Some d -> 0 <= d.
Proof.
  intros Hx. unfold decimalOf. cbv zeta.
  set (e := (ilog10 x - Z.of_nat digits + 1)%Z).
  pose proof (pow10_pos e) as Pe.
  assert (Hlo : (0 <= Qfloor (x / 10 ^ e))%Z).
  { change 0%Z with (Qfloor 0). apply Qfloor_resp_le.
    apply Qle_shift_div_l; [exact Pe | lra]. }
  set (lo := Qfloor (x / 10 ^ e)) in *.
  assert (Hb : 0 <= inject_Z lo * 10 ^ e).
  { apply Qmult_le_0_compat; [|lra]. now rewrite <- (Zle_Qle 0). }
  assert (Ha : 0 <= inject_Z (lo + 1) * 10 ^ e).
  { apply Qmult_le_0_compat; [|lra]. rewrite <- (Zle_Qle 0). lia. }
  set (below := inject_Z lo * 10 ^ e) in *.
  set (above := inject_Z (lo + 1) * 10 ^ e) in *.
  clearbody below above.
  generalize (Qeq_bool (fl below) x) (Qeq_bool (fl above) x)
             (Qcompare (x - below) (above - x)).
  intros [|] [|] c; try discriminate.
  - destruct c; [destruct (Z.even lo)| |]; intros [= <-]; assumption.
  - intros [= <-]; assumption.
  - intros [= <-]; assumption.
Qed.

Lemma shortest_nonneg (fuel : nat) : forall (digits : nat) (x : Q),
  0 <= x -> 0 <= shortest fuel digits x.
Proof.
  induction fuel as [|fuel IH]; intros digits x Hx; cbn [shortest].
  - exact Hx.
  - destruct (decimalOf digits x) as [d|] eqn:E.
    + exact (decimalOf_nonneg _ _ _ Hx E).
    + now apply IH.
Qed.

(** The decimal of a number that is not negative is not negative. *)
Lemma Big_nonneg (x : Q) : 0 <= x -> 0 <= Big x.
Proof.
  intros Hx. unfold Big, toDecimal.
  assert (Hr : 0 <= Qred x) by now rewrite Qred_correct.
  destruct (Qeq_bool (Qred x) 0); [apply Qle_refl|].
  destruct (Qle_bool 0 (Qred x)) eqn:E.
  - rewrite Qred_correct. now apply shortest_nonneg.
  - apply Qle_bool_iff in Hr. congruence.
Qed.

Lemma toNumber_nonneg (b : Q) : 0 <= b -> 0 <= toNumber b.
Proof. apply nearest_nonneg. Qed.

End JSFacts.

(** ** Insertion-ordered maps *)

Module JSMapFacts.
Import JSMap.

Section Laws.
Context {V : Type}.
Implicit Types (m : t V) (k : string) (v : V).

Lemma get_set_eq m k v : get k (set k v m) = Some v.
Proof.
  induction m as [|[k' v'] m IH]; simpl.
  - now rewrite String.eqb_refl.
  - destruct (String.eqb k k') eqn:E; simpl.
    + now rewrite String.eqb_refl.
    + now rewrite E.
Qed.

Lemma get_set_ne m k k' v : k <> k' -> get k' (set k v m) = get k' m.
Proof.
  intros Hne. induction m as [|[k0 v0] m IH]; simpl.
  - apply not_eq_sym, String.eqb_neq in Hne. now rewrite Hne.
  - destruct (String.eqb k k0) eqn:E; simpl.
    + apply String.eqb_eq in E. subst k0.
      apply not_eq_sym, String.eqb_neq in Hne. now rewrite Hne.
    + now rewrite IH.
Qed.

Lemma get_delete_eq m k : get k (delete k m) = None.
Proof.
  induction m as [|[k' v'] m IH]; simpl; [reflexivity|].
  destruct (String.eqb k k') eqn:E; simpl; [assumption|].
  now rewrite E.
Qed.

Lemma get_delete_ne m k k' : k <> k' -> get k' (delete k m) = get k' m.
Proof.
  intros Hne. induction m as [|[k0 v0] m IH]; simpl; [reflexivity|].
  destruct (String.eqb k k0) eqn:E; simpl.
  - apply String.eqb_eq in E. subst k0.
    apply not_eq_sym, String.eqb_neq in Hne. now rewrite Hne.
  - now rewrite IH.
Qed.

Lemma In_delete m k k' v :
  In (k', v) (delete k m) <-> k' <> k /\ In (k', v) m.
Proof.
  induction m as [|[k0 v0] m IH]; simpl; [tauto|].
  destruct (String.eqb k k0) eqn:E; simpl.
  - apply String.eqb_eq in E. subst k0. rewrite IH.
    split; [tauto|]. intros [Hne [Heq|Hin]]; [|tauto].
    inversion Heq. congruence.
  - apply String.eqb_neq in E. rewrite IH.
    split; [|tauto]. intros [Heq|[Hne Hin]]; [|tauto].
    inversion Heq. subst. split; [congruence | now left].
Qed.


Lemma get_None_delete m k : get k m = None -> delete k m = m.
Proof.
  induction m as [|[k' v'] m IH]; simpl; [reflexivity|].
  destruct (String.eqb k k') eqn:E; [discriminate|].
  intros H. now rewrite IH.
Qed.

Lemma get_None_iff m k : get k m = None <-> forall v, ~ In (k, v) m.
Proof.
  induction m as [|[k' v'] m IH]; simpl; [tauto|].
  destruct (String.eqb k k') eqn:E.
  - apply String.eqb_eq in E. subst k'. split; [discriminate|].
    intros H. exfalso. apply (H v'). now left.
  - apply String.eqb_neq in E. rewrite IH. split.
    + intros H v [Heq|Hin]; [congruence | exact (H v Hin)].
    + intros H v Hin. apply (H v). now right.
Qed.

Lemma size_delete_le m k : (size (delete k m) <= size m)%nat.
Proof.
  unfold size. induction m as [|[k' v'] m IH]; simpl; [lia|].
  destruct (String.eqb k k'); simpl; lia.
Qed.

Lemma size_delete_first m k :
  firstKey m = Some k -> (S (size (delete k m)) <= size m)%nat.
Proof.
  destruct m as [|[k' v'] m]; simpl; [discriminate|].
  intros [= ->]. rewrite String.eqb_refl.
  pose proof (size_delete_le m k). unfold size in *. simpl. lia.
Qed.

Lemma size_set_le m k v : (size (set k v m) <= S (size m))%nat.
Proof.
  unfold size. induction m as [|[k' v'] m IH]; simpl; [lia|].
  destruct (String.eqb k k'); simpl; lia.
Qed.

End Laws.

End JSMapFacts.

(** ** Reward computation *)

Module RewardFacts.
Import JS JSFacts Incentive RewardSpec.
Local Open Scope Q_scope.

(** What [calculateRewards] multiplies together, read off a state. *)
Lemma stakeOf_stake (s : IncentiveSystem) (node : string) :
  orElse (stakeOf s node) 0 == stake s node.
Proof.
  unfold stakeOf, stake. rewrite orElse_zero. apply getOr_default.
Qed.

Lemma div_nonzero (a b : Q) : ~ b == 0 -> div a b = Finite (divide a b).
Proof.
  intros H. unfold div. destruct (Qeq_bool b 0) eqn:E; [|reflexivity].
  apply Qeq_bool_iff in E. contradiction.
Qed.

Lemma div_zero_pos (a b : Q) : b == 0 -> 0 < a -> div a b = Infinity.
Proof.
  intros Hb Ha. unfold div.
  apply Qeq_bool_iff in Hb. rewrite Hb.
  destruct (Qeq_bool a 0) eqn:E.
  - apply Qeq_bool_iff in E. rewrite E in Ha. discriminate Ha.
  - apply ltb_true in Ha. now rewrite Ha.
Qed.

Lemma div_zero_zero (a b : Q) : b == 0 -> a == 0 -> div a b = NaN.
Proof.
  intros Hb Ha. unfold div.
  apply Qeq_bool_iff in Hb, Ha. now rewrite Hb, Ha.
Qed.

(** The product that [calculateRewards] hands to [toNumber], with the
    stake multiplier [m] it has computed. *)
Lemma product_rounded (s : IncentiveSystem) (node : string) (m : Q) :
  m == stake_mult s node ->
  toNumber
    (Big (getOr (bandwidthProvided s !! node) 0) * Big (rewardRate (config s))
     * Big m
     * Big (divide
              (getOr (uptime (default noPerformance (nodePerformance s !! node)))
                     0) 100)
     * Big (Math_max 0
              (sub 1 (divide
                        (getOr (averageLatency
                                  (default noPerformance
                                           (nodePerformance s !! node))) 0)
                        1000)))
     * Big (ofNat (orElseNat
                     (orElseNat (default 0%nat (sessionsServed s !! node)) 0) 1)))
  = rounded s node.
Proof.
  intros Hm.
  unfold rounded, uptime_bonus, latency_bonus, bytes_forwarded,
    uptime_pct, avg_latency, sessions_served, performance, ofNat.
  rewrite orElseNat_zero, orElseNat_max.
  rewrite (Big_comp _ _ (getOr_default (bandwidthProvided s !! node))).
  rewrite (Big_comp _ _ Hm).
  rewrite (divide_comp _ _ _ _
             (getOr_default
                (uptime (default noPerformance (nodePerformance s !! node))))
             (Qeq_refl 100)).
  rewrite (divide_comp _ _ _ _
             (getOr_default
                (averageLatency
                   (default noPerformance (nodePerformance s !! node))))
             (Qeq_refl 1000)).
  rewrite (Big_comp _ _ (Math_max_Qmax 0 _)).
  reflexivity.
Qed.

(** The stake multiplier of the code is the one of [rounded]. *)
Lemma stake_mult_nonzero (s : IncentiveSystem) (node : string) :
  ~ minStake (config s) == 0 ->
  Math_min (add 1 (mul (divide (orElse (stakeOf s node) 0)
                               (minStake (config s))) (1 # 2))) 2
  == stake_mult s node.
Proof.
  intros Hmin. unfold stake_mult.
  destruct (Qeq_bool (minStake (config s)) 0) eqn:E.
  - apply Qeq_bool_iff in E. contradiction.
  - rewrite (divide_comp _ _ _ _ (stakeOf_stake s node)
               (Qeq_refl (minStake (config s)))).
    apply Math_min_Qmin.
Qed.

Lemma stake_mult_zero (s : IncentiveSystem) (node : string) :
  minStake (config s) == 0 -> 2 == stake_mult s node.
Proof.
  intros Hmin. unfold stake_mult. apply Qeq_bool_iff in Hmin.
  now rewrite Hmin.
Qed.

(** The reward of a node that reaches the minimum stake, a node without
    stake under a minimum of zero apart. *)
Lemma calculateRewards_eligible (O : Oracle) s k node period :
  (minStake (config s) <= stake s node)%Q ->
  ~ (minStake (config s) == 0 /\ stake s node == 0) ->
  exists r,
    calculateRewards O node period (mkWorld k s)
      = (Returned r, mkWorld (S k) s)
    /\ r_nodeId r = node
    /\ r_amount r = Math_min (rounded s node) (maxRewardPerDay (config s)).
Proof.
  intros Hstake Hnot.
  unfold calculateRewards, tryCatch, bind, getStake, gets. cbn [self reads].
  assert (Hlt : ltb (orElse (stakeOf s node) 0) (minStake (config s)) = false).
  { apply ltb_false. now rewrite stakeOf_stake. }
  rewrite Hlt.
  destruct (Qeq_dec (minStake (config s)) 0) as [Hzero|Hmin].
  - assert (Hpos : 0 < orElse (stakeOf s node) 0).
    { rewrite stakeOf_stake. rewrite Hzero in Hstake.
      destruct (Qle_lt_or_eq _ _ Hstake) as [H|H]; [exact H|].
      exfalso. apply Hnot. split; [exact Hzero | now symmetry]. }
    rewrite (div_zero_pos _ _ Hzero Hpos).
    cbn [halfPlusOneCapped Big_mul ret now].
    eexists. split; [reflexivity|]. cbn [r_nodeId r_amount].
    split; [reflexivity|].
    now rewrite (product_rounded s node 2 (stake_mult_zero s node Hzero)).
  - rewrite (div_nonzero _ _ Hmin).
    cbn [halfPlusOneCapped Big_mul ret now].
    eexists. split; [reflexivity|]. cbn [r_nodeId r_amount].
    split; [reflexivity|].
    now rewrite (product_rounded s node _ (stake_mult_nonzero s node Hmin)).
Qed.

(** C1, as the code has it.  For a node whose stake reaches the
    minimum stake, the reward is the product of [bytes_forwarded],
    [reward_rate], [min(1 + (stake/min_stake)*0.5, 2)], [uptime/100],
    [max(0, 1 - avg_latency/1000)] and [max(sessions_served, 1)] in the
    arithmetic of the code: the three factors after the first two are
    computed in doubles (over a minimum stake of zero a positive stake
    makes the multiplier 2), the product is taken exactly over the
    shortest decimals of the six factors and rounded once to a double.
    The result is clamped by [max_reward_per_day]: a value above the cap
    yields exactly the cap, a value at or below the cap is returned as
    it is.  With a minimum stake of zero and no stake the quotient is
    no number, and the call fails with [REWARD_CALCULATION_ERROR]. *)
Theorem calculateRewards_formula
    (O : Oracle) (s : IncentiveSystem) (k : nat) (node period : string) :
  (minStake (config s) <= stake s node)%Q ->
  (~ (minStake (config s) == 0 /\ stake s node == 0) ->
   exists r,
     calculateRewards O node period (mkWorld k s)
       = (Returned r, mkWorld (S k) s)
     /\ r_nodeId r = node
     /\ r_amount r == Qmin (rounded s node) (maxRewardPerDay (config s))
     /\ ((maxRewardPerDay (config s) < rounded s node)%Q ->
         r_amount r = maxRewardPerDay (config s))
     /\ ((rounded s node <= maxRewardPerDay (config s))%Q ->
         r_amount r = rounded s node))
  /\ (minStake (config s) == 0 -> stake s node == 0 ->
      calculateRewards O node period (mkWorld k s)
      = (Thrown (RewardCalculationError
                   (NativeError "[big.js] Invalid number")),
         mkWorld k s)).
Proof.
  intros Hstake. split.
  - intros Hnot.
    destruct (calculateRewards_eligible O s k node period Hstake Hnot)
      as (r & Hrun & Hnode & Hamount).
    exists r. split; [exact Hrun|]. split; [exact Hnode|].
    rewrite Hamount. split; [|split].
    + apply Math_min_Qmin.
    + intros Hcap. now apply Math_min_gt.
    + intros Hcap. now apply Math_min_le.
  - intros Hzero Hnone.
    unfold calculateRewards, tryCatch, bind, getStake, gets. cbn [self reads].
    assert (Hlt : ltb (orElse (stakeOf s node) 0) (minStake (config s)) = false).
    { apply ltb_false. now rewrite stakeOf_stake. }
    rewrite Hlt.
    rewrite (div_zero_zero (orElse (stakeOf s node) 0) (minStake (config s)));
      [reflexivity | exact Hzero | now rewrite stakeOf_stake].
Qed.

Lemma calculateRewards_formula_witness :
  (exists r,
     calculateRewards Demo.oracle "X" "daily"
         (mkWorld (reads Demo.measured) (self Demo.measured))
       = (Returned r, mkWorld (S (reads Demo.measured)) (self Demo.measured))
     /\ r_nodeId r = "X"%string
     /\ r_amount r == Qmin (rounded (self Demo.measured) "X")
                            (maxRewardPerDay (config (self Demo.measured)))
     /\ ((maxRewardPerDay (config (self Demo.measured))
           < rounded (self Demo.measured) "X")%Q ->
         r_amount r = maxRewardPerDay (config (self Demo.measured)))
     /\ ((rounded (self Demo.measured) "X"
           <= maxRewardPerDay (config (self Demo.measured)))%Q ->
         r_amount r = rounded (self Demo.measured) "X"))
  /\ calculateRewards Demo.oracle "new-node" "daily" (mkWorld 0 Demo.freeLedger)
     = (Thrown (RewardCalculationError
                  (NativeError "[big.js] Invalid number")),
        mkWorld 0 Demo.freeLedger).
Proof.
  split.
  - refine (proj1 (calculateRewards_formula Demo.oracle (self Demo.measured)
                     (reads Demo.measured) "X" "daily" _) _).
    + vm_compute. intros H. discriminate H.
    + intros [H _]. vm_compute in H. discriminate H.
  - refine (proj2 (calculateRewards_formula Demo.oracle Demo.freeLedger 0
                     "new-node" "daily" _) _ _).
    + vm_compute. intros H. discriminate H.
    + vm_compute. reflexivity.
    + vm_compute. reflexivity.
Defined.

(** The scenario of the specification: 100 units at rate 0.1, stake
    5000 over a minimum of 1000, uptime 100, latency 50, 5 sessions give
    10 * 2 * 1 * 0.95 * 5 = 95, in the arithmetic of the code too. *)
Example reward_scenario :
  rounded (self Demo.measured) "X" == 95
  /\ match fst (calculateRewards Demo.oracle "X" "daily" Demo.measured) with
     | Returned r => r_amount r == 95
     | Thrown _ => False
     end.
Proof. split; vm_compute; reflexivity. Qed.

(** C1, as the specification has it, fails.  With an uptime of 99.9
    the formula over the rationals gives 94.905 for the uptime as
    written, and 94.9050000000000054 for the double that 99.9 is; the
    code returns the double 94.90500000000002, below the cap of 1000.
    And with a minimum stake of zero, a node without stake meets the
    minimum and the computation fails on [0 / 0]. *)
Lemma reward_is_rounded :
  (exists r,
     fst (calculateRewards Demo.oracle "X" "daily" Demo.nearlyUp) = Returned r
     /\ r_amount r == lit (9490500000000002 # 100000000000000)
     /\ raw (self Demo.nearlyUp) "X"
          <= maxRewardPerDay (config (self Demo.nearlyUp))
     /\ ~ r_amount r == raw (self Demo.nearlyUp) "X"
     /\ ~ r_amount r == 94905 # 1000)
  /\ (minStake (config Demo.freeLedger)
        <= stake Demo.freeLedger "new-node"
      /\ fst (calculateRewards Demo.oracle "new-node" "daily"
                (mkWorld 0 Demo.freeLedger))
         = Thrown (NetworkNeuronError
                     "Reward calculation failed: [big.js] Invalid number"
                     "REWARD_CALCULATION_ERROR")).
Proof.
  split.
  - eexists. split; [vm_compute; reflexivity|].
    repeat split; vm_compute; intros H; discriminate H.
  - split; [vm_compute; intros H; discriminate H | vm_compute; reflexivity].
Qed.

End RewardFacts.

(** ** Staking and unstaking *)

Module LedgerFacts.
Import JS JSFacts JSMapFacts Incentive LedgerSpec.
Local Open Scope Q_scope.

Lemma lastN_short {A} (n : nat) (l : list A) :
  (length l <= n)%nat -> lastN n l = l.
Proof.
  intros H. unfold lastN. replace (length l - n)%nat with 0%nat by lia.
  reflexivity.
Qed.

(** What [recordTransaction] leaves behind. *)
Lemma recordTransaction_run (O : Oracle) type from to amount ts md sg k s :
  exists s',
    recordTransaction O type from to amount ts md sg (mkWorld k s)
      = (Returned tt, mkWorld (S k) s')
    /\ transactions s'
       = lastN maxTransactions
           (transactions s
            ++ [ {| tx_id := randomHex O k; tx_type := type; tx_from := from;
                    tx_to := to; tx_amount := amount; tx_timestamp := ts;
                    tx_metadata := md; tx_signature := sg |} ])
    /\ config s' = config s /\ balances s' = balances s
    /\ stakes s' = stakes s /\ rewards s' = rewards s
    /\ nodePerformance s' = nodePerformance s
    /\ bandwidthProvided s' = bandwidthProvided s
    /\ sessionsServed s' = sessionsServed s.
Proof.
  unfold recordTransaction, bind, generateRandomString, modify, gets, emit.
  cbn [self reads with_transactions transactions].
  match goal with
  | |- context [ (maxTransactions <? ?n)%nat ] =>
      destruct (Nat.ltb_spec maxTransactions n) as [Hlen|Hlen]
  end.
  - eexists. split; [reflexivity|]. cbn. repeat split; reflexivity.
  - eexists. split; [reflexivity|]. cbn.
    rewrite lastN_short by exact Hlen. repeat split; reflexivity.
Qed.

Ltac fields :=
  cbn [config balances stakes rewards transactions nodePerformance
       bandwidthProvided sessionsServed emitted with_balances with_stakes
       with_rewards with_transactions with_nodePerformance
       with_bandwidthProvided with_sessionsServed self reads] in *.

Ltac run_recordTransaction H :=
  match goal with
  | |- context [ recordTransaction ?O ?a ?b ?c ?d ?e ?f ?g (mkWorld ?k ?s) ] =>
      let s' := fresh "s'" in
      destruct (recordTransaction_run O a b c d e f g k s)
        as (s' & H & ? & ? & ? & ? & ? & ? & ? & ?);
      rewrite H
  end.

(** A stake that passes both checks, with a key that signs. *)
Lemma stakeTokens_success (O : Oracle) s k node amount pem sg :
  (amount <= balanceOf s node)%Q ->
  (minStake (config s) <= amount)%Q ->
  privateKey (config s) = Some pem ->
  rsaSign O (stakeMessage O node amount) pem = inl sg ->
  exists receipt s',
    stakeTokens O node amount (mkWorld k s)
      = (Returned receipt, mkWorld (S (S (S k))) s')
    /\ config s' = config s
    /\ balances s' = <[node := sub (balanceOf s node) amount]> (balances s)
    /\ stakes s'
       = JSMap.set node (add (orElse (stakeOf s node) 0) amount) (stakes s)
    /\ transactions s'
       = lastN maxTransactions (transactions s ++ [stakeTx O k node amount sg])
    /\ rewards s' = rewards s
    /\ nodePerformance s' = nodePerformance s
    /\ bandwidthProvided s' = bandwidthProvided s
    /\ sessionsServed s' = sessionsServed s.
Proof.
  intros Hbal Hmin Hkey Hsign.
  apply ltb_false in Hbal, Hmin.
  unfold stakeTokens, tryCatch, bind, getBalance, getStake, gets.
  cbn [self reads]. rewrite Hbal, Hmin.
  unfold modify, now, sign. cbn [self reads with_balances with_stakes config].
  rewrite Hkey. fold (stakeMessage O node amount). rewrite Hsign.
  unfold ret at 1. run_recordTransaction Hrun.
  unfold emit, modify, ret. cbn [self reads].
  do 2 eexists. split; [reflexivity|]. fields.
  repeat split; assumption.
Qed.

(** An unstake that passes its check, with a key that signs. *)
Lemma unstakeTokens_success (O : Oracle) s k node amount pem sg :
  (amount <= stakeOf s node)%Q ->
  privateKey (config s) = Some pem ->
  rsaSign O (unstakeMessage O node amount) pem = inl sg ->
  exists receipt s',
    unstakeTokens O node amount (mkWorld k s)
      = (Returned receipt, mkWorld (S (S (S k))) s')
    /\ config s' = config s
    /\ balances s' = <[node := add (balanceOf s node) amount]> (balances s)
    /\ stakes s' = JSMap.set node (sub (stakeOf s node) amount) (stakes s)
    /\ transactions s'
       = lastN maxTransactions (transactions s ++ [unstakeTx O k node amount sg])
    /\ rewards s' = rewards s
    /\ nodePerformance s' = nodePerformance s
    /\ bandwidthProvided s' = bandwidthProvided s
    /\ sessionsServed s' = sessionsServed s.
Proof.
  intros Hstake Hkey Hsign.
  apply ltb_false in Hstake.
  unfold unstakeTokens, tryCatch, bind, getBalance, getStake, gets.
  cbn [self reads]. rewrite Hstake.
  unfold modify, now, sign. cbn [self reads with_balances with_stakes config].
  rewrite Hkey. fold (unstakeMessage O node amount). rewrite Hsign.
  unfold ret at 1. run_recordTransaction Hrun.
  unfold emit, modify, ret. cbn [self reads].
  do 2 eexists. split; [reflexivity|]. fields.
  repeat split; assumption.
Qed.

(** Reading the ledger after a write. *)
Lemma balanceOf_insert_eq s s' node (v : Q) :
  balances s' = <[node := v]> (balances s) -> balanceOf s' node == v.
Proof.
  intros H. unfold balanceOf. rewrite H, lookup_insert_eq. apply orElse_zero.
Qed.

Lemma balanceOf_insert_ne s s' node other (v : Q) :
  balances s' = <[node := v]> (balances s) -> node <> other ->
  balanceOf s' other = balanceOf s other.
Proof.
  intros H Hne. unfold balanceOf. now rewrite H, lookup_insert_ne.
Qed.

Lemma stakeOf_set_eq s s' node (v : Q) :
  stakes s' = JSMap.set node v (stakes s) -> stakeOf s' node == v.
Proof.
  intros H. unfold stakeOf. rewrite H, get_set_eq. apply orElse_zero.
Qed.

Lemma stakeOf_set_ne s s' node other (v : Q) :
  stakes s' = JSMap.set node v (stakes s) -> node <> other ->
  stakeOf s' other = stakeOf s other.
Proof.
  intros H Hne. unfold stakeOf. now rewrite H, get_set_ne.
Qed.

(** C2, as the code has it.  [stakeTokens] fails when the balance is
    below the amount, and otherwise when the amount is strictly below
    the minimum stake; what the caller gets in both cases is the error
    of the [catch] block, with the code [STAKING_ERROR] and the message
    of the cause after [Staking failed: ], and the ledger is as it was.
    Otherwise (an amount equal to the minimum stake included), with a
    coordinator key that signs, it sets the node's balance to
    [balance - amount] and the node's stake to [stake + amount], touches
    no other node, and appends one stake transaction signed with the
    coordinator's key. *)
Theorem stakeTokens_cases (O : Oracle) (s : IncentiveSystem) (k : nat)
    (node : string) (amount : Q) :
  ((balanceOf s node < amount)%Q ->
   stakeTokens O node amount (mkWorld k s)
     = (Thrown (StakingError InsufficientBalance), mkWorld k s))
  /\ ((amount <= balanceOf s node)%Q -> (amount < minStake (config s))%Q ->
      stakeTokens O node amount (mkWorld k s)
        = (Thrown (StakingError
                     (MinStakeNotMet (numToString O (minStake (config s))))),
           mkWorld k s))
  /\ ((amount <= balanceOf s node)%Q -> (minStake (config s) <= amount)%Q ->
      signs O s ->
      exists receipt s' pem signature,
        stakeTokens O node amount (mkWorld k s)
          = (Returned receipt, mkWorld (S (S (S k))) s')
        /\ balanceOf s' node == sub (balanceOf s node) amount
        /\ stakeOf s' node == add (stakeOf s node) amount
        /\ (forall other, node <> other ->
              balanceOf s' other = balanceOf s other
              /\ stakeOf s' other = stakeOf s other)
        /\ privateKey (config s) = Some pem
        /\ rsaSign O (stakeMessage O node amount) pem = inl signature
        /\ transactions s'
           = lastN maxTransactions
               (transactions s ++ [stakeTx O k node amount signature])).
Proof.
  split; [|split].
  - intros Hbal. apply ltb_true in Hbal.
    unfold stakeTokens, tryCatch, bind, getBalance, getStake, gets.
    cbn [self reads]. now rewrite Hbal.
  - intros Hbal Hmin. apply ltb_false in Hbal. apply ltb_true in Hmin.
    unfold stakeTokens, tryCatch, bind, getBalance, getStake, gets.
    cbn [self reads]. now rewrite Hbal, Hmin.
  - intros Hbal Hmin (pem & Hkey & Hsigns).
    destruct (Hsigns (stakeMessage O node amount)) as [sg Hsg].
    destruct (stakeTokens_success O s k node amount pem sg Hbal Hmin Hkey Hsg)
      as (receipt & s' & Hrun & _ & Hb & Hs & Ht & _).
    exists receipt, s', pem, sg. split; [exact Hrun|].
    split; [exact (balanceOf_insert_eq _ _ _ _ Hb)|].
    split.
    { rewrite (stakeOf_set_eq _ _ _ _ Hs).
      now rewrite (add_comp _ _ _ _ (orElse_zero (stakeOf s node))
                     (Qeq_refl amount)). }
    split.
    { intros other Hne. split.
      - exact (balanceOf_insert_ne _ _ _ _ _ Hb Hne).
      - exact (stakeOf_set_ne _ _ _ _ _ Hs Hne). }
    repeat split; assumption.
Qed.

Lemma demo_signs (s : IncentiveSystem) :
  privateKey (config s) = Some "PRIVATE"%string -> signs Demo.oracle s.
Proof.
  intros H. exists "PRIVATE"%string. split; [exact H|].
  intros data. eexists. reflexivity.
Defined.

Lemma stakeTokens_cases_witness :
  stakeTokens Demo.oracle "X" 20000 (mkWorld 0 Demo.ledger)
    = (Thrown (StakingError InsufficientBalance), mkWorld 0 Demo.ledger)
  /\ stakeTokens Demo.oracle "X" 500 (mkWorld 0 Demo.ledger)
      = (Thrown (StakingError
                   (MinStakeNotMet
                      (numToString Demo.oracle (minStake (config Demo.ledger))))),
         mkWorld 0 Demo.ledger)
  /\ exists receipt s' pem signature,
        stakeTokens Demo.oracle "X" 1000 (mkWorld 0 Demo.ledger)
          = (Returned receipt, mkWorld 3 s')
        /\ balanceOf s' "X" == sub (balanceOf Demo.ledger "X") 1000
        /\ stakeOf s' "X" == add (stakeOf Demo.ledger "X") 1000
        /\ (forall other, "X"%string <> other ->
              balanceOf s' other = balanceOf Demo.ledger other
              /\ stakeOf s' other = stakeOf Demo.ledger other)
        /\ privateKey (config Demo.ledger) = Some pem
        /\ rsaSign Demo.oracle (stakeMessage Demo.oracle "X" 1000) pem
           = inl signature
        /\ transactions s'
           = lastN maxTransactions
               (transactions Demo.ledger ++ [stakeTx Demo.oracle 0 "X" 1000 signature]).
Proof.
  split; [|split].
  - refine (proj1 (stakeTokens_cases Demo.oracle Demo.ledger 0 "X" 20000) _).
    vm_compute. reflexivity.
  - refine (proj1 (proj2 (stakeTokens_cases Demo.oracle Demo.ledger 0 "X" 500)) _ _).
    + vm_compute. intros H. discriminate H.
    + vm_compute. reflexivity.
  - refine (proj2 (proj2 (stakeTokens_cases Demo.oracle Demo.ledger 0 "X" 1000)) _ _ _).
    + vm_compute. intros H. discriminate H.
    + vm_compute. intros H. discriminate H.
    + apply demo_signs. reflexivity.
Defined.

(** C2, as the specification has it, fails: neither
    [INSUFFICIENT_BALANCE] nor [MIN_STAKE_NOT_MET] reaches the caller.
    Staking 20000 with a balance of 10000, and staking 500 under a
    minimum of 1000, both throw an error whose code is
    [STAKING_ERROR]. *)
Lemma stake_failures_are_wrapped :
  (exists e,
     fst (stakeTokens Demo.oracle "X" 20000 Demo.fresh) = Thrown e
     /\ code e = Some "STAKING_ERROR"%string
     /\ message e = "Staking failed: Insufficient balance for staking"%string
     /\ e <> InsufficientBalance)
  /\ (exists e,
        fst (stakeTokens Demo.oracle "X" 500 Demo.fresh) = Thrown e
        /\ code e = Some "STAKING_ERROR"%string
        /\ message e = "Staking failed: Minimum stake required: 1000"%string
        /\ e <> MinStakeNotMet "1000").
Proof.
  split; eexists; (split; [vm_compute; reflexivity|]);
    repeat split; discriminate.
Qed.

Lemma lastN_app_one {A} (n : nat) (l : list A) (x : A) :
  lastN n (lastN n l ++ [x]) = lastN n (l ++ [x]).
Proof.
  unfold lastN. rewrite !length_app, length_skipn. cbn [length].
  rewrite !skipn_app, skipn_skipn, length_skipn.
  destruct (Nat.le_gt_cases (length l) n) as [H|H].
  - replace (length l - n)%nat with 0%nat by lia. cbn [skipn].
    replace (length l - 0 + 1 - n - (length l - 0))%nat
      with (length l + 1 - n - length l)%nat by lia.
    now replace (length l - 0 + 1 - n + 0)%nat with (length l + 1 - n)%nat by lia.
  - replace (length l - (length l - n) + 1 - n + (length l - n))%nat
      with (length l + 1 - n)%nat by lia.
    replace (length l - (length l - n) + 1 - n - (length l - (length l - n)))%nat
      with (length l + 1 - n - length l)%nat by lia.
    reflexivity.
Qed.

(** A stake that returned passed both checks. *)
Lemma stakeTokens_returned (O : Oracle) s k node amount receipt w :
  stakeTokens O node amount (mkWorld k s) = (Returned receipt, w) ->
  (amount <= balanceOf s node)%Q /\ (minStake (config s) <= amount)%Q.
Proof.
  unfold stakeTokens, tryCatch, bind, getBalance, getStake, gets.
  cbn [self reads].
  destruct (ltb (balanceOf s node) amount) eqn:Hbal; [discriminate|].
  destruct (ltb amount (minStake (config s))) eqn:Hmin; [discriminate|].
  intros _. split; now apply ltb_false.
Qed.

(** C4, as the code has it.  When [stakeTokens(n, x)] succeeds for an
    amount that is a double, [unstakeTokens(n, x)] right after it
    succeeds too; no other node's balance or stake has changed; the
    node's balance is [(balance - x) + x] and its stake
    [(stake + x) - x], each operation rounded, so that the balance is
    back where it was when [balance - x] is exact and the stake when
    [stake + x] is exact (as they are for whole numbers below [2^53]);
    the log has gained the stake transaction and the unstake
    transaction, in that order (and nothing else changed in it while it
    stays within its retention).  The coordinator's key signs, and the
    node's stake was not negative. *)
Theorem stake_then_unstake (O : Oracle) (s : IncentiveSystem) (k : nat)
    (node : string) (amount : Q) (receipt : StakeReceipt)
    (w1 : World IncentiveSystem) :
  signs O s ->
  (0 <= stakeOf s node)%Q ->
  fl amount == amount ->
  stakeTokens O node amount (mkWorld k s) = (Returned receipt, w1) ->
  exists receipt' s2 sg1 sg2,
    unstakeTokens O node amount w1
      = (Returned receipt', mkWorld (6 + k) s2)
    /\ (forall n, n <> node ->
          balanceOf s2 n = balanceOf s n /\ stakeOf s2 n = stakeOf s n)
    /\ balanceOf s2 node == add (sub (balanceOf s node) amount) amount
    /\ stakeOf s2 node == sub (add (stakeOf s node) amount) amount
    /\ (fl (balanceOf s node) == balanceOf s node ->
        sub (balanceOf s node) amount == balanceOf s node - amount ->
        balanceOf s2 node == balanceOf s node)
    /\ (fl (stakeOf s node) == stakeOf s node ->
        add (stakeOf s node) amount == stakeOf s node + amount ->
        stakeOf s2 node == stakeOf s node)
    /\ transactions s2
       = lastN maxTransactions
           (transactions s ++ [stakeTx O k node amount sg1;
                               unstakeTx O (3 + k) node amount sg2])
    /\ ((length (transactions s) + 2 <= maxTransactions)%nat ->
        transactions s2
        = transactions s ++ [stakeTx O k node amount sg1;
                             unstakeTx O (3 + k) node amount sg2]).
Proof.
  intros (pem & Hkey & Hsigns) Hnonneg Hdouble Hstake.
  destruct (stakeTokens_returned _ _ _ _ _ _ _ Hstake) as [Hbal Hmin].
  destruct (Hsigns (stakeMessage O node amount)) as [sg1 Hsg1].
  destruct (Hsigns (unstakeMessage O node amount)) as [sg2 Hsg2].
  destruct (stakeTokens_success O s k node amount pem sg1 Hbal Hmin Hkey Hsg1)
    as (r1 & s1 & Hrun1 & Hc1 & Hb1 & Hs1 & Ht1 & _).
  rewrite Hrun1 in Hstake. injection Hstake as _ <-.
  assert (Hst1 : stakeOf s1 node == add (stakeOf s node) amount).
  { rewrite (stakeOf_set_eq _ _ _ _ Hs1).
    now rewrite (add_comp _ _ _ _ (orElse_zero (stakeOf s node))
                   (Qeq_refl amount)). }
  assert (Hcheck : (amount <= stakeOf s1 node)%Q).
  { rewrite Hst1. rewrite <- (double_round53 amount Hdouble) at 1.
    apply nearest_mono. lra. }
  assert (Hkey1 : privateKey (config s1) = Some pem) by now rewrite Hc1.
  destruct (unstakeTokens_success O s1 (3 + k) node amount pem sg2
              Hcheck Hkey1 Hsg2)
    as (r2 & s2 & Hrun2 & _ & Hb2 & Hs2 & Ht2 & _).
  exists r2, s2, sg1, sg2. split; [exact Hrun2|].
  assert (Hlog : transactions s2
                 = lastN maxTransactions
                     (transactions s ++ [stakeTx O k node amount sg1;
                                         unstakeTx O (3 + k) node amount sg2])).
  { rewrite Ht2, Ht1, lastN_app_one, <- app_assoc. reflexivity. }
  assert (Hbalance : balanceOf s2 node
                     == add (sub (balanceOf s node) amount) amount).
  { rewrite (balanceOf_insert_eq _ _ _ _ Hb2).
    now rewrite (add_comp _ _ _ _ (balanceOf_insert_eq _ _ _ _ Hb1)
                   (Qeq_refl amount)). }
  assert (Hstaked : stakeOf s2 node
                    == sub (add (stakeOf s node) amount) amount).
  { rewrite (stakeOf_set_eq _ _ _ _ Hs2).
    now rewrite (sub_comp _ _ _ _ Hst1 (Qeq_refl amount)). }
  split; [|split; [|split; [|split; [|split; [|split]]]]].
  - intros n Hne. assert (Hne' : node <> n) by congruence. split.
    + rewrite (balanceOf_insert_ne _ _ _ _ _ Hb2 Hne').
      exact (balanceOf_insert_ne _ _ _ _ _ Hb1 Hne').
    + rewrite (stakeOf_set_ne _ _ _ _ _ Hs2 Hne').
      exact (stakeOf_set_ne _ _ _ _ _ Hs1 Hne').
  - exact Hbalance.
  - exact Hstaked.
  - intros Hd Hexact. rewrite Hbalance.
    transitivity (round53 (balanceOf s node)); [|exact (double_round53 _ Hd)].
    unfold add at 1, round53.
    rewrite (nearest_eq None _ (balanceOf s node)); [reflexivity|].
    rewrite Hexact. ring.
  - intros Hd Hexact. rewrite Hstaked.
    transitivity (round53 (stakeOf s node)); [|exact (double_round53 _ Hd)].
    unfold sub at 1, round53.
    rewrite (nearest_eq None _ (stakeOf s node)); [reflexivity|].
    rewrite Hexact. ring.
  - exact Hlog.
  - intros Hroom. rewrite Hlog. apply lastN_short.
    rewrite length_app. cbn [length]. lia.
Qed.

Lemma stake_then_unstake_witness :
  exists receipt w1,
    stakeTokens Demo.oracle "X" 5000 (mkWorld 0 Demo.ledger)
      = (Returned receipt, w1)
    /\ exists receipt' s2 sg1 sg2,
        unstakeTokens Demo.oracle "X" 5000 w1
          = (Returned receipt', mkWorld 6 s2)
        /\ (forall n, n <> "X"%string ->
              balanceOf s2 n = balanceOf Demo.ledger n
              /\ stakeOf s2 n = stakeOf Demo.ledger n)
        /\ balanceOf s2 "X" == add (sub (balanceOf Demo.ledger "X") 5000) 5000
        /\ stakeOf s2 "X" == sub (add (stakeOf Demo.ledger "X") 5000) 5000
        /\ (fl (balanceOf Demo.ledger "X") == balanceOf Demo.ledger "X" ->
            sub (balanceOf Demo.ledger "X") 5000
            == balanceOf Demo.ledger "X" - 5000 ->
            balanceOf s2 "X" == balanceOf Demo.ledger "X")
        /\ (fl (stakeOf Demo.ledger "X") == stakeOf Demo.ledger "X" ->
            add (stakeOf Demo.ledger "X") 5000
            == stakeOf Demo.ledger "X" + 5000 ->
            stakeOf s2 "X" == stakeOf Demo.ledger "X")
        /\ transactions s2
           = lastN maxTransactions
               (transactions Demo.ledger
                ++ [stakeTx Demo.oracle 0 "X" 5000 sg1;
                    unstakeTx Demo.oracle 3 "X" 5000 sg2])
        /\ ((length (transactions Demo.ledger) + 2 <= maxTransactions)%nat ->
            transactions s2
            = transactions Demo.ledger
              ++ [stakeTx Demo.oracle 0 "X" 5000 sg1;
                  unstakeTx Demo.oracle 3 "X" 5000 sg2]).
Proof.
  do 2 eexists. split.
  - vm_compute. reflexivity.
  - refine (stake_then_unstake Demo.oracle Demo.ledger 0 "X" 5000 _ _ _ _ _ _).
    + apply demo_signs. reflexivity.
    + vm_compute. intros H. discriminate H.
    + vm_compute. reflexivity.
    + vm_compute. reflexivity.
Defined.

(** C4, as the specification has it, fails.  Two bootstrap nodes share
    a supply of 20000, so that [X] holds 20000/3 as a double,
    6666.666666666667.  Staking 1234.56 and unstaking it right away
    both succeed and leave [X] with 6666.666666666666: the balance map is
    not what it was.  (The stake is back at zero.) *)
Lemma stake_then_unstake_drifts :
  exists r1 r2,
    fst (stakeTokens Demo.oracle "X" (lit (123456 # 100))
           (mkWorld 0 Demo.thirds)) = Returned r1
    /\ fst (unstakeTokens Demo.oracle "X" (lit (123456 # 100))
              Demo.staked1234) = Returned r2
    /\ balanceOf Demo.thirds "X" == lit (6666666666666667 # 1000000000000)
    /\ balanceOf (self Demo.unstaked1234) "X"
       == lit (6666666666666666 # 1000000000000)
    /\ ~ balanceOf (self Demo.unstaked1234) "X" == balanceOf Demo.thirds "X"
    /\ stakeOf (self Demo.unstaked1234) "X" == stakeOf Demo.thirds "X".
Proof.
  do 2 eexists. split; [vm_compute; reflexivity|].
  split; [vm_compute; reflexivity|].
  repeat split; vm_compute; intros H; discriminate H.
Qed.
End LedgerFacts.

(** ** Signatures on logged transactions *)

Module SignatureFacts.
Import JS JSFacts JSMapFacts Incentive LedgerSpec LedgerFacts.

Lemma length_append (a b : string) :
  String.length (a +:+ b) = (String.length a + String.length b)%nat.
Proof. induction a as [|c a IH]; simpl; [reflexivity | now rewrite IH]. Qed.

Lemma append_inj_r (a b c : string) : a +:+ c = b +:+ c -> a = b.
Proof.
  revert b. induction a as [|x a IH]; intros [|y b] H; simpl in H.
  - reflexivity.
  - apply (f_equal String.length) in H.
    rewrite !length_append in H. simpl in H. rewrite ?length_append in H. lia.
  - apply (f_equal String.length) in H.
    rewrite !length_append in H. simpl in H. rewrite ?length_append in H. lia.
  - injection H as -> H. f_equal. now apply IH.
Qed.

Lemma stake_message_differs (O : Oracle) k node amount sg :
  stakeMessage O node amount <> canonicalMessage O (stakeTx O k node amount sg).
Proof.
  unfold stakeMessage, canonicalMessage. cbn [stakeTx tx_from tx_to tx_amount tx_type].
  intros H. apply (f_equal String.length) in H.
  rewrite !length_append in H. simpl in H. lia.
Qed.

Lemma unstake_message_differs (O : Oracle) k node amount sg :
  unstakeMessage O node amount
  <> canonicalMessage O (unstakeTx O k node amount sg).
Proof.
  unfold unstakeMessage, canonicalMessage.
  cbn [unstakeTx tx_from tx_to tx_amount tx_type].
  intros H. apply (f_equal String.length) in H.
  rewrite !length_append in H. simpl in H. lia.
Qed.

Lemma reward_message_differs (O : Oracle) k reward sg :
  rewardMessage O (r_nodeId reward) (r_amount reward)
  <> canonicalMessage O (rewardTx O k reward sg).
Proof.
  unfold rewardMessage, canonicalMessage.
  cbn [rewardTx tx_from tx_to tx_amount tx_type].
  intros H. apply (f_equal String.length) in H.
  rewrite !length_append in H. simpl in H. lia.
Qed.

(** A transaction whose signature was made over another text than the
    one [validateTransaction] rebuilds is rejected. *)
Lemma validateTransaction_other_text (O : Oracle) s k tx sk pk data :
  privateKey (config s) = Some sk ->
  publicKey (config s) = Some pk ->
  unforgeable O sk pk ->
  rsaSign O data sk = inl (tx_signature tx) ->
  data <> canonicalMessage O tx ->
  validateTransaction O tx (mkWorld k s) = (Returned false, mkWorld k s).
Proof.
  intros Hsk Hpk Hunf Hsig Hne.
  unfold validateTransaction, tryCatch, bind, gets, verify. cbn [self reads].
  rewrite Hpk.
  destruct (rsaVerify O (canonicalMessage O tx) (tx_signature tx) pk)
    as [[|]|msg] eqn:Hv; try reflexivity.
  exfalso. apply Hne. exact (Hunf _ _ _ Hsig Hv).
Qed.

Lemma last_lastN_snoc {A} (n : nat) (l : list A) (x : A) :
  (1 <= n)%nat -> last (lastN n (l ++ [x])) = Some x.
Proof.
  intros Hn. unfold lastN. rewrite length_app, skipn_app. cbn [length].
  replace (length l + 1 - n - length l)%nat with 0%nat by lia.
  cbn [skipn]. apply last_snoc.
Qed.

Lemma maxTransactions_pos : (1 <= maxTransactions)%nat.
Proof. unfold maxTransactions. lia. Qed.

(** C5, at the stake path.  With a signature scheme in which a
    signature verifies for the signed text only, the transaction that a
    successful [stakeTokens] appends is rejected by
    [validateTransaction]: it was signed over [node:amount:stake], and
    validation rebuilds [node:stake_pool:amount:stake]. *)
Theorem stake_transaction_fails_validation
    (O : Oracle) (s : IncentiveSystem) (k : nat) (node : string)
    (amount : Q) (receipt : StakeReceipt) (w1 : World IncentiveSystem)
    (sk pk : string) :
  privateKey (config s) = Some sk ->
  publicKey (config s) = Some pk ->
  unforgeable O sk pk ->
  stakeTokens O node amount (mkWorld k s) = (Returned receipt, w1) ->
  exists tx,
    last (transactions (self w1)) = Some tx
    /\ tx_type tx = "stake"%string /\ tx_from tx = node
    /\ rsaSign O (stakeMessage O node amount) sk = inl (tx_signature tx)
    /\ validateTransaction O tx w1 = (Returned false, w1).
Proof.
  intros Hsk Hpk Hunf Hstake.
  destruct (stakeTokens_returned _ _ _ _ _ _ _ Hstake) as [Hbal Hmin].
  destruct (rsaSign O (stakeMessage O node amount) sk) as [sg|msg] eqn:Hsg.
  - destruct (stakeTokens_success O s k node amount sk sg Hbal Hmin Hsk Hsg)
      as (r1 & s1 & Hrun & Hc & _ & _ & Ht & _).
    rewrite Hrun in Hstake. injection Hstake as _ <-. cbn [self].
    exists (stakeTx O k node amount sg). rewrite Ht.
    split; [apply last_lastN_snoc, maxTransactions_pos|].
    repeat split.
    apply (validateTransaction_other_text O s1 _ _ sk pk
             (stakeMessage O node amount)).
    + now rewrite Hc.
    + now rewrite Hc.
    + exact Hunf.
    + exact Hsg.
    + apply stake_message_differs.
  - exfalso. revert Hstake. apply ltb_false in Hbal, Hmin.
    unfold stakeTokens, tryCatch, bind, getBalance, getStake, gets.
    cbn [self reads]. rewrite Hbal, Hmin.
    unfold modify, now, sign. cbn [self reads with_balances with_stakes config].
    rewrite Hsk. fold (stakeMessage O node amount). rewrite Hsg.
    discriminate.
Qed.

Lemma demo_unforgeable : unforgeable Demo.oracle "PRIVATE" "PUBLIC".
Proof.
  intros data data' sg Hs Hv. cbn in Hs, Hv.
  injection Hs as <-. injection Hv as Hv.
  apply String.eqb_eq in Hv.
  change (data +:+ ">" = data' +:+ ">") in Hv.
  now apply append_inj_r in Hv.
Qed.

Lemma stake_transaction_fails_validation_witness :
  exists receipt w1,
    stakeTokens Demo.oracle "X" 5000 (mkWorld 0 Demo.ledger)
      = (Returned receipt, w1)
    /\ exists tx,
        last (transactions (self w1)) = Some tx
        /\ tx_type tx = "stake"%string /\ tx_from tx = "X"%string
        /\ rsaSign Demo.oracle (stakeMessage Demo.oracle "X" 5000) "PRIVATE"
           = inl (tx_signature tx)
        /\ validateTransaction Demo.oracle tx w1 = (Returned false, w1).
Proof.
  do 2 eexists. split.
  - vm_compute. reflexivity.
  - refine (stake_transaction_fails_validation Demo.oracle Demo.ledger 0 "X"
              5000 _ _ "PRIVATE" "PUBLIC" _ _ _ _).
    + reflexivity.
    + reflexivity.
    + exact demo_unforgeable.
    + vm_compute. reflexivity.
Defined.

(** The same on the toy scheme, by running the code: the transaction
    that staking 5000 from [X] logs carries the signature of
    [X:5000:stake]; validating it compares against
    [X:stake_pool:5000:stake] and answers [false]. *)
Example stake_then_validate :
  let w1 := Demo.after (stakeTokens Demo.oracle "X" 5000) Demo.fresh in
  match last (transactions (self w1)) with
  | Some tx =>
      tx_signature tx = "<X:5000:stake>"%string
      /\ canonicalMessage Demo.oracle tx = "X:stake_pool:5000:stake"%string
      /\ fst (validateTransaction Demo.oracle tx w1) = Returned false
  | None => False
  end.
Proof. vm_compute. repeat split. Qed.
End SignatureFacts.

(** ** Reward distribution *)

Module DistributionFacts.
Import JS JSFacts JSMapFacts Incentive LedgerSpec LedgerFacts.

Lemma same_accounting_refl s : same_accounting s s.
Proof. repeat split. Qed.

Lemma same_accounting_trans s1 s2 s3 :
  same_accounting s1 s2 -> same_accounting s2 s3 -> same_accounting s1 s3.
Proof.
  unfold same_accounting. intros (?&?&?&?&?) (?&?&?&?&?).
  repeat split; congruence.
Qed.

(** Paying one reward returns when the key signs, and touches neither
    the configuration, the stakes nor the accounting maps. *)
Lemma distributeReward_run (O : Oracle) reward k s :
  signs O s ->
  exists k' s',
    distributeReward O reward (mkWorld k s) = (Returned tt, mkWorld k' s')
    /\ same_accounting s s'.
Proof.
  intros (pem & Hkey & Hsigns).
  unfold distributeReward, tryCatch, bind, getBalance, gets. cbn [self reads].
  destruct (ltb (balanceOf s "reward_pool") (r_amount reward)) eqn:Hpool.
  - unfold ret. do 2 eexists. split; [reflexivity|]. apply same_accounting_refl.
  - unfold modify, now, sign. cbn [self reads with_balances config].
    rewrite Hkey.
    match goal with
    | |- context [ rsaSign O ?m pem ] => destruct (Hsigns m) as [sg ->]
    end.
    unfold ret at 1. run_recordTransaction Hrun.
    unfold emit, modify, ret. cbn [self reads].
    do 2 eexists. split; [reflexivity|].
    unfold same_accounting. fields. repeat split; assumption.
Qed.

Lemma signs_same_accounting O s s' :
  same_accounting s s' -> signs O s -> signs O s'.
Proof.
  intros (Hc & _) (pem & Hkey & Hs). exists pem. split; [|exact Hs].
  now rewrite Hc.
Qed.

(** The second loop of [distributeRewards]. *)
Lemma payout_run (O : Oracle) rewards : forall k s,
  signs O s ->
  exists k' s',
    forEach rewards
      (fun reward =>
         if gtb (r_amount reward) 0 then distributeReward O reward else ret tt)
      (mkWorld k s)
    = (Returned tt, mkWorld k' s')
    /\ same_accounting s s'.
Proof.
  induction rewards as [|r rs IH]; intros k s Hsigns; cbn [forEach].
  - unfold ret. do 2 eexists. split; [reflexivity|]. apply same_accounting_refl.
  - unfold bind at 1. destruct (gtb (r_amount r) 0).
    + destruct (distributeReward_run O r k s Hsigns) as (k1 & s1 & -> & Hacc).
      destruct (IH k1 s1 (signs_same_accounting _ _ _ Hacc Hsigns))
        as (k2 & s2 & -> & Hacc2).
      do 2 eexists. split; [reflexivity|].
      exact (same_accounting_trans _ _ _ Hacc Hacc2).
    + unfold ret at 1. apply IH, Hsigns.
Qed.

(** [calculateRewards] reads the accounting only, and writes nothing. *)
Lemma calculateRewards_accounting (O : Oracle) node period k s k' s' :
  same_accounting s s' ->
  match calculateRewards O node period (mkWorld k s) with
  | (Returned r, w) =>
      w = mkWorld (S k) s
      /\ exists r',
          calculateRewards O node period (mkWorld k' s')
            = (Returned r', mkWorld (S k') s')
          /\ untimed r' = untimed r
  | (Thrown e, w) =>
      w = mkWorld k s
      /\ calculateRewards O node period (mkWorld k' s')
         = (Thrown e, mkWorld k' s')
  end.
Proof.
  intros (Hc & Hs & Hp & Hb & Hn).
  unfold calculateRewards, tryCatch, bind, getStake, gets, stakeOf.
  cbn [self reads]. rewrite Hc, Hs, Hp, Hb, Hn.
  destruct (ltb _ (minStake (config s))).
  - unfold now, ret. cbn [self reads]. split; [reflexivity|].
    eexists. split; reflexivity.
  - destruct (halfPlusOneCapped _); cbn [Big_mul]; unfold throw, now, ret;
      cbn [self reads]; split; try reflexivity.
    eexists. split; reflexivity.
Qed.

(** The first loop of [distributeRewards]. *)
Lemma collectRewards_cons (O : Oracle) period node stake rest k s :
  collectRewards O period ((node, stake) :: rest) (mkWorld k s)
  = if geb stake (minStake (config s)) then
      match calculateRewards O node period (mkWorld k s) with
      | (Returned r, w) =>
          match collectRewards O period rest w with
          | (Returned more, w') => (Returned (r :: more), w')
          | (Thrown e, w') => (Thrown e, w')
          end
      | (Thrown e, w) => (Thrown e, w)
      end
    else collectRewards O period rest (mkWorld k s).
Proof.
  cbn [collectRewards]. unfold bind at 1, gets. cbn [self reads].
  destruct (geb stake (minStake (config s))); [|reflexivity].
  unfold bind at 1. destruct (calculateRewards _ _ _ _) as [[r|e] w];
    [|reflexivity].
  unfold bind. destruct (collectRewards _ _ _ _) as [[more|e] w'];
    reflexivity.
Qed.

Lemma collectRewards_accounting (O : Oracle) period entries s s' :
  same_accounting s s' ->
  forall k k',
  match collectRewards O period entries (mkWorld k s) with
  | (Returned rs, w) =>
      self w = s
      /\ exists rs' k'',
          collectRewards O period entries (mkWorld k' s')
            = (Returned rs', mkWorld k'' s')
          /\ map untimed rs' = map untimed rs
  | (Thrown e, w) =>
      self w = s
      /\ exists k'',
          collectRewards O period entries (mkWorld k' s')
            = (Thrown e, mkWorld k'' s')
  end.
Proof.
  intros Hacc. induction entries as [|[node stake] rest IH]; intros k k'.
  - cbn [collectRewards]. unfold ret. split; [reflexivity|].
    do 2 eexists. split; reflexivity.
  - rewrite !collectRewards_cons.
    replace (config s') with (config s) by (symmetry; apply Hacc).
    destruct (geb stake (minStake (config s))); [|apply IH].
    pose proof (calculateRewards_accounting O node period k s k' s' Hacc)
      as Hcalc.
    destruct (calculateRewards O node period (mkWorld k s)) as [[r|e] w].
    + destruct Hcalc as (-> & r' & -> & Hr).
      specialize (IH (S k) (S k')).
      destruct (collectRewards O period rest (mkWorld (S k) s)) as [[rs|e] w].
      * destruct IH as (Hw & rs' & k'' & -> & Hrs).
        split; [exact Hw|]. do 2 eexists. split; [reflexivity|].
        cbn [map]. now rewrite Hr, Hrs.
      * destruct IH as (Hw & k'' & ->). split; [exact Hw|].
        eexists. reflexivity.
    + destruct Hcalc as (-> & ->). split; [reflexivity|].
      eexists. reflexivity.
Qed.

Lemma cons_eq {A} (x y : A) (l l' : list A) :
  x :: l = y :: l' -> x = y /\ l = l'.
Proof. intros H. injection H as -> ->. split; reflexivity. Qed.

Lemma sum_amounts_untimed rs rs' :
  map untimed rs' = map untimed rs -> sum_amounts rs' = sum_amounts rs.
Proof.
  unfold sum_amounts. generalize 0%Q.
  revert rs'. induction rs as [|r rs IH]; intros [|r' rs'] q H;
    try discriminate; [reflexivity|].
  cbn [map] in H. apply cons_eq in H as [Hr H]. cbn [fold_left].
  replace (r_amount r') with (r_amount r)
    by exact (f_equal r_amount (eq_sym Hr)).
  now apply IH.
Qed.

Lemma map_untimed_fields rs rs' :
  map untimed rs' = map untimed rs ->
  map r_nodeId rs' = map r_nodeId rs /\ map r_amount rs' = map r_amount rs.
Proof.
  revert rs'. induction rs as [|r rs IH]; intros [|r' rs'] H;
    try discriminate; [split; reflexivity|].
  cbn [map] in H. apply cons_eq in H as [Hr H]. destruct (IH _ H) as [Hn Ha].
  cbn [map]. split.
  - f_equal; [exact (f_equal r_nodeId Hr) | exact Hn].
  - f_equal; [exact (f_equal r_amount Hr) | exact Ha].
Qed.

(** C3, as the code has it.  A distribution run leaves the bandwidth
    and session counters (and the stakes and performance records) as
    they were; a second run right after it, with the reward pool still
    positive, therefore computes the same reward for every eligible
    node and reports the same total as the first. *)
Theorem distributeRewards_twice (O : Oracle) (s : IncentiveSystem)
    (k : nat) (period : string) (d1 : Distribution)
    (w1 : World IncentiveSystem) :
  signs O s ->
  distributeRewards O period (mkWorld k s) = (Returned d1, w1) ->
  (0 < balanceOf (self w1) "reward_pool")%Q ->
  bandwidthProvided (self w1) = bandwidthProvided s
  /\ sessionsServed (self w1) = sessionsServed s
  /\ exists d2 w2,
      distributeRewards O period w1 = (Returned d2, w2)
      /\ map r_nodeId (d_rewards d2) = map r_nodeId (d_rewards d1)
      /\ map r_amount (d_rewards d2) = map r_amount (d_rewards d1)
      /\ d_totalDistributed d2 = d_totalDistributed d1.
Proof.
  intros Hsigns Hrun Hpool.
  unfold distributeRewards, tryCatch in Hrun.
  unfold bind at 1, getBalance, gets in Hrun. cbn [self reads] in Hrun.
  destruct (leb (balanceOf s "reward_pool") 0); [discriminate|].
  unfold bind at 1 2 in Hrun. cbn [self reads] in Hrun.
  destruct (collectRewards O period (stakes s) (mkWorld k s))
    as [[rs|e] [kc sc]] eqn:Hfirst; [|discriminate].
  pose proof (collectRewards_accounting O period (stakes s) s s
                (same_accounting_refl s) k k) as Hsame.
  rewrite Hfirst in Hsame. destruct Hsame as (Hsc & _).
  cbn [self] in Hsc. subst sc.
  unfold bind at 1 in Hrun.
  destruct (payout_run O rs kc s Hsigns) as (kp & sp & Hpay & Hacc).
  rewrite Hpay in Hrun.
  unfold bind, emit, modify, now, ret in Hrun. cbn [self reads] in Hrun.
  injection Hrun as <- <-. cbn [self d_rewards d_totalDistributed] in *.
  pose proof Hacc as (Hc & Hs & Hp & Hb & Hn).
  split; [exact Hb|]. split; [exact Hn|].
  match goal with
  | |- context [ distributeRewards O period (mkWorld ?k1 ?s1) ] =>
      set (s1' := s1) in *; set (k1' := k1)
  end.
  assert (Hacc1 : same_accounting s s1') by exact Hacc.
  apply leb_false in Hpool.
  unfold distributeRewards, tryCatch.
  unfold bind at 1, getBalance, gets. cbn [self reads]. rewrite Hpool.
  unfold bind at 1 2. cbn [self reads].
  replace (stakes s1') with (stakes s) by (symmetry; exact Hs).
  pose proof (collectRewards_accounting O period (stakes s) s s1' Hacc1 k k1')
    as Hsecond.
  rewrite Hfirst in Hsecond.
  destruct Hsecond as (_ & rs' & k2 & -> & Hrs).
  unfold bind at 1.
  destruct (payout_run O rs' k2 s1' (signs_same_accounting _ _ _ Hacc1 Hsigns))
    as (kp2 & sp2 & -> & _).
  unfold bind, emit, modify, now, ret. cbn [self reads].
  do 2 eexists. split; [reflexivity|]. cbn [d_rewards d_totalDistributed].
  destruct (map_untimed_fields _ _ Hrs) as [Hids Hamounts].
  repeat split; [exact Hids | exact Hamounts |].
  now apply sum_amounts_untimed.
Qed.

Lemma distributeRewards_twice_witness :
  exists d1 w1,
    distributeRewards Demo.oracle "daily"
      (mkWorld (reads Demo.measured) (self Demo.measured))
      = (Returned d1, w1)
    /\ bandwidthProvided (self w1) = bandwidthProvided (self Demo.measured)
    /\ sessionsServed (self w1) = sessionsServed (self Demo.measured)
    /\ exists d2 w2,
        distributeRewards Demo.oracle "daily" w1 = (Returned d2, w2)
        /\ map r_nodeId (d_rewards d2) = map r_nodeId (d_rewards d1)
        /\ map r_amount (d_rewards d2) = map r_amount (d_rewards d1)
        /\ d_totalDistributed d2 = d_totalDistributed d1.
Proof.
  do 2 eexists. split.
  - vm_compute. reflexivity.
  - refine (distributeRewards_twice Demo.oracle (self Demo.measured)
              (reads Demo.measured) "daily" _ _ _ _ _).
    + apply demo_signs. vm_compute. reflexivity.
    + vm_compute. reflexivity.
    + vm_compute. reflexivity.
Defined.

(** C3, as the specification has it, fails: in the scenario of the
    specification the first run credits 95 to [X] and the second run,
    with nothing recorded in between, credits 95 again. *)
Lemma second_distribution_pays_again :
  balanceOf (self Demo.measured) "X" == 5000
  /\ balanceOf (self Demo.paidOnce) "X" == 5095
  /\ balanceOf (self Demo.paidTwice) "X" == 5190
  /\ balanceOf (self Demo.paidOnce) "reward_pool" == 9905
  /\ balanceOf (self Demo.paidTwice) "reward_pool" == 9810
  /\ length (transactions (self Demo.paidOnce)) = 2%nat
  /\ length (transactions (self Demo.paidTwice)) = 3%nat
  /\ ~ balanceOf (self Demo.paidTwice) "X"
       == balanceOf (self Demo.paidOnce) "X".
Proof.
  repeat split; try (vm_compute; reflexivity).
  vm_compute. discriminate.
Qed.
End DistributionFacts.

(** ** The balanced path *)

Module OptimizerFacts.
Import JS JSFacts JSMapFacts Router RouterSpec.
Local Open Scope Q_scope.

Section SortDescending.
Context {A : Type} (score : A -> Q).

Lemma gtb_compare (x y : A) :
  gtb (descending score x y) 0 = true <-> (score x < score y)%Q.
Proof. unfold descending. apply gtb_sub. Qed.

(** The head of a list sorted by descending score is the first element
    of the list that no element beats. *)
Lemma sort_descending_head (l : list A) :
  l <> [] ->
  exists before best after rest,
    l = before ++ best :: after
    /\ Sorting.sort (descending score) l = best :: rest
    /\ (forall x, In x before -> (score x < score best)%Q)
    /\ (forall x, In x after -> (score x <= score best)%Q).
Proof.
  induction l as [|x l IH]; [congruence|]. intros _.
  destruct l as [|y l].
  - exists [], x, [], []. repeat split; simpl; tauto.
  - destruct IH as (before & best & after & rest & Hl & Hs & Hb & Ha);
      [congruence|].
    change (Sorting.sort (descending score) (x :: y :: l))
      with (Sorting.insert (descending score) x (Sorting.sort (descending score) (y :: l))).
    rewrite Hs. cbn [Sorting.insert].
    destruct (gtb (descending score x best) 0) eqn:Hcmp.
    + apply gtb_compare in Hcmp.
      exists (x :: before), best, after, (Sorting.insert (descending score) x rest).
      rewrite Hl. repeat split; [|exact Ha].
      intros z [<-|Hz]; [exact Hcmp | now apply Hb].
    + assert (Hle : (score best <= score x)%Q).
      { apply Qnot_lt_le. intros Hlt. apply gtb_compare in Hlt. congruence. }
      exists [], x, (y :: l), (best :: rest).
      repeat split; [simpl; tauto|].
      intros z Hz. rewrite Hl in Hz. apply in_app_or in Hz as [Hz|[<-|Hz]].
      * apply Qlt_le_weak. eapply Qlt_le_trans; [now apply Hb | exact Hle].
      * exact Hle.
      * eapply Qle_trans; [now apply Ha | exact Hle].
Qed.
End SortDescending.

(** C6, as the code has it.  For a non-empty list of candidates the
    balanced algorithm scores each peer as
    [0.4*(download/100) + 0.3*(1 - latency/1000) + 0.2*(reputation/100)
     + 0.1*(uptime/100)], evaluated in doubles, every operation rounded
    and neither term capped, and returns the single-hop path through
    the first peer of the candidate list whose computed score no other
    peer exceeds: the peers before it score strictly less, the peers
    after it at most as much. *)
Theorem findBalancedPath_first_best
    (candidates : list NetworkNode) (w : World TrafficRouter) :
  candidates <> [] ->
  exists before best after,
    candidates = before ++ best :: after
    /\ findBalancedPath candidates w = (Returned (pathThrough best), w)
    /\ path_nodes (pathThrough best) = [id best]
    /\ (forall n, In n before -> (totalScore n < totalScore best)%Q)
    /\ (forall n, In n after -> (totalScore n <= totalScore best)%Q).
Proof.
  intros Hne.
  set (scored := map (fun node => (node, totalScore node)) candidates).
  assert (Hscored : scored <> []).
  { destruct candidates; [congruence | discriminate]. }
  destruct (sort_descending_head (A := NetworkNode * Q) snd scored Hscored)
    as (before' & [best sc] & after' & rest & Hl & Hs & Hb & Ha).
  unfold scored in Hl.
  apply map_eq_app in Hl as (before & tail & Hc & Hbefore & Htail).
  apply map_eq_cons in Htail as (best0 & after & Htl & Hbest & Hafter).
  injection Hbest as -> <-. subst tail.
  exists before, best, after. split; [exact Hc|].
  split.
  { unfold findBalancedPath, scoredNodes. fold scored.
    change (Sorting.sort (fun a b => sub (snd b) (snd a)) scored)
      with (Sorting.sort (descending snd) scored).
    now rewrite Hs. }
  split; [reflexivity|].
  split.
  - intros n Hn.
    pose proof (Hb (n, totalScore n)) as H. cbn [snd] in H. apply H.
    rewrite <- Hbefore.
    exact (in_map (fun node => (node, totalScore node)) _ _ Hn).
  - intros n Hn.
    pose proof (Ha (n, totalScore n)) as H. cbn [snd] in H. apply H.
    rewrite <- Hafter.
    exact (in_map (fun node => (node, totalScore node)) _ _ Hn).
Qed.

Lemma findBalancedPath_first_best_witness :
  exists before best after,
    [DemoRouter.node1; DemoRouter.node2; DemoRouter.node3]
      = before ++ best :: after
    /\ findBalancedPath [DemoRouter.node1; DemoRouter.node2; DemoRouter.node3]
         (DemoRouter.router [])
       = (Returned (pathThrough best), DemoRouter.router [])
    /\ path_nodes (pathThrough best) = [id best]
    /\ (forall n, In n before -> (totalScore n < totalScore best)%Q)
    /\ (forall n, In n after -> (totalScore n <= totalScore best)%Q).
Proof.
  refine (findBalancedPath_first_best
            [DemoRouter.node1; DemoRouter.node2; DemoRouter.node3]
            (DemoRouter.router []) _).
  discriminate.
Defined.

(** The routing scenario of the specification: of the three peers the
    third wins. *)
Example balanced_scenario :
  fst (findBalancedPath [DemoRouter.node1; DemoRouter.node2; DemoRouter.node3]
         (DemoRouter.router []))
  = Returned (pathThrough DemoRouter.node3).
Proof. vm_compute. reflexivity. Qed.

(** C6, as the specification has it, fails twice.  Two peers with equal
    scores: the code returns the one that comes first in the list,
    [b], not the one with the lower identifier, [a].  A peer with
    bandwidth 300 and latency 1000 against one with bandwidth 100 and
    perfect figures: with the caps the second scores higher, and the
    code returns the first. *)
Lemma balanced_ignores_caps_and_ids :
  (fst (findBalancedPath [DemoRouter.twinB; DemoRouter.twinA]
          (DemoRouter.router []))
   = Returned (pathThrough DemoRouter.twinB)
   /\ cappedScore DemoRouter.twinA == cappedScore DemoRouter.twinB
   /\ String.ltb (id DemoRouter.twinA) (id DemoRouter.twinB) = true)
  /\ (fst (findBalancedPath [DemoRouter.round; DemoRouter.wide]
             (DemoRouter.router []))
      = Returned (pathThrough DemoRouter.wide)
      /\ (cappedScore DemoRouter.wide < cappedScore DemoRouter.round)%Q).
Proof. repeat split; vm_compute; reflexivity. Qed.

(** A tie over the rationals need not be a tie in doubles.  Both peers
    score 0.435 exactly; the code computes 0.435 for the first and
    0.43500000000000005 for the second, and returns the second. *)
Example balanced_breaks_exact_tie :
  uncappedScore DemoRouter.steady == uncappedScore DemoRouter.quick
  /\ totalScore DemoRouter.steady == lit (435 # 1000)
  /\ totalScore DemoRouter.quick == lit (43500000000000005 # 100000000000000000)
  /\ (totalScore DemoRouter.steady < totalScore DemoRouter.quick)%Q
  /\ fst (findBalancedPath [DemoRouter.steady; DemoRouter.quick]
            (DemoRouter.router []))
     = Returned (pathThrough DemoRouter.quick).
Proof. repeat split; vm_compute; reflexivity. Qed.
End OptimizerFacts.

(** ** Sessions and peer disconnection *)

Module RouterFacts.
Import JS JSFacts JSMapFacts Router RouterSpec.
Local Open Scope Z_scope.

Ltac fields :=
  cbn [discoveredNodes activeRoutes clientSessions routeCache routeTimeout
       maxCacheSize emitted with_activeRoutes with_clientSessions
       with_routeCache self reads] in *.

Lemma includes_In (x : string) (l : list string) :
  includes x l = true <-> In x l.
Proof.
  unfold includes. rewrite existsb_exists. split.
  - intros (y & Hy & Heq). apply String.eqb_eq in Heq. now subst.
  - intros H. exists x. split; [exact H | apply String.eqb_refl].
Qed.

Lemma includes_not_In (x : string) (l : list string) :
  includes x l = false <-> ~ In x l.
Proof.
  rewrite <- includes_In. destruct (includes x l); split; congruence.
Qed.

(** [cleanupRoute] drops at most the route it is asked about. *)
Lemma cleanupRoute_run (O : Oracle) rid k s :
  exists k' s' evs,
    cleanupRoute O rid (mkWorld k s) = (Returned tt, mkWorld k' s')
    /\ clientSessions s' = clientSessions s
    /\ routeCache s' = routeCache s
    /\ discoveredNodes s' = discoveredNodes s
    /\ maxCacheSize s' = maxCacheSize s
    /\ routeTimeout s' = routeTimeout s
    /\ (forall r0 r, In (r0, r) (activeRoutes s') -> In (r0, r) (activeRoutes s))
    /\ emitted s' = emitted s ++ evs.
Proof.
  unfold cleanupRoute, bind, gets. cbn [self reads].
  destruct (JSMap.get rid (activeRoutes s)) as [r|].
  - unfold now. cbn [self reads].
    destruct (expiresAt r <? clock O k)%Z.
    + unfold emit, modify, ret. cbn [self reads].
      do 3 eexists. split; [reflexivity|]. fields.
      repeat split; try reflexivity.
      intros r0 r1 Hin. now apply In_delete in Hin.
    + unfold ret. exists (S k), s, []. rewrite app_nil_r. repeat split; auto.
  - unfold ret. exists k, s, []. rewrite app_nil_r. repeat split; auto.
Qed.

(** [closeSession] never throws; it removes the session, may drop the
    session's route, and tells the listeners. *)
Lemma closeSession_run (O : Oracle) sid k s :
  exists k' s' evs,
    closeSession O sid (mkWorld k s) = (Returned tt, mkWorld k' s')
    /\ clientSessions s' = JSMap.delete sid (clientSessions s)
    /\ routeCache s' = routeCache s
    /\ discoveredNodes s' = discoveredNodes s
    /\ maxCacheSize s' = maxCacheSize s
    /\ routeTimeout s' = routeTimeout s
    /\ (forall r0 r, In (r0, r) (activeRoutes s') -> In (r0, r) (activeRoutes s))
    /\ emitted s' = emitted s ++ evs
    /\ (forall c, JSMap.get sid (clientSessions s) = Some c ->
                  In (SessionClosed (closed c)) evs).
Proof.
  unfold closeSession. unfold bind at 1, gets. cbn [self reads].
  destruct (JSMap.get sid (clientSessions s)) as [c|] eqn:Hget.
  - unfold bind at 1, modify. cbn [self reads]. unfold bind at 1.
    destruct (cleanupRoute_run O (route_id (route c)) k
                (with_clientSessions (JSMap.delete sid) s))
      as (k1 & s1 & evs & -> & Hcs & Hrc & Hd & Hm & Ht & Hsub & Hev).
    unfold emit, modify. cbn [self reads]. fields.
    do 3 eexists. split; [reflexivity|]. fields.
    rewrite Hev, <- app_assoc.
    repeat split; try assumption; try reflexivity.
    intros c' [= <-]. apply in_or_app. right. now left.
  - unfold ret. exists k, s, []. rewrite app_nil_r.
    rewrite (get_None_delete _ _ Hget). repeat split; auto. discriminate.
Qed.

(** C10. Closing a session id that is not in the session table returns
    without an error and changes nothing, neither the session table nor
    the route table; and since closing removes the id from the table,
    closing an id a second time is such a call. *)
Theorem closeSession_unknown (O : Oracle) (sid : string) (k : nat)
    (s : TrafficRouter) :
  (JSMap.get sid (clientSessions s) = None ->
   closeSession O sid (mkWorld k s) = (Returned tt, mkWorld k s))
  /\ exists w',
       closeSession O sid (mkWorld k s) = (Returned tt, w')
       /\ JSMap.get sid (clientSessions (self w')) = None
       /\ closeSession O sid w' = (Returned tt, w').
Proof.
  assert (Hnone : forall k0 s0, JSMap.get sid (clientSessions s0) = None ->
            closeSession O sid (mkWorld k0 s0) = (Returned tt, mkWorld k0 s0)).
  { intros k0 s0 H. unfold closeSession, bind, gets. cbn [self reads].
    now rewrite H. }
  split; [apply Hnone|].
  destruct (closeSession_run O sid k s) as (k' & s' & evs & Hrun & Hcs & _).
  exists (mkWorld k' s'). split; [exact Hrun|]. cbn [self].
  assert (Hgone : JSMap.get sid (clientSessions s') = None).
  { rewrite Hcs. apply get_delete_eq. }
  split; [exact Hgone | now apply Hnone].
Qed.

Lemma closeSession_unknown_witness :
  closeSession Demo.oracle "no-such-session" (mkWorld 0 (create []))
  = (Returned tt, mkWorld 0 (create [])).
Proof.
  refine (proj1 (closeSession_unknown Demo.oracle "no-such-session" 0
                   (create [])) _).
  reflexivity.
Defined.

(** The first loop of [handlePeerDisconnection]. *)
Lemma removeRoutes_run (ids : list string) : forall k s,
  exists s' evs,
    forEach ids
      (fun routeId =>
         modify (with_activeRoutes (JSMap.delete routeId)) ;;
         emit (RouteRemoved routeId "peer_disconnected"))
      (mkWorld k s)
    = (Returned tt, mkWorld k s')
    /\ clientSessions s' = clientSessions s
    /\ routeCache s' = routeCache s
    /\ (forall rid r, In (rid, r) (activeRoutes s') <->
                      In (rid, r) (activeRoutes s) /\ ~ In rid ids)
    /\ emitted s' = emitted s ++ evs
    /\ (forall rid, In rid ids -> In (RouteRemoved rid "peer_disconnected") evs).
Proof.
  set (body := fun routeId : string =>
         modify (with_activeRoutes (JSMap.delete routeId)) ;;
         emit (RouteRemoved routeId "peer_disconnected")).
  induction ids as [|rid ids IH]; intros k s; cbn [forEach].
  - unfold ret. exists s, []. rewrite app_nil_r.
    repeat split; tauto.
  - unfold bind at 1.
    assert (Hstep : body rid (mkWorld k s)
              = (Returned tt,
                 mkWorld k
                   {| discoveredNodes := discoveredNodes s;
                      activeRoutes := JSMap.delete rid (activeRoutes s);
                      clientSessions := clientSessions s;
                      routeCache := routeCache s;
                      routeTimeout := routeTimeout s;
                      maxCacheSize := maxCacheSize s;
                      emitted := emitted s
                                 ++ [RouteRemoved rid "peer_disconnected"] |}))
      by reflexivity.
    rewrite Hstep.
    match goal with
    | |- context [ forEach ids body (mkWorld k ?s1) ] =>
        destruct (IH k s1) as (s' & evs & -> & Hcs & Hrc & Hin & Hev & Hevs)
    end.
    fields. do 2 eexists. split; [reflexivity|].
    split; [exact Hcs|]. split; [exact Hrc|]. split; [|split].
    + intros r0 r. rewrite Hin, In_delete. cbn [In]. intuition congruence.
    + rewrite Hev, <- app_assoc. reflexivity.
    + intros r0 [<-|H0]; [now left | right; now apply Hevs].
Qed.

Lemma hopsInclude_hops (x : string) (r : Route) (l : list string)
    (w : World TrafficRouter) :
  nodes r = Some l -> hopsInclude x r w = (Returned (includes x l), w).
Proof. unfold hopsInclude. now intros ->. Qed.

Lemma hopsInclude_fails (x : string) (r : Route) (w : World TrafficRouter) :
  nodes r = None -> hopsInclude x r w = (Thrown NoHops, w).
Proof. unfold hopsInclude. now intros ->. Qed.

(** Looking for the routes through a peer changes nothing. *)
Lemma keysThrough_state (x : string) (entries : list (string * Route))
    (w : World TrafficRouter) :
  snd (keysThrough x entries w) = w.
Proof.
  induction entries as [|[key r] rest IH]; cbn [keysThrough]; [reflexivity|].
  unfold bind at 1, hopsInclude.
  destruct (nodes r) as [l|]; [|reflexivity].
  unfold ret at 1. unfold bind at 1.
  destruct (keysThrough x rest w) as [[more|e] w'] eqn:E;
    cbn [snd] in IH; subst w'; reflexivity.
Qed.

(** When every route has a hop list, the routes through a peer are
    found. *)
Lemma keysThrough_hops (x : string) (entries : list (string * Route))
    (w : World TrafficRouter) :
  Forall (fun e => hasHops (snd e)) entries ->
  keysThrough x entries w
  = (Returned (map fst (List.filter (fun e => includes x (hops (snd e)))
                                    entries)), w).
Proof.
  induction 1 as [|[key r] rest Hr Hrest IH]; cbn [keysThrough]; [reflexivity|].
  unfold bind at 1, hopsInclude. unfold hasHops in Hr. cbn [snd] in Hr.
  cbn [List.filter snd]. unfold hops at 1.
  destruct (nodes r) as [l|]; [|congruence].
  unfold ret at 1. unfold bind at 1. rewrite IH. unfold ret.
  change (includes x (default [] (Some l))) with (includes x l).
  now destruct (includes x l).
Qed.

(** A route without hop list stops the search. *)
Lemma keysThrough_fails (x : string) (entries : list (string * Route))
    (w : World TrafficRouter) :
  ~ Forall (fun e => hasHops (snd e)) entries ->
  keysThrough x entries w = (Thrown NoHops, w).
Proof.
  induction entries as [|[key r] rest IH]; intros Hnot.
  - exfalso. apply Hnot. constructor.
  - cbn [keysThrough]. unfold bind at 1, hopsInclude.
    destruct (nodes r) as [l|] eqn:Hn; [|reflexivity].
    unfold ret at 1. unfold bind at 1. rewrite IH; [reflexivity|].
    intros Hall. apply Hnot. constructor; [|exact Hall].
    unfold hasHops. cbn [snd]. congruence.
Qed.

(** The second loop of [handlePeerDisconnection], every session being
    bound to a route with a hop list. *)
Lemma closeSessions_run (O : Oracle) (peer : string)
    (entries : list (string * ClientSession)) : forall k s,
  Forall (fun e => hasHops (route (snd e))) entries ->
  exists k' s' evs,
    forEach entries
      (fun e =>
         let* found := hopsInclude peer (route (snd e)) in
         if found then closeSession O (fst e) else ret tt)
      (mkWorld k s)
    = (Returned tt, mkWorld k' s')
    /\ routeCache s' = routeCache s
    /\ (forall rid r, In (rid, r) (activeRoutes s') -> In (rid, r) (activeRoutes s))
    /\ (forall sid c, In (sid, c) (clientSessions s') ->
                      In (sid, c) (clientSessions s))
    /\ (forall sid c, In (sid, c) entries ->
                      In peer (hops (route c)) ->
                      JSMap.get sid (clientSessions s') = None)
    /\ emitted s' = emitted s ++ evs
    /\ (forall sid c, In (sid, c) entries ->
                      In peer (hops (route c)) ->
                      JSMap.get sid (clientSessions s) = Some c ->
                      In (SessionClosed (closed c)) evs).
Proof.
  induction entries as [|[sid0 c0] entries IH]; intros k s Hall; cbn [forEach].
  - unfold ret. exists k, s, []. rewrite app_nil_r.
    repeat split; try tauto; intros ? ? [].
  - inversion Hall as [|? ? Hc0 Hall']; subst.
    unfold hasHops in Hc0. cbn [snd] in Hc0.
    unfold bind at 1. cbn [fst snd]. unfold bind at 1.
    destruct (nodes (route c0)) as [l0|] eqn:Hn0; [|congruence].
    rewrite (hopsInclude_hops peer (route c0) l0 _ Hn0).
    assert (Hhops0 : hops (route c0) = l0) by (unfold hops; now rewrite Hn0).
    destruct (includes peer l0) eqn:Hinc.
    + destruct (closeSession_run O sid0 k s)
        as (k1 & s1 & evs1 & -> & Hcs1 & Hrc1 & _ & _ & _ & Hsub1 & Hev1 & Hcl1).
      destruct (IH k1 s1 Hall')
        as (k2 & s2 & evs2 & -> & Hrc2 & Hsub2 & Hsess2 & Hgone2 & Hev2 & Hcl2).
      exists k2, s2, (evs1 ++ evs2). split; [reflexivity|].
      split; [congruence|]. split; [auto|].
      assert (Hsess : forall sid c, In (sid, c) (clientSessions s2) ->
                        sid <> sid0 /\ In (sid, c) (clientSessions s)).
      { intros sid c Hin. apply Hsess2 in Hin. rewrite Hcs1 in Hin.
        now apply In_delete in Hin. }
      split; [intros sid c Hin; now apply Hsess in Hin|].
      split; [|split].
      * intros sid c [[= <- <-]|Hin] Hc.
        -- apply get_None_iff. intros v Hv. apply Hsess in Hv. tauto.
        -- now apply (Hgone2 sid c).
      * rewrite Hev2, Hev1, <- app_assoc. reflexivity.
      * intros sid c Hin Hc Hget. apply in_or_app.
        destruct (String.eqb_spec sid0 sid) as [->|Hne].
        -- left. now apply Hcl1.
        -- right. destruct Hin as [[= -> _]|Hin]; [congruence|].
           apply (Hcl2 sid c Hin Hc). rewrite Hcs1.
           now rewrite get_delete_ne.
    + apply includes_not_In in Hinc. rewrite <- Hhops0 in Hinc.
      unfold ret at 1.
      destruct (IH k s Hall')
        as (k2 & s2 & evs2 & -> & Hrc2 & Hsub2 & Hsess2 & Hgone2 & Hev2 & Hcl2).
      exists k2, s2, evs2. split; [reflexivity|].
      repeat split; try assumption.
      * intros sid c [[= <- <-]|Hin] Hc; [contradiction | now apply (Hgone2 sid c)].
      * intros sid c [[= <- <-]|Hin] Hc; [contradiction | now apply (Hcl2 sid c)].
Qed.

Lemma Forall_entries {V} (P : V -> Prop) (m : JSMap.t V) :
  (forall key v, In (key, v) m -> P v) -> Forall (fun e => P (snd e)) m.
Proof.
  intros H. apply List.Forall_forall. intros [key v] Hin. exact (H key v Hin).
Qed.




End RouterFacts.

(** ** Route lookup *)

Module RouteFacts.
Import JS JSFacts JSMapFacts Router RouterSpec RouterFacts.

Section FindRoute.
Variable O : Oracle.
Variable stringify : RouteRequirements -> string.

(** A cached route that has not expired is returned as it is; nothing
    but the clock is touched. *)
Lemma findRoute_hit destination requirements k s cached :
  JSMap.get (generateCacheKey O stringify destination requirements)
            (routeCache s) = Some cached ->
  clock O k < expiresAt cached ->
  findRoute O stringify destination requirements (mkWorld k s)
  = (Returned cached, mkWorld (S k) s).
Proof.
  intros Hget Hfresh. apply Z.ltb_lt in Hfresh.
  unfold findRoute, tryCatch. unfold bind at 1, gets. cbn [self reads].
  rewrite Hget. unfold bind at 1, now. cbn [self reads].
  now rewrite Hfresh.
Qed.

(** C8, as the code has it.  With no available candidate and no
    unexpired cached route for the destination and requirements,
    [findRoute] fails with the route-not-found error inside the
    [ROUTE_FINDING_ERROR] wrapper; it creates no route, and the cache
    gains no entry (an expired entry for the key is dropped). *)
Theorem findRoute_no_candidates
    (destination : string) (requirements : RouteRequirements)
    (k : nat) (s : TrafficRouter) :
  List.filter (available requirements) (discoveredNodes s) = [] ->
  (forall cached,
      JSMap.get (generateCacheKey O stringify destination requirements)
                (routeCache s) = Some cached ->
      expiresAt cached <= clock O k) ->
  exists k' s',
    findRoute O stringify destination requirements (mkWorld k s)
      = (Thrown (RouteFindingError (RouteNotFoundError destination)),
         mkWorld k' s')
    /\ activeRoutes s' = activeRoutes s
    /\ clientSessions s' = clientSessions s
    /\ emitted s' = emitted s
    /\ routeCache s'
       = JSMap.delete (generateCacheKey O stringify destination requirements)
                      (routeCache s)
    /\ (JSMap.get (generateCacheKey O stringify destination requirements)
                  (routeCache s) = None -> routeCache s' = routeCache s).
Proof.
  intros Hnone Hstale.
  unfold findRoute, tryCatch. unfold bind at 1, gets. cbn [self reads].
  destruct (JSMap.get _ (routeCache s)) as [cached|] eqn:Hget.
  - unfold bind at 1, now. cbn [self reads].
    assert (Hexp : (clock O k <? expiresAt cached) = false).
    { apply Z.ltb_ge. now apply Hstale. }
    rewrite Hexp.
    unfold bind at 1, modify. cbn [self reads].
    unfold bind at 1, getAvailableNodes, gets. cbn [self reads]. fields.
    rewrite Hnone. unfold throw.
    do 2 eexists. split; [reflexivity|]. fields.
    repeat split. discriminate.
  - unfold bind at 1, getAvailableNodes, gets. cbn [self reads].
    rewrite Hnone. unfold throw.
    do 2 eexists. split; [reflexivity|].
    rewrite (get_None_delete _ _ Hget). repeat split.
Qed.
End FindRoute.

Lemma findRoute_no_candidates_witness :
  exists k' s',
    findRoute Demo.oracle DemoRouter.stringify "dest" DemoRouter.anyRoute
      (mkWorld 0 (create []))
      = (Thrown (RouteFindingError (RouteNotFoundError "dest")), mkWorld k' s')
    /\ activeRoutes s' = activeRoutes (create [])
    /\ clientSessions s' = clientSessions (create [])
    /\ emitted s' = emitted (create [])
    /\ routeCache s'
       = JSMap.delete
           (generateCacheKey Demo.oracle DemoRouter.stringify "dest"
              DemoRouter.anyRoute)
           (routeCache (create []))
    /\ (JSMap.get
          (generateCacheKey Demo.oracle DemoRouter.stringify "dest"
             DemoRouter.anyRoute)
          (routeCache (create [])) = None ->
        routeCache s' = routeCache (create [])).
Proof.
  refine (findRoute_no_candidates Demo.oracle DemoRouter.stringify "dest"
            DemoRouter.anyRoute 0 (create []) _ _).
  - reflexivity.
  - intros cached H. discriminate H.
Defined.

(** C8, as the specification has it, fails: the cache is looked up
    before the candidates.  A route through [node-1] is cached;
    [node-1] disconnects and no peer is left; the same lookup still
    returns the cached route through [node-1]. *)
Lemma findRoute_serves_cache_without_peers :
  List.filter (available DemoRouter.anyRoute)
              (discoveredNodes (self DemoRouter.deserted)) = []
  /\ activeRoutes (self DemoRouter.deserted) = []
  /\ exists r,
      fst (DemoRouter.find "dest" DemoRouter.deserted) = Returned r
      /\ nodes r = Some ["node-1"%string].
Proof.
  split; [vm_compute; reflexivity|]. split; [vm_compute; reflexivity|].
  eexists. split; vm_compute; reflexivity.
Qed.

(** ** The route cache *)

Lemma cacheRoute_run (key : string) (r : Route) k s :
  exists s',
    cacheRoute key r (mkWorld k s) = (Returned tt, mkWorld k s')
    /\ routeCache s'
       = JSMap.set key r
           (if (maxCacheSize s <=? JSMap.size (routeCache s))%nat
            then match JSMap.firstKey (routeCache s) with
                 | Some firstKey => JSMap.delete firstKey (routeCache s)
                 | None => routeCache s
                 end
            else routeCache s)
    /\ activeRoutes s' = activeRoutes s
    /\ clientSessions s' = clientSessions s
    /\ discoveredNodes s' = discoveredNodes s
    /\ maxCacheSize s' = maxCacheSize s
    /\ routeTimeout s' = routeTimeout s
    /\ emitted s' = emitted s.
Proof.
  unfold cacheRoute. unfold bind at 1 2 3, gets, modify. cbn [self reads].
  destruct (maxCacheSize s <=? JSMap.size (routeCache s))%nat.
  - destruct (JSMap.firstKey (routeCache s)); unfold modify, ret;
      cbn [self reads]; eexists; (split; [reflexivity|]); fields;
      repeat split; reflexivity.
  - unfold ret. cbn [self reads]. eexists. split; [reflexivity|]. fields.
    repeat split; reflexivity.
Qed.

(** The cache never grows past a limit of at least one. *)
Lemma cacheRoute_bound (key : string) (r : Route) k s s' k' :
  (1 <= maxCacheSize s)%nat ->
  (JSMap.size (routeCache s) <= maxCacheSize s)%nat ->
  cacheRoute key r (mkWorld k s) = (Returned tt, mkWorld k' s') ->
  (JSMap.size (routeCache s') <= maxCacheSize s)%nat.
Proof.
  intros Hpos Hsize Hrun.
  destruct (cacheRoute_run key r k s) as (s0 & Hrun0 & Hcache & _).
  rewrite Hrun0 in Hrun. injection Hrun as _ <-. rewrite Hcache.
  destruct (Nat.leb_spec (maxCacheSize s) (JSMap.size (routeCache s)))
    as [Hfull|Hroom].
  - destruct (routeCache s) as [|[k0 r0] rest] eqn:Hc.
    + unfold JSMap.size in Hfull. simpl in Hfull. lia.
    + cbn [JSMap.firstKey].
      pose proof (size_delete_first ((k0, r0) :: rest) k0 eq_refl) as Hdel.
      pose proof (size_set_le (JSMap.delete k0 ((k0, r0) :: rest)) key r).
      lia.
  - pose proof (size_set_le (routeCache s) key r). lia.
Qed.

(** C9, at the input where the code and the claim part.  With room for
    two routes: [d1] and [d2] are looked up and cached; [d1] is looked
    up again and served from the cache, so [d2] is now the least
    recently used; looking up [d3] evicts [d1], the oldest insertion,
    and keeps [d2]. *)
Theorem cache_evicts_oldest_insertion :
  JSMap.keys (routeCache (self DemoRouter.twoLookups))
    = ["d1:{}"; "d2:{}"]%string
  /\ (exists r,
        JSMap.get "d1:{}" (routeCache (self DemoRouter.twoLookups)) = Some r
        /\ fst (DemoRouter.find "d1" DemoRouter.twoLookups) = Returned r)
  /\ self DemoRouter.reused = self DemoRouter.twoLookups
  /\ JSMap.keys (routeCache (self DemoRouter.thirdKey))
     = ["d2:{}"; "d3:{}"]%string
  /\ JSMap.has "d1:{}" (routeCache (self DemoRouter.thirdKey)) = false.
Proof.
  split; [vm_compute; reflexivity|].
  split; [eexists; split; vm_compute; reflexivity|].
  repeat split; vm_compute; reflexivity.
Qed.

(** The cache scenario of the specification holds: after three distinct
    lookups with room for two, the first key is gone and a repeat of the
    second lookup is served from the cache. *)
Example cache_scenario :
  JSMap.keys (routeCache (self DemoRouter.threeLookups))
    = ["d2:{}"; "d3:{}"]%string
  /\ exists r,
       JSMap.get "d2:{}" (routeCache (self DemoRouter.threeLookups)) = Some r
       /\ DemoRouter.find "d2" DemoRouter.threeLookups
          = (Returned r, mkWorld (S (reads DemoRouter.threeLookups))
                           (self DemoRouter.threeLookups)).
Proof.
  split; [vm_compute; reflexivity|].
  eexists; split; vm_compute; reflexivity.
Qed.
End RouteFacts.

(** * Further properties of the ledger *)

Module LedgerExtras.
Import JS JSFacts JSMapFacts Incentive LedgerSpec LedgerFacts.
Local Open Scope Q_scope.

(** X1. [unstakeTokens] for more than the node has staked fails with the
    insufficient-stake error inside the [UNSTAKING_ERROR] wrapper and
    leaves the ledger as it was. *)
Theorem unstakeTokens_insufficient (O : Oracle) (s : IncentiveSystem)
    (k : nat) (node : string) (amount : Q) :
  (stakeOf s node < amount)%Q ->
  unstakeTokens O node amount (mkWorld k s)
  = (Thrown (UnstakingError InsufficientStake), mkWorld k s).
Proof.
  intros H. apply ltb_true in H.
  unfold unstakeTokens, tryCatch, bind, getStake, gets. cbn [self reads].
  now rewrite H.
Qed.

Lemma unstakeTokens_insufficient_witness :
  unstakeTokens Demo.oracle "X" 1 (mkWorld 0 Demo.ledger)
  = (Thrown (UnstakingError InsufficientStake), mkWorld 0 Demo.ledger).
Proof.
  refine (unstakeTokens_insufficient Demo.oracle Demo.ledger 0 "X" 1 _).
  vm_compute. reflexivity.
Defined.

(** X2. [unstakeTokens] for at most the node's stake, with a key that
    signs, adds the amount to the node's balance, takes it off the node's
    stake (each the rounded sum or difference of the two numbers),
    touches no other node and appends one unstake transaction from
    [stake_pool] to the node. *)
Theorem unstakeTokens_moves_stake (O : Oracle) (s : IncentiveSystem)
    (k : nat) (node : string) (amount : Q) :
  (amount <= stakeOf s node)%Q ->
  signs O s ->
  exists receipt s' signature,
    unstakeTokens O node amount (mkWorld k s)
      = (Returned receipt, mkWorld (3 + k) s')
    /\ sr_totalStake receipt == sub (stakeOf s node) amount
    /\ balanceOf s' node == add (balanceOf s node) amount
    /\ stakeOf s' node == sub (stakeOf s node) amount
    /\ (forall other, node <> other ->
          balanceOf s' other = balanceOf s other
          /\ stakeOf s' other = stakeOf s other)
    /\ transactions s'
       = lastN maxTransactions
           (transactions s ++ [unstakeTx O k node amount signature]).
Proof.
  intros Hstake (pem & Hkey & Hsigns).
  destruct (Hsigns (unstakeMessage O node amount)) as [sg Hsg].
  pose proof Hstake as Hcheck. apply ltb_false in Hcheck.
  assert (Hrun : exists receipt s',
    unstakeTokens O node amount (mkWorld k s)
      = (Returned receipt, mkWorld (3 + k) s')
    /\ sr_totalStake receipt = stakeOf s' node
    /\ balances s' = <[node := add (balanceOf s node) amount]> (balances s)
    /\ stakes s' = JSMap.set node (sub (stakeOf s node) amount) (stakes s)
    /\ transactions s'
       = lastN maxTransactions
           (transactions s ++ [unstakeTx O k node amount sg])).
  { unfold unstakeTokens, tryCatch, bind, getBalance, getStake, gets.
    cbn [self reads]. rewrite Hcheck.
    unfold modify, now, sign. cbn [self reads with_balances with_stakes config].
    rewrite Hkey. fold (unstakeMessage O node amount). rewrite Hsg.
    unfold ret at 1. run_recordTransaction Hrec.
    unfold emit, modify, ret. cbn [self reads].
    do 2 eexists. split; [reflexivity|]. cbn [sr_totalStake]. fields.
    unfold stakeOf at 1 2. fields.
    repeat split; assumption. }
  destruct Hrun as (receipt & s' & Hrun & Htotal & Hb & Hs & Ht).
  exists receipt, s', sg. split; [exact Hrun|].
  split; [rewrite Htotal; exact (stakeOf_set_eq _ _ _ _ Hs)|].
  split; [exact (balanceOf_insert_eq _ _ _ _ Hb)|].
  split; [exact (stakeOf_set_eq _ _ _ _ Hs)|].
  split; [|exact Ht].
  intros other Hne. split.
  - exact (balanceOf_insert_ne _ _ _ _ _ Hb Hne).
  - exact (stakeOf_set_ne _ _ _ _ _ Hs Hne).
Qed.

Lemma unstakeTokens_moves_stake_witness :
  exists receipt s' signature,
    unstakeTokens Demo.oracle "X" 2000
        (mkWorld (reads Demo.staked) (self Demo.staked))
      = (Returned receipt, mkWorld (3 + reads Demo.staked) s')
    /\ sr_totalStake receipt == sub (stakeOf (self Demo.staked) "X") 2000
    /\ balanceOf s' "X" == add (balanceOf (self Demo.staked) "X") 2000
    /\ stakeOf s' "X" == sub (stakeOf (self Demo.staked) "X") 2000
    /\ (forall other, "X"%string <> other ->
          balanceOf s' other = balanceOf (self Demo.staked) other
          /\ stakeOf s' other = stakeOf (self Demo.staked) other)
    /\ transactions s'
       = lastN maxTransactions
           (transactions (self Demo.staked)
            ++ [unstakeTx Demo.oracle (reads Demo.staked) "X" 2000 signature]).
Proof.
  refine (unstakeTokens_moves_stake Demo.oracle (self Demo.staked)
            (reads Demo.staked) "X" 2000 _ _).
  - vm_compute. intros H. discriminate H.
  - apply demo_signs. vm_compute. reflexivity.
Defined.

(** X3. [unstakeTokens] does not look at the sign of the amount.  With a
    negative amount [-a] and a stake that is not negative it succeeds,
    raises the stake by [a] and lowers the balance by [a] (each the
    rounded sum or difference), without the balance check or the
    minimum-stake check of [stakeTokens]. *)
Theorem unstakeTokens_negative_amount (O : Oracle) (s : IncentiveSystem)
    (k : nat) (node : string) (a : Q) :
  (0 < a)%Q ->
  (0 <= stakeOf s node)%Q ->
  signs O s ->
  exists receipt s',
    unstakeTokens O node (- a) (mkWorld k s)
      = (Returned receipt, mkWorld (3 + k) s')
    /\ stakeOf s' node == add (stakeOf s node) a
    /\ balanceOf s' node == sub (balanceOf s node) a.
Proof.
  intros Ha Hstake Hsigns.
  assert (Hcheck : (- a <= stakeOf s node)%Q).
  { apply Qle_trans with 0%Q; [|exact Hstake].
    apply Qlt_le_weak. rewrite <- (Qopp_opp 0) . apply Qopp_lt_compat.
    exact Ha. }
  destruct Hsigns as (pem & Hkey & Hsigns).
  destruct (Hsigns (unstakeMessage O node (- a))) as [sg Hsg].
  destruct (unstakeTokens_success O s k node (- a) pem sg Hcheck Hkey Hsg)
    as (receipt & s' & Hrun & _ & Hb & Hs & _).
  exists receipt, s'. split; [exact Hrun|]. split.
  - rewrite (stakeOf_set_eq _ _ _ _ Hs). unfold sub, add, round53.
    rewrite (nearest_eq None (stakeOf s node - - a) (stakeOf s node + a));
      [reflexivity | ring].
  - rewrite (balanceOf_insert_eq _ _ _ _ Hb). unfold sub, add, round53.
    rewrite (nearest_eq None (balanceOf s node + - a) (balanceOf s node - a));
      [reflexivity | ring].
Qed.

Lemma unstakeTokens_negative_amount_witness :
  exists receipt s',
    unstakeTokens Demo.oracle "X" (- 20000) (mkWorld 0 Demo.ledger)
      = (Returned receipt, mkWorld 3 s')
    /\ stakeOf s' "X" == add (stakeOf Demo.ledger "X") 20000
    /\ balanceOf s' "X" == sub (balanceOf Demo.ledger "X") 20000.
Proof.
  refine (unstakeTokens_negative_amount Demo.oracle Demo.ledger 0 "X" 20000
            _ _ _).
  - vm_compute. reflexivity.
  - vm_compute. intros H. discriminate H.
  - apply demo_signs. reflexivity.
Defined.

(** X4. [stakeTokens] writes the balance and the stake before it signs.
    When both checks pass and node-forge rejects the coordinator's key,
    the call throws the signing error inside the [STAKING_ERROR] wrapper,
    logs no transaction, and the amount has moved from the balance to the
    stake all the same (the balance is the rounded difference, the stake
    the rounded sum). *)
Theorem stakeTokens_unsigned_still_moves (O : Oracle) (s : IncentiveSystem)
    (k : nat) (node : string) (amount : Q) (pem msg : string) :
  (amount <= balanceOf s node)%Q ->
  (minStake (config s) <= amount)%Q ->
  privateKey (config s) = Some pem ->
  rsaSign O (stakeMessage O node amount) pem = inr msg ->
  exists s',
    stakeTokens O node amount (mkWorld k s)
      = (Thrown (StakingError (AuthenticationError ("Signing failed: " +:+ msg))),
         mkWorld (S k) s')
    /\ balanceOf s' node == sub (balanceOf s node) amount
    /\ stakeOf s' node == add (stakeOf s node) amount
    /\ transactions s' = transactions s.
Proof.
  intros Hbal Hmin Hkey Hsg. apply ltb_false in Hbal, Hmin.
  unfold stakeTokens, tryCatch, bind, getBalance, getStake, gets.
  cbn [self reads]. rewrite Hbal, Hmin.
  unfold modify, now, sign. cbn [self reads with_balances with_stakes config].
  rewrite Hkey. fold (stakeMessage O node amount). rewrite Hsg.
  unfold throw. eexists. split; [reflexivity|].
  split; [|split].
  - eapply balanceOf_insert_eq. reflexivity.
  - rewrite (stakeOf_set_eq s _ node (add (orElse (stakeOf s node) 0) amount))
      by reflexivity.
    now rewrite orElse_zero.
  - reflexivity.
Qed.

Lemma stakeTokens_unsigned_still_moves_witness :
  exists s',
    stakeTokens Demo.oracle "X" 5000 (mkWorld 0 Demo.brokenLedger)
      = (Thrown (StakingError
                   (AuthenticationError
                      ("Signing failed: " +:+ "Invalid PEM formatted message."))),
         mkWorld 1 s')
    /\ balanceOf s' "X" == sub (balanceOf Demo.brokenLedger "X") 5000
    /\ stakeOf s' "X" == add (stakeOf Demo.brokenLedger "X") 5000
    /\ transactions s' = transactions Demo.brokenLedger.
Proof.
  refine (stakeTokens_unsigned_still_moves Demo.oracle Demo.brokenLedger 0 "X"
            5000 "BROKEN" "Invalid PEM formatted message." _ _ _ _).
  - vm_compute. intros H. discriminate H.
  - vm_compute. intros H. discriminate H.
  - reflexivity.
  - reflexivity.
Defined.

Lemma length_lastN {A} (n : nat) (l : list A) :
  length (lastN n l) = Nat.min (length l) n.
Proof. unfold lastN. rewrite length_skipn. lia. Qed.

(** X5. [recordTransaction] puts the transaction at the end of the log
    and keeps the log within 10000 entries: the log has one entry more,
    or 10000 if that would be more. *)
Theorem recordTransaction_bounded (O : Oracle) (type from to : string)
    (amount : Q) (ts : Z) (md : option Metadata) (sg : string)
    (k : nat) (s : IncentiveSystem) :
  exists s',
    recordTransaction O type from to amount ts md sg (mkWorld k s)
      = (Returned tt, mkWorld (S k) s')
    /\ length (transactions s')
       = Nat.min (S (length (transactions s))) maxTransactions
    /\ last (transactions s')
       = Some {| tx_id := randomHex O k; tx_type := type; tx_from := from;
                 tx_to := to; tx_amount := amount; tx_timestamp := ts;
                 tx_metadata := md; tx_signature := sg |}
    /\ balances s' = balances s /\ stakes s' = stakes s.
Proof.
  destruct (recordTransaction_run O type from to amount ts md sg k s)
    as (s' & Hrun & Ht & _ & Hb & Hs & _).
  exists s'. split; [exact Hrun|]. rewrite Ht. split; [|split].
  - rewrite length_lastN, length_app. cbn [length]. lia.
  - apply SignatureFacts.last_lastN_snoc, SignatureFacts.maxTransactions_pos.
  - split; assumption.
Qed.
End LedgerExtras.

(** * Further properties of reward computation and payment *)

Module RewardExtras.
Import JS JSFacts JSMapFacts Incentive LedgerSpec LedgerFacts RewardSpec
       RewardFacts DistributionFacts.
Local Open Scope Q_scope.

(** X6. For a node whose stake is below the minimum stake,
    [calculateRewards] returns a zero reward marked
    [insufficient_stake], reporting no bandwidth and no sessions, and
    changes nothing. *)
Theorem calculateRewards_ineligible (O : Oracle) (s : IncentiveSystem)
    (k : nat) (node period : string) :
  (stake s node < minStake (config s))%Q ->
  exists r,
    calculateRewards O node period (mkWorld k s)
      = (Returned r, mkWorld (S k) s)
    /\ r_nodeId r = node
    /\ r_amount r = 0%Q
    /\ r_bandwidthProvided r = 0%Q
    /\ r_sessionsServed r = 0%nat
    /\ r_reason r = Some "insufficient_stake"%string.
Proof.
  intros H.
  unfold calculateRewards, tryCatch, bind, getStake, gets. cbn [self reads].
  assert (Hlt : ltb (orElse (stakeOf s node) 0) (minStake (config s)) = true).
  { apply ltb_true. now rewrite stakeOf_stake. }
  rewrite Hlt. unfold now, ret. cbn [self reads].
  eexists. split; [reflexivity|]. repeat split.
Qed.

Lemma calculateRewards_ineligible_witness :
  exists r,
    calculateRewards Demo.oracle "nobody" "daily"
        (mkWorld (reads Demo.measured) (self Demo.measured))
      = (Returned r, mkWorld (S (reads Demo.measured)) (self Demo.measured))
    /\ r_nodeId r = "nobody"%string
    /\ r_amount r = 0%Q
    /\ r_bandwidthProvided r = 0%Q
    /\ r_sessionsServed r = 0%nat
    /\ r_reason r = Some "insufficient_stake"%string.
Proof.
  refine (calculateRewards_ineligible Demo.oracle (self Demo.measured)
            (reads Demo.measured) "nobody" "daily" _).
  vm_compute. reflexivity.
Defined.

Lemma rounded_nonneg s node :
  (0 < minStake (config s))%Q ->
  (minStake (config s) <= stake s node)%Q ->
  (0 <= bytes_forwarded s node)%Q ->
  (0 <= rewardRate (config s))%Q ->
  (0 <= uptime_pct s node)%Q ->
  (0 <= rounded s node)%Q.
Proof.
  intros Hmin Hstake Hbytes Hrate Hup. unfold rounded.
  assert (Hratio : 0 <= divide (stake s node) (minStake (config s))).
  { apply divide_nonneg; [|exact Hmin].
    apply Qle_trans with (minStake (config s)); [now apply Qlt_le_weak|exact Hstake]. }
  assert (Hmult : 0 <= stake_mult s node).
  { unfold stake_mult.
    destruct (Qeq_bool (minStake (config s)) 0); [discriminate|].
    apply Q.min_glb; [|discriminate].
    apply add_nonneg; [discriminate|].
    apply mul_nonneg; [exact Hratio | discriminate]. }
  assert (Hupb : 0 <= uptime_bonus s node).
  { unfold uptime_bonus. apply divide_nonneg; [exact Hup | reflexivity]. }
  assert (Hlat : 0 <= latency_bonus s node).
  { unfold latency_bonus. apply Q.le_max_l. }
  assert (Hsess : 0 <= inject_Z (Z.of_nat (Nat.max (sessions_served s node) 1))).
  { unfold Qle. simpl. lia. }
  apply toNumber_nonneg.
  repeat apply Qmult_le_0_compat; apply Big_nonneg; assumption.
Qed.

(** X7. The reward of an eligible node, as the code computes it in
    doubles, never exceeds [maxRewardPerDay]; and it is not negative
    when the minimum stake is positive and the bytes forwarded, the
    reward rate, the uptime and the daily maximum are not negative. *)
Theorem calculateRewards_bounded (O : Oracle) (s : IncentiveSystem)
    (k : nat) (node period : string) :
  (0 < minStake (config s))%Q ->
  (minStake (config s) <= stake s node)%Q ->
  exists r,
    calculateRewards O node period (mkWorld k s)
      = (Returned r, mkWorld (S k) s)
    /\ (r_amount r <= maxRewardPerDay (config s))%Q
    /\ ((0 <= bytes_forwarded s node)%Q ->
        (0 <= rewardRate (config s))%Q ->
        (0 <= uptime_pct s node)%Q ->
        (0 <= maxRewardPerDay (config s))%Q ->
        (0 <= r_amount r)%Q).
Proof.
  intros Hmin Hstake.
  assert (Hne : ~ (minStake (config s) == 0 /\ stake s node == 0)).
  { intros [H _]. rewrite H in Hmin. discriminate Hmin. }
  destruct (calculateRewards_eligible O s k node period Hstake Hne)
    as (r & Hrun & _ & Hamount).
  exists r. split; [exact Hrun|]. rewrite Hamount, Math_min_Qmin. split.
  - apply Q.le_min_r.
  - intros Hb Hr Hu Hc. apply Q.min_glb; [|exact Hc].
    now apply rounded_nonneg.
Qed.

Lemma calculateRewards_bounded_witness :
  exists r,
    calculateRewards Demo.oracle "X" "daily"
        (mkWorld (reads Demo.measured) (self Demo.measured))
      = (Returned r, mkWorld (S (reads Demo.measured)) (self Demo.measured))
    /\ (r_amount r <= maxRewardPerDay (config (self Demo.measured)))%Q
    /\ ((0 <= bytes_forwarded (self Demo.measured) "X")%Q ->
        (0 <= rewardRate (config (self Demo.measured)))%Q ->
        (0 <= uptime_pct (self Demo.measured) "X")%Q ->
        (0 <= maxRewardPerDay (config (self Demo.measured)))%Q ->
        (0 <= r_amount r)%Q).
Proof.
  refine (calculateRewards_bounded Demo.oracle (self Demo.measured)
            (reads Demo.measured) "X" "daily" _ _).
  - vm_compute. reflexivity.
  - vm_compute. intros H. discriminate H.
Defined.

(** X8. The stake multiplier [Math.min(1 + (stake / minStake) * 0.5, 2)]
    of an eligible node, as the code computes it in doubles, lies
    between 1.5 and 2, and is 2 from twice the minimum stake on: more
    stake than that earns nothing more. *)
Theorem stake_multiplier_range (staked minimum : Q) :
  (0 < minimum)%Q ->
  (minimum <= staked)%Q ->
  exists m,
    halfPlusOneCapped (div staked minimum) = Finite m
    /\ ((3 # 2) <= m)%Q /\ (m <= 2)%Q
    /\ ((2 * minimum <= staked)%Q -> m == 2).
Proof.
  intros Hmin Hstake.
  assert (Hne : ~ minimum == 0).
  { intros H. rewrite H in Hmin. discriminate Hmin. }
  rewrite (div_nonzero _ _ Hne). cbn [halfPlusOneCapped].
  eexists. split; [reflexivity|]. rewrite Math_min_Qmin.
  assert (Hfrom : forall c, c * minimum <= staked ->
            add 1 (mul (lit c) (1 # 2))
            <= add 1 (mul (divide staked minimum) (1 # 2))).
  { intros c Hc. apply add_mono; [apply Qle_refl|].
    apply mul_mono; [discriminate|]. unfold lit, divide.
    apply nearest_mono. apply Qle_shift_div_l; [exact Hmin | exact Hc]. }
  split; [|split].
  - apply Q.min_glb; [|discriminate].
    apply Qle_trans with (add 1 (mul (lit 1) (1 # 2))).
    + vm_compute. intros H. discriminate H.
    + apply Hfrom. now rewrite Qmult_1_l.
  - apply Q.le_min_r.
  - intros Htwice. apply Q.min_r.
    apply Qle_trans with (add 1 (mul (lit 2) (1 # 2))).
    + vm_compute. intros H. discriminate H.
    + apply Hfrom. exact Htwice.
Qed.

Lemma stake_multiplier_range_witness :
  exists m,
    halfPlusOneCapped (div 5000 1000) = Finite m
    /\ ((3 # 2) <= m)%Q /\ (m <= 2)%Q
    /\ ((2 * 1000 <= 5000)%Q -> m == 2).
Proof.
  refine (stake_multiplier_range 5000 1000 _ _).
  - reflexivity.
  - discriminate.
Defined.

(** X9. With a reward pool that is empty or negative,
    [distributeRewards] fails with the insufficient-reward-pool error
    inside the [REWARD_DISTRIBUTION_ERROR] wrapper, before it computes
    anything, and changes nothing. *)
Theorem distributeRewards_empty_pool (O : Oracle) (s : IncentiveSystem)
    (k : nat) (period : string) :
  (balanceOf s "reward_pool" <= 0)%Q ->
  distributeRewards O period (mkWorld k s)
  = (Thrown (RewardDistributionError InsufficientRewardPool), mkWorld k s).
Proof.
  intros H. apply leb_true in H.
  unfold distributeRewards, tryCatch, bind, getBalance, gets.
  cbn [self reads]. now rewrite H.
Qed.

Lemma distributeRewards_empty_pool_witness :
  distributeRewards Demo.oracle "daily" (mkWorld 0 Demo.emptyLedger)
  = (Thrown (RewardDistributionError InsufficientRewardPool),
     mkWorld 0 Demo.emptyLedger).
Proof.
  refine (distributeRewards_empty_pool Demo.oracle Demo.emptyLedger 0 "daily" _).
  vm_compute. intros H. discriminate H.
Defined.

(** X10. [distributeReward] with a reward larger than the reward pool
    returns normally and pays nothing: the reward is skipped, the ledger
    stays as it was. *)
Theorem distributeReward_skips (O : Oracle) (s : IncentiveSystem) (k : nat)
    (reward : RewardInfo) :
  (balanceOf s "reward_pool" < r_amount reward)%Q ->
  distributeReward O reward (mkWorld k s) = (Returned tt, mkWorld k s).
Proof.
  intros H. apply ltb_true in H.
  unfold distributeReward, tryCatch, bind, getBalance, gets.
  cbn [self reads]. now rewrite H.
Qed.

Lemma distributeReward_skips_witness :
  distributeReward Demo.oracle Demo.reward95 (mkWorld 0 Demo.emptyLedger)
  = (Returned tt, mkWorld 0 Demo.emptyLedger).
Proof.
  refine (distributeReward_skips Demo.oracle Demo.emptyLedger 0 Demo.reward95 _).
  vm_compute. reflexivity.
Defined.

(** X11. [distributeReward] with a reward the pool covers, a key that
    signs and a receiver other than the pool itself moves the amount from
    [reward_pool] to the node (the pool becomes the rounded difference,
    the node's balance the rounded sum), touches no other balance and no
    stake, appends one reward transaction and stores the reward record
    under [node:time]. *)
Theorem distributeReward_pays (O : Oracle) (s : IncentiveSystem) (k : nat)
    (reward : RewardInfo) :
  (r_amount reward <= balanceOf s "reward_pool")%Q ->
  r_nodeId reward <> "reward_pool"%string ->
  signs O s ->
  exists s' signature,
    distributeReward O reward (mkWorld k s) = (Returned tt, mkWorld (3 + k) s')
    /\ balanceOf s' "reward_pool"
       == sub (balanceOf s "reward_pool") (r_amount reward)
    /\ balanceOf s' (r_nodeId reward)
       == add (balanceOf s (r_nodeId reward)) (r_amount reward)
    /\ (forall other, other <> "reward_pool"%string ->
          other <> r_nodeId reward -> balanceOf s' other = balanceOf s other)
    /\ stakes s' = stakes s
    /\ transactions s'
       = lastN maxTransactions (transactions s ++ [rewardTx O k reward signature])
    /\ JSMap.get (r_nodeId reward +:+ ":"
                  +:+ numToString O (inject_Z (clock O (2 + k))))
                 (rewards s') = Some reward.
Proof.
  intros Hpool Hnode (pem & Hkey & Hsigns).
  destruct (Hsigns (rewardMessage O (r_nodeId reward) (r_amount reward)))
    as [sg Hsg].
  apply ltb_false in Hpool.
  unfold distributeReward, tryCatch, bind, getBalance, gets. cbn [self reads].
  rewrite Hpool.
  unfold modify, now, sign. cbn [self reads with_balances config].
  rewrite Hkey.
  fold (rewardMessage O (r_nodeId reward) (r_amount reward)). rewrite Hsg.
  unfold ret at 1. run_recordTransaction Hrun.
  unfold emit, modify, ret. cbn [self reads].
  do 2 eexists. split; [reflexivity|]. fields.
  assert (Hself : balanceOf (with_balances
                     <["reward_pool"%string :=
                         sub (balanceOf s "reward_pool") (r_amount reward)]> s)
                    (r_nodeId reward) = balanceOf s (r_nodeId reward)).
  { unfold balanceOf. fields. rewrite lookup_insert_ne by congruence.
    reflexivity. }
  rewrite Hself in *.
  split; [|split; [|split; [|split; [|split]]]].
  - unfold balanceOf at 1. fields. rewrite H1.
    rewrite lookup_insert_ne by congruence. rewrite lookup_insert_eq.
    apply orElse_zero.
  - unfold balanceOf at 1. fields. rewrite H1, lookup_insert_eq.
    apply orElse_zero.
  - intros other Hp Hn. unfold balanceOf. fields. rewrite H1.
    rewrite !lookup_insert_ne by congruence. reflexivity.
  - assumption.
  - rewrite H. reflexivity.
  - apply get_set_eq.
Qed.

Lemma distributeReward_pays_witness :
  exists s' signature,
    distributeReward Demo.oracle Demo.reward95
        (mkWorld (reads Demo.measured) (self Demo.measured))
      = (Returned tt, mkWorld (3 + reads Demo.measured) s')
    /\ balanceOf s' "reward_pool"
       == sub (balanceOf (self Demo.measured) "reward_pool")
              (r_amount Demo.reward95)
    /\ balanceOf s' (r_nodeId Demo.reward95)
       == add (balanceOf (self Demo.measured) (r_nodeId Demo.reward95))
              (r_amount Demo.reward95)
    /\ (forall other, other <> "reward_pool"%string ->
          other <> r_nodeId Demo.reward95 ->
          balanceOf s' other = balanceOf (self Demo.measured) other)
    /\ stakes s' = stakes (self Demo.measured)
    /\ transactions s'
       = lastN maxTransactions
           (transactions (self Demo.measured)
            ++ [rewardTx Demo.oracle (reads Demo.measured) Demo.reward95
                  signature])
    /\ JSMap.get (r_nodeId Demo.reward95 +:+ ":"
                  +:+ numToString Demo.oracle
                        (inject_Z (clock Demo.oracle (2 + reads Demo.measured))))
                 (rewards s') = Some Demo.reward95.
Proof.
  refine (distributeReward_pays Demo.oracle (self Demo.measured)
            (reads Demo.measured) Demo.reward95 _ _ _).
  - vm_compute. intros H. discriminate H.
  - discriminate.
  - apply demo_signs. vm_compute. reflexivity.
Defined.

(** X12. [validateTransaction] never throws: whatever the transaction
    and whatever node-forge does, it answers a boolean and changes
    nothing; without a configured public key, or when node-forge rejects
    the key or the signature encoding, the answer is [false]. *)
Theorem validateTransaction_never_throws (O : Oracle) (tx : Transaction)
    (w : World IncentiveSystem) :
  exists answer,
    validateTransaction O tx w = (Returned answer, w)
    /\ (publicKey (config (self w)) = None -> answer = false)
    /\ (forall pem msg,
          publicKey (config (self w)) = Some pem ->
          rsaVerify O (canonicalMessage O tx) (tx_signature tx) pem = inr msg ->
          answer = false).
Proof.
  destruct w as [k s].
  unfold validateTransaction, tryCatch, bind, gets, verify. cbn [self reads].
  destruct (publicKey (config s)) as [pem|].
  - destruct (rsaVerify O (canonicalMessage O tx) (tx_signature tx) pem)
      as [b|msg] eqn:Hv.
    + exists b. split; [reflexivity|]. split; [discriminate|].
      intros pem' msg' [= <-]. rewrite Hv. discriminate.
    + exists false. split; [reflexivity|]. split; reflexivity.
  - exists false. split; [reflexivity|]. split; [reflexivity|]. discriminate.
Qed.
End RewardExtras.

(** * Sorting *)

Module SortFacts.
Import JS JSFacts RouterSpec.

Section Descending.
Context {A : Type} (score : A -> Q).

Lemma insert_permutation (x : A) (l : list A) :
  Permutation (Sorting.insert (descending score) x l) (x :: l).
Proof.
  induction l as [|y l IH]; cbn [Sorting.insert]; [reflexivity|].
  destruct (gtb (descending score x y) 0); [|reflexivity].
  rewrite IH. apply perm_swap.
Qed.

Lemma sort_permutation (l : list A) :
  Permutation (Sorting.sort (descending score) l) l.
Proof.
  induction l as [|x l IH]; [reflexivity|].
  change (Sorting.sort (descending score) (x :: l))
    with (Sorting.insert (descending score) x (Sorting.sort (descending score) l)).
  rewrite insert_permutation. now constructor.
Qed.

Lemma insert_sorted (x : A) (l : list A) :
  Sorted (fun a b => (score b <= score a)%Q) l ->
  Sorted (fun a b => (score b <= score a)%Q)
         (Sorting.insert (descending score) x l).
Proof.
  induction l as [|y l IH]; intros Hs; cbn [Sorting.insert].
  - repeat constructor.
  - destruct (gtb (descending score x y) 0) eqn:Hcmp.
    + apply OptimizerFacts.gtb_compare in Hcmp.
      inversion Hs as [|? ? Hs' Hhd]; subst.
      constructor; [now apply IH|].
      destruct l as [|z l]; cbn [Sorting.insert].
      * constructor. now apply Qlt_le_weak.
      * destruct (gtb (descending score x z) 0).
        -- inversion Hhd; subst. now constructor.
        -- constructor. now apply Qlt_le_weak.
    + constructor; [exact Hs|]. constructor.
      apply Qnot_lt_le. intros Hlt.
      apply OptimizerFacts.gtb_compare in Hlt. congruence.
Qed.

Lemma sort_sorted (l : list A) :
  StronglySorted (fun a b => (score b <= score a)%Q)
                 (Sorting.sort (descending score) l).
Proof.
  apply Sorted_StronglySorted.
  - intros a b c Hab Hbc. eapply Qle_trans; eassumption.
  - induction l as [|x l IH]; [constructor|].
    change (Sorting.sort (descending score) (x :: l))
      with (Sorting.insert (descending score) x
              (Sorting.sort (descending score) l)).
    now apply insert_sorted.
Qed.

(** An element that nothing in a list beats goes to the front. *)
Lemma insert_front (x : A) (l : list A) :
  Forall (fun z => (score z <= score x)%Q) l ->
  Sorting.insert (descending score) x l = x :: l.
Proof.
  intros Hall. destruct l as [|y l]; [reflexivity|]. cbn [Sorting.insert].
  destruct (gtb (descending score x y) 0) eqn:Hcmp; [|reflexivity].
  apply OptimizerFacts.gtb_compare in Hcmp.
  inversion Hall as [|? ? Hy _]; subst.
  exfalso. apply (Qlt_not_le _ _ Hcmp Hy).
Qed.

(** Filtering a sorted list and inserting commute. *)
Lemma filter_insert (P : A -> bool) (x : A) (l : list A) :
  StronglySorted (fun a b => (score b <= score a)%Q) l ->
  List.filter P (Sorting.insert (descending score) x l)
  = if P x then Sorting.insert (descending score) x (List.filter P l)
    else List.filter P l.
Proof.
  induction l as [|y l IH]; intros Hs.
  - cbn. now destruct (P x).
  - inversion Hs as [|? ? Hs' Hall]; subst. specialize (IH Hs').
    cbn [Sorting.insert].
    destruct (gtb (descending score x y) 0) eqn:Hcmp.
    + cbn [List.filter]. rewrite IH.
      destruct (P y), (P x); try reflexivity.
      cbn [Sorting.insert]. now rewrite Hcmp.
    + assert (Hyx : (score y <= score x)%Q).
      { apply Qnot_lt_le. intros Hlt.
        apply OptimizerFacts.gtb_compare in Hlt. congruence. }
      change (List.filter P (x :: y :: l))
        with (if P x then x :: List.filter P (y :: l)
              else List.filter P (y :: l)).
      destruct (P x); [|reflexivity].
      symmetry. apply insert_front.
      apply List.Forall_forall. intros z Hz. apply filter_In in Hz as [Hz _].
      destruct Hz as [<-|Hz]; [exact Hyx|].
      rewrite List.Forall_forall in Hall.
      eapply Qle_trans; [apply Hall; exact Hz | exact Hyx].
Qed.

(** Filtering after a stable sort is sorting after the filter. *)
Lemma filter_sort (P : A -> bool) (l : list A) :
  List.filter P (Sorting.sort (descending score) l)
  = Sorting.sort (descending score) (List.filter P l).
Proof.
  induction l as [|x l IH]; [reflexivity|].
  change (Sorting.sort (descending score) (x :: l))
    with (Sorting.insert (descending score) x
            (Sorting.sort (descending score) l)).
  rewrite filter_insert by apply sort_sorted.
  cbn [List.filter]. rewrite IH. now destruct (P x).
Qed.
End Descending.

Lemma StronglySorted_firstn {A} (R : A -> A -> Prop) (n : nat) (l : list A) :
  StronglySorted R l -> StronglySorted R (firstn n l).
Proof.
  revert n. induction l as [|x l IH]; intros [|n] Hs; cbn [firstn];
    try constructor.
  - inversion Hs; subst. now apply IH.
  - inversion Hs as [|? ? _ Hall]; subst.
    rewrite <- (firstn_skipn n l) in Hall. apply Forall_app in Hall.
    tauto.
Qed.
End SortFacts.

(** * Queries on the ledger *)

Module QueryExtras.
Import JS JSFacts JSMapFacts Incentive IncentiveQueries LedgerSpec RouterSpec
       SortFacts.

Lemma lookup_seeded (v : Q) (nodes : list string) :
  forall (m : gmap string Q) (node : string),
    fold_left (fun b nodeId => <[nodeId := v]> b) nodes m !! node
    = if existsb (String.eqb node) nodes then Some v else m !! node.
Proof.
  induction nodes as [|n nodes IH]; intros m node; cbn [fold_left existsb];
    [reflexivity|].
  rewrite IH. destruct (existsb (String.eqb node) nodes).
  - now rewrite orb_true_r.
  - rewrite orb_false_r. destruct (String.eqb_spec node n) as [->|Hne].
    + apply lookup_insert_eq.
    + apply lookup_insert_ne. congruence.
Qed.

(** X13. A new incentive system holds half of the initial supply in
    [reward_pool], gives every bootstrap node (other than one called
    [reward_pool]) the initial supply divided by the number of bootstrap
    nodes plus one (the product and the quotient as doubles), gives
    nobody else anything, and starts without stakes and without
    transactions. *)
Theorem create_seeds (o : Options) (node : string) :
  balanceOf (create o) "reward_pool"
    == mul (initialSupply (mergeConfig o)) (1 # 2)
  /\ (node <> "reward_pool"%string ->
      In node (bootstrapNodes (mergeConfig o)) ->
      balanceOf (create o) node
      == divide (initialSupply (mergeConfig o))
           (inject_Z (Z.of_nat (length (bootstrapNodes (mergeConfig o)) + 1))))
  /\ (node <> "reward_pool"%string ->
      ~ In node (bootstrapNodes (mergeConfig o)) ->
      balanceOf (create o) node = 0%Q)
  /\ stakes (create o) = [] /\ transactions (create o) = [].
Proof.
  split; [|split; [|split; [|split; reflexivity]]].
  - unfold balanceOf, create. cbn [balances]. rewrite lookup_insert_eq.
    apply orElse_zero.
  - intros Hne Hin. unfold balanceOf, create. cbn [balances].
    rewrite lookup_insert_ne by congruence. rewrite lookup_seeded.
    assert (Hex : existsb (String.eqb node) (bootstrapNodes (mergeConfig o)) = true).
    { apply existsb_exists. exists node. split; [exact Hin|apply String.eqb_refl]. }
    rewrite Hex. cbn [getOr]. apply orElse_zero.
  - intros Hne Hin. unfold balanceOf, create. cbn [balances].
    rewrite lookup_insert_ne by congruence. rewrite lookup_seeded.
    assert (Hex : existsb (String.eqb node) (bootstrapNodes (mergeConfig o)) = false).
    { apply not_true_is_false. intros H. apply existsb_exists in H as (x & Hx & Heq).
      apply String.eqb_eq in Heq. subst. contradiction. }
    rewrite Hex, lookup_empty. reflexivity.
Qed.

Lemma create_seeds_witness :
  balanceOf (create Demo.options) "reward_pool"
    == mul (initialSupply (mergeConfig Demo.options)) (1 # 2)
  /\ balanceOf (create Demo.options) "X"
     == divide (initialSupply (mergeConfig Demo.options))
          (inject_Z
             (Z.of_nat (length (bootstrapNodes (mergeConfig Demo.options)) + 1)))
  /\ balanceOf (create Demo.options) "Y" = 0%Q.
Proof.
  split; [|split].
  - exact (proj1 (create_seeds Demo.options "X")).
  - refine (proj1 (proj2 (create_seeds Demo.options "X")) _ _).
    + discriminate.
    + left. reflexivity.
  - refine (proj1 (proj2 (proj2 (create_seeds Demo.options "Y"))) _ _).
    + discriminate.
    + intros [H|[]]. discriminate H.
Defined.

Lemma sliceFrom_last {A} (n : Z) (l : list A) :
  0 < n ->
  exists older,
    l = older ++ JSArray.sliceFrom (- n) l
    /\ Z.of_nat (length (JSArray.sliceFrom (- n) l)) = Z.min n (Z.of_nat (length l)).
Proof.
  intros Hn. unfold JSArray.sliceFrom.
  assert (Hneg : (- n <? 0) = true) by (apply Z.ltb_lt; lia).
  rewrite Hneg.
  set (d := Z.to_nat (Z.max (Z.of_nat (length l) + - n) 0)).
  exists (firstn d l). split; [symmetry; apply firstn_skipn|].
  rewrite length_skipn. unfold d. lia.
Qed.

Lemma sliceFrom_zero {A} (l : list A) : JSArray.sliceFrom (- 0) l = l.
Proof.
  unfold JSArray.sliceFrom. change (- 0 <? 0) with false. cbv iota.
  replace (Z.min (- 0) (Z.of_nat (length l))) with 0 by lia. reflexivity.
Qed.

(** X14. [getTransactionHistory(node, limit)] with a positive limit
    returns the most recent transactions that the node sent or received,
    oldest first, at most [limit] of them, and changes nothing; with
    limit 0 it returns all of them, because [slice(-0)] starts at the
    beginning. *)
Theorem getTransactionHistory_recent (node : string) (limit : Z)
    (w : World IncentiveSystem) :
  node <> ""%string ->
  0 <= limit ->
  let involved :=
    List.filter (fun tx => String.eqb (tx_from tx) node
                           || String.eqb (tx_to tx) node)
                (transactions (self w)) in
  exists history older,
    getTransactionHistory (Some node) limit w = (Returned history, w)
    /\ involved = older ++ history
    /\ (forall tx, In tx history -> tx_from tx = node \/ tx_to tx = node)
    /\ (0 < limit ->
        Z.of_nat (length history) = Z.min limit (Z.of_nat (length involved)))
    /\ (limit = 0 -> history = involved).
Proof.
  intros Hnode Hlimit involved.
  unfold getTransactionHistory, bind, gets, ret. cbn [self reads].
  apply String.eqb_neq in Hnode. rewrite Hnode. fold involved.
  assert (Hsuffix : exists older,
            involved = older ++ JSArray.sliceFrom (- limit) involved).
  { destruct (Z.eq_dec limit 0) as [->|Hpos].
    - exists []. now rewrite sliceFrom_zero.
    - destruct (sliceFrom_last limit involved) as (older & H & _); [lia|].
      now exists older. }
  destruct Hsuffix as (older & Hsuffix).
  exists (JSArray.sliceFrom (- limit) involved), older.
  split; [reflexivity|]. split; [exact Hsuffix|]. split; [|split].
  - intros tx Hin.
    assert (Hinv : In tx involved).
    { rewrite Hsuffix. apply in_or_app. now right. }
    apply filter_In in Hinv as [_ Hinv]. apply orb_true_iff in Hinv.
    destruct Hinv as [H|H]; apply String.eqb_eq in H; tauto.
  - intros Hpos. now destruct (sliceFrom_last limit involved Hpos) as (_ & _ & H).
  - intros ->. apply sliceFrom_zero.
Qed.

Lemma getTransactionHistory_recent_witness :
  exists history older,
    getTransactionHistory (Some "X"%string) 1 Demo.paidTwice
      = (Returned history, Demo.paidTwice)
    /\ List.filter (fun tx => String.eqb (tx_from tx) "X"
                              || String.eqb (tx_to tx) "X")
                   (transactions (self Demo.paidTwice))
       = older ++ history
    /\ (forall tx, In tx history ->
          tx_from tx = "X"%string \/ tx_to tx = "X"%string)
    /\ (0 < 1 ->
        Z.of_nat (length history)
        = Z.min 1 (Z.of_nat
                     (length
                        (List.filter
                           (fun tx => String.eqb (tx_from tx) "X"
                                      || String.eqb (tx_to tx) "X")
                           (transactions (self Demo.paidTwice))))))
    /\ (1 = 0 -> history
                 = List.filter (fun tx => String.eqb (tx_from tx) "X"
                                          || String.eqb (tx_to tx) "X")
                               (transactions (self Demo.paidTwice))).
Proof.
  refine (getTransactionHistory_recent "X" 1 Demo.paidTwice _ _).
  - discriminate.
  - lia.
Defined.

(** X15. [getLeaderboard('stake', limit)] with a limit that is not
    negative returns at most [limit] rows, ordered from the highest stake
    down; every row belongs to a node of the stake map whose stake
    reaches the minimum stake, and nothing changes. *)
Theorem getLeaderboard_by_stake (limit : Z) (w : World IncentiveSystem) :
  0 <= limit ->
  exists rows,
    getLeaderboard "stake" limit w = (Returned (inl rows), w)
    /\ Z.of_nat (length rows) <= limit
    /\ StronglySorted (fun a b => (nr_stake b <= nr_stake a)%Q) rows
    /\ (forall row, In row rows ->
          row = nodeRow (self w) (nr_nodeId row)
          /\ In (nr_nodeId row) (JSMap.keys (stakes (self w)))
          /\ (minStake (config (self w)) <= nr_stake row)%Q).
Proof.
  intros Hlimit. unfold getLeaderboard, bind, gets, ret. cbn [self reads].
  cbn [String.eqb Ascii.eqb Bool.eqb andb].
  change (Sorting.sort (fun a b => sub (nr_stake b) (nr_stake a)))
    with (Sorting.sort (descending nr_stake)).
  set (sorted := Sorting.sort (descending nr_stake)
                   (map (nodeRow (self w)) (rankedNodes (self w)))).
  exists (JSArray.sliceTo limit sorted). split; [reflexivity|].
  unfold JSArray.sliceTo.
  assert (Hpos : (limit <? 0) = false) by (apply Z.ltb_ge; lia).
  rewrite Hpos. split; [|split].
  - rewrite length_firstn. lia.
  - apply StronglySorted_firstn, sort_sorted.
  - intros row Hin.
    assert (Hsorted : In row sorted).
    { rewrite <- (firstn_skipn (Z.to_nat (Z.min limit (Z.of_nat (length sorted))))
                  sorted).
      apply in_or_app. now left. }
    apply (Permutation_in _ (sort_permutation nr_stake _)) in Hsorted.
    apply in_map_iff in Hsorted as (n & <- & Hn).
    apply filter_In in Hn as [Hkey Hmin]. apply geb_true in Hmin.
    cbn [nodeRow nr_nodeId nr_stake]. repeat split; assumption.
Qed.

Lemma getLeaderboard_by_stake_witness :
  exists rows,
    getLeaderboard "stake" 10 Demo.paidTwice = (Returned (inl rows), Demo.paidTwice)
    /\ Z.of_nat (length rows) <= 10
    /\ StronglySorted (fun a b => (nr_stake b <= nr_stake a)%Q) rows
    /\ (forall row, In row rows ->
          row = nodeRow (self Demo.paidTwice) (nr_nodeId row)
          /\ In (nr_nodeId row) (JSMap.keys (stakes (self Demo.paidTwice)))
          /\ (minStake (config (self Demo.paidTwice)) <= nr_stake row)%Q).
Proof.
  refine (getLeaderboard_by_stake 10 Demo.paidTwice _). lia.
Defined.

(** X16. [getLeaderboard] with a metric other than [rewards], [stake]
    and [bandwidth] throws the unknown-metric error, unwrapped, and
    changes nothing. *)
Theorem getLeaderboard_unknown_metric (metric : string) (limit : Z)
    (w : World IncentiveSystem) :
  metric <> "rewards"%string ->
  metric <> "stake"%string ->
  metric <> "bandwidth"%string ->
  getLeaderboard metric limit w
  = (Thrown (NetworkNeuronError ("Unknown leaderboard metric: " +:+ metric)
                                "UNKNOWN_METRIC"), w).
Proof.
  intros Hr Hs Hb. apply String.eqb_neq in Hr, Hs, Hb.
  unfold getLeaderboard, bind, gets. cbn [self reads].
  now rewrite Hr, Hs, Hb.
Qed.

Lemma getLeaderboard_unknown_metric_witness :
  getLeaderboard "latency" 10 Demo.fresh
  = (Thrown (NetworkNeuronError ("Unknown leaderboard metric: " +:+ "latency")
                                "UNKNOWN_METRIC"), Demo.fresh).
Proof.
  refine (getLeaderboard_unknown_metric "latency" 10 Demo.fresh _ _ _);
    discriminate.
Defined.
End QueryExtras.

(** * Candidates and optimizers *)

Module CandidateExtras.
Import JS JSFacts JSMapFacts Router RouterSpec RouterFacts SortFacts.
Local Open Scope Q_scope.

Lemma truthy_Some (o : option Q) (m : Q) :
  truthy o = Some m <-> o = Some m /\ ~ m == 0.
Proof.
  unfold truthy. destruct o as [x|]; [|split; [discriminate | intros [H _]; discriminate]].
  destruct (Qeq_bool x 0) eqn:E.
  - apply Qeq_bool_iff in E. split; [discriminate|].
    intros [[= ->] H]. contradiction.
  - split.
    + intros [= ->]. split; [reflexivity|]. intros H.
      apply Qeq_bool_iff in H. congruence.
    + now intros [-> _].
Qed.

Lemma truthy_None (o : option Q) :
  truthy o = None <-> forall m, o = Some m -> m == 0.
Proof.
  unfold truthy. destruct o as [x|]; [|split; [discriminate | reflexivity]].
  destruct (Qeq_bool x 0) eqn:E.
  - apply Qeq_bool_iff in E. split; [|reflexivity]. now intros _ m [= <-].
  - split; [discriminate|]. intros H. specialize (H x eq_refl).
    apply Qeq_bool_iff in H. congruence.
Qed.

Lemma bandwidth_ok (o : option Q) (d : Q) :
  match truthy o with Some m => ltb d m | None => false end = false <->
  forall m, o = Some m -> ~ m == 0 -> (m <= d)%Q.
Proof.
  destruct (truthy o) as [m|] eqn:Ht.
  - apply truthy_Some in Ht as [-> Hm]. rewrite ltb_false. split.
    + now intros H m' [= <-] _.
    + intros H. now apply H.
  - rewrite truthy_None in Ht. split; [|reflexivity].
    intros _ m Hm Hm0. exfalso. exact (Hm0 (Ht m Hm)).
Qed.

Lemma latency_ok (o : option Q) (d : Q) :
  match truthy o with Some m => gtb d m | None => false end = false <->
  forall m, o = Some m -> ~ m == 0 -> (d <= m)%Q.
Proof.
  destruct (truthy o) as [m|] eqn:Ht.
  - apply truthy_Some in Ht as [-> Hm]. rewrite gtb_ltb, ltb_false. split.
    + now intros H m' [= <-] _.
    + intros H. now apply H.
  - rewrite truthy_None in Ht. split; [|reflexivity].
    intros _ m Hm Hm0. exfalso. exact (Hm0 (Ht m Hm)).
Qed.

Lemma region_ok (o : option (list string)) (r : string) :
  match o with Some rs => negb (includes r rs) | None => false end = false <->
  forall rs, o = Some rs -> In r rs.
Proof.
  destruct o as [rs|]; [|split; [discriminate | reflexivity]].
  rewrite negb_false_iff, includes_In. split.
  - now intros H rs' [= <-].
  - intros H. now apply H.
Qed.

(** What it takes to be a candidate. *)
Lemma available_spec (requirements : RouteRequirements) (n : NetworkNode) :
  available requirements n = true <->
  isActive n = true
  /\ (forall m, minBandwidth requirements = Some m -> ~ m == 0 ->
                (m <= download (bandwidth n))%Q)
  /\ (forall m, maxLatency requirements = Some m -> ~ m == 0 ->
                (latency (bandwidth n) <= m)%Q)
  /\ (forall rs, regions requirements = Some rs -> In (region n) rs).
Proof.
  rewrite <- bandwidth_ok, <- latency_ok, <- region_ok. unfold available.
  destruct (isActive n); cbn [negb];
    [|split; [discriminate | intros [H _]; discriminate]].
  destruct (match truthy (minBandwidth requirements) with
            | Some m => ltb (download (bandwidth n)) m | None => false end);
    [split; [discriminate | intros (_ & H & _); discriminate]|].
  destruct (match truthy (maxLatency requirements) with
            | Some m => gtb (latency (bandwidth n)) m | None => false end);
    [split; [discriminate | intros (_ & _ & H & _); discriminate]|].
  destruct (match regions requirements with
            | Some rs => negb (includes (region n) rs) | None => false end);
    [split; [discriminate | intros (_ & _ & _ & H); discriminate]|].
  tauto.
Qed.

(** X17. [getAvailableNodes] returns, in the order of the registry,
    exactly the discovered nodes that are active, have at least the
    minimum bandwidth asked for, at most the maximum latency asked for,
    and lie in one of the regions asked for; a minimum bandwidth or a
    maximum latency of zero is no requirement at all. *)
Theorem getAvailableNodes_filters (requirements : RouteRequirements)
    (w : World TrafficRouter) :
  exists candidates,
    getAvailableNodes requirements w = (Returned candidates, w)
    /\ candidates = List.filter (available requirements)
                                (discoveredNodes (self w))
    /\ forall n,
        In n candidates <->
        In n (discoveredNodes (self w))
        /\ isActive n = true
        /\ (forall m, minBandwidth requirements = Some m -> ~ m == 0 ->
                      (m <= download (bandwidth n))%Q)
        /\ (forall m, maxLatency requirements = Some m -> ~ m == 0 ->
                      (latency (bandwidth n) <= m)%Q)
        /\ (forall rs, regions requirements = Some rs -> In (region n) rs).
Proof.
  eexists. split; [reflexivity|]. split; [reflexivity|].
  intros n. rewrite filter_In, available_spec. reflexivity.
Qed.

(** ** The optimizers *)

Lemma firstBest_In {A} (score : A -> Q) l best :
  firstBest score l best -> In best l.
Proof.
  intros (before & after & -> & _). apply in_or_app. right. now left.
Qed.

Lemma sort_head_firstBest {A} (compare : A -> A -> Q) (score : A -> Q) :
  (forall x y, gtb (compare x y) 0 = true <-> (score x < score y)%Q) ->
  forall l, l <> [] ->
  exists best rest,
    Sorting.sort compare l = best :: rest /\ firstBest score l best.
Proof.
  intros Hcmp l. induction l as [|x l IH]; [congruence|]. intros _.
  destruct l as [|y l].
  - exists x, []. split; [reflexivity|]. exists [], [].
    repeat split; simpl; tauto.
  - destruct IH as (best & rest & Hs & before & after & Hl & Hb & Ha);
      [congruence|].
    change (Sorting.sort compare (x :: y :: l))
      with (Sorting.insert compare x (Sorting.sort compare (y :: l))).
    rewrite Hs. cbn [Sorting.insert].
    destruct (gtb (compare x best) 0) eqn:Hgt.
    + apply Hcmp in Hgt. exists best, (Sorting.insert compare x rest).
      split; [reflexivity|]. exists (x :: before), after. rewrite Hl.
      repeat split; [|exact Ha].
      intros z [<-|Hz]; [exact Hgt | now apply Hb].
    + assert (Hle : (score best <= score x)%Q).
      { apply Qnot_lt_le. intros Hlt. apply Hcmp in Hlt. congruence. }
      exists x, (best :: rest). split; [reflexivity|].
      exists [], (y :: l). repeat split; [simpl; tauto|].
      intros z Hz. rewrite Hl in Hz. apply in_app_or in Hz as [Hz|[<-|Hz]].
      * apply Qlt_le_weak. eapply Qlt_le_trans; [now apply Hb | exact Hle].
      * exact Hle.
      * eapply Qle_trans; [now apply Ha | exact Hle].
Qed.

Lemma fold_firstBest {A} (score : A -> Q) (rest : list A) (first : A) :
  firstBest score (first :: rest)
    (fold_left (fun best current =>
                  if gtb (score current) (score best) then current else best)
               rest first).
Proof.
  induction rest as [|x rest IH] using rev_ind.
  - exists [], []. repeat split; simpl; tauto.
  - rewrite fold_left_app. cbn [fold_left].
    destruct IH as (before & after & Hl & Hb & Ha).
    set (b := fold_left _ rest first) in *.
    destruct (gtb (score x) (score b)) eqn:Hgt.
    + rewrite gtb_ltb in Hgt. apply ltb_true in Hgt.
      exists (first :: rest), []. split; [now rewrite app_comm_cons|].
      split; [|intros ? []].
      intros z Hz. rewrite Hl in Hz. apply in_app_or in Hz as [Hz|[<-|Hz]].
      * eapply Qlt_trans; [now apply Hb | exact Hgt].
      * exact Hgt.
      * eapply Qle_lt_trans; [now apply Ha | exact Hgt].
    + rewrite gtb_ltb in Hgt. apply ltb_false in Hgt.
      exists before, (after ++ [x]). split.
      { rewrite app_comm_cons, Hl, <- app_assoc. reflexivity. }
      split; [exact Hb|].
      intros z Hz. apply in_app_or in Hz as [Hz|[<-|[]]]; [now apply Ha | exact Hgt].
Qed.

Lemma firstBest_ext {A} (f g : A -> Q) l best :
  (forall x, f x == g x) -> firstBest f l best -> firstBest g l best.
Proof.
  intros Hfg (before & after & Hl & Hb & Ha). exists before, after.
  split; [exact Hl|]. split.
  - intros x Hx. rewrite <- !Hfg. now apply Hb.
  - intros x Hx. rewrite <- !Hfg. now apply Ha.
Qed.

Lemma findShortestPath_best (candidates : list NetworkNode)
    (w : World TrafficRouter) :
  candidates <> [] ->
  exists best,
    findShortestPath candidates w = (Returned (pathThrough best), w)
    /\ firstBest (fun n => sub (download (bandwidth n)) (latency (bandwidth n)))
                 candidates best.
Proof.
  intros Hne. destruct candidates as [|first rest]; [congruence|].
  eexists. split; [reflexivity|].
  apply (firstBest_ext directScore).
  - intros x. unfold directScore. now rewrite !orElse_zero.
  - apply fold_firstBest.
Qed.

Lemma findLowestLatency_best (candidates : list NetworkNode)
    (w : World TrafficRouter) :
  candidates <> [] ->
  exists best,
    findLowestLatency candidates w = (Returned (pathThrough best), w)
    /\ firstBest (fun n => - latency (bandwidth n))%Q candidates best.
Proof.
  intros Hne.
  destruct (sort_head_firstBest
              (fun a b => sub (orElse (latency (bandwidth a)) 0)
                              (orElse (latency (bandwidth b)) 0))
              (fun n => - latency (bandwidth n))%Q) with (l := candidates)
    as (best & rest & Hs & Hbest); [|exact Hne|].
  - intros x y. rewrite gtb_sub, !orElse_zero.
    split; intros H.
    + now apply Qopp_lt_compat.
    + apply Qopp_lt_compat in H. now rewrite !Qopp_opp in H.
  - exists best. split; [|exact Hbest].
    unfold findLowestLatency. now rewrite Hs.
Qed.

Lemma findHighestBandwidth_best (candidates : list NetworkNode)
    (w : World TrafficRouter) :
  candidates <> [] ->
  exists best,
    findHighestBandwidth candidates w = (Returned (pathThrough best), w)
    /\ firstBest (fun n => download (bandwidth n)) candidates best.
Proof.
  intros Hne.
  destruct (sort_head_firstBest
              (fun a b => sub (orElse (download (bandwidth b)) 0)
                              (orElse (download (bandwidth a)) 0))
              (fun n => download (bandwidth n))) with (l := candidates)
    as (best & rest & Hs & Hbest); [|exact Hne|].
  - intros x y. now rewrite gtb_sub, !orElse_zero.
  - exists best. split; [|exact Hbest].
    unfold findHighestBandwidth. now rewrite Hs.
Qed.

(** X18. On a list of candidates that is not empty, each of the three
    single-criterion optimizers returns the one-hop path through the
    first candidate that none beats: [findShortestPath] by download
    minus latency as the code computes it, a double, so that two
    candidates whose exact differences are equal can compare unequal;
    [findLowestLatency] by the lowest latency, [findHighestBandwidth]
    by the highest download, where the rounded difference the
    comparison function returns has the sign of the exact one; none of
    them changes the router. *)
Theorem optimizers_pick_first_best (candidates : list NetworkNode)
    (w : World TrafficRouter) :
  candidates <> [] ->
  (exists best,
      findShortestPath candidates w = (Returned (pathThrough best), w)
      /\ firstBest (fun n => sub (download (bandwidth n)) (latency (bandwidth n)))
                   candidates best)
  /\ (exists best,
        findLowestLatency candidates w = (Returned (pathThrough best), w)
        /\ firstBest (fun n => - latency (bandwidth n))%Q candidates best)
  /\ (exists best,
        findHighestBandwidth candidates w = (Returned (pathThrough best), w)
        /\ firstBest (fun n => download (bandwidth n)) candidates best).
Proof.
  intros Hne. split; [|split].
  - now apply findShortestPath_best.
  - now apply findLowestLatency_best.
  - now apply findHighestBandwidth_best.
Qed.

Lemma optimizers_pick_first_best_witness :
  (exists best,
      findShortestPath [DemoRouter.node1; DemoRouter.node2; DemoRouter.node3]
        (DemoRouter.router [])
      = (Returned (pathThrough best), DemoRouter.router [])
      /\ firstBest (fun n => sub (download (bandwidth n)) (latency (bandwidth n)))
                   [DemoRouter.node1; DemoRouter.node2; DemoRouter.node3] best)
  /\ (exists best,
        findLowestLatency [DemoRouter.node1; DemoRouter.node2; DemoRouter.node3]
          (DemoRouter.router [])
        = (Returned (pathThrough best), DemoRouter.router [])
        /\ firstBest (fun n => - latency (bandwidth n))%Q
                     [DemoRouter.node1; DemoRouter.node2; DemoRouter.node3] best)
  /\ (exists best,
        findHighestBandwidth [DemoRouter.node1; DemoRouter.node2; DemoRouter.node3]
          (DemoRouter.router [])
        = (Returned (pathThrough best), DemoRouter.router [])
        /\ firstBest (fun n => download (bandwidth n))
                     [DemoRouter.node1; DemoRouter.node2; DemoRouter.node3] best).
Proof.
  refine (optimizers_pick_first_best
            [DemoRouter.node1; DemoRouter.node2; DemoRouter.node3]
            (DemoRouter.router []) _).
  discriminate.
Defined.
(** [findShortestPath] on figures that tie as they are written.
    Download 100.3 with latency 50.1 and download 60.2 with latency 10
    both make 50.2 in decimals; the doubles the code subtracts give
    50.199999999999996 and 50.2, and the second candidate wins. *)
Example shortest_breaks_written_tie :
  (1003 # 10) - (501 # 10) == (602 # 10) - 10
  /\ directScore DemoRouter.near == lit (50199999999999996 # 1000000000000000)
  /\ directScore DemoRouter.far == lit (502 # 10)
  /\ directScore DemoRouter.near < directScore DemoRouter.far
  /\ fst (findShortestPath [DemoRouter.near; DemoRouter.far]
           (DemoRouter.router []))
     = Returned (pathThrough DemoRouter.far).
Proof. repeat split; vm_compute; reflexivity. Qed.
End CandidateExtras.

(** * Route lookup, further *)

Module LookupExtras.
Import JS JSFacts JSMapFacts Router RouterSpec RouterFacts RouteFacts SortFacts
       CandidateExtras.
Local Open Scope Z_scope.

Lemma findOptimalPath_known (O : Oracle) (candidates : list NetworkNode)
    (requirements : RouteRequirements) (w : World TrafficRouter) :
  candidates <> [] ->
  knownAlgorithm (algorithmOf requirements) ->
  exists best,
    In best candidates
    /\ findOptimalPath O candidates requirements w
       = (Returned (APath (pathThrough best)), w).
Proof.
  intros Hne Hknown.
  destruct (findShortestPath_best candidates w Hne) as (b1 & H1 & F1).
  destruct (findLowestLatency_best candidates w Hne) as (b2 & H2 & F2).
  destruct (findHighestBandwidth_best candidates w Hne) as (b3 & H3 & F3).
  unfold findOptimalPath.
  destruct Hknown as [<-|[<-|[<-|[<-|[]]]]]; cbn [String.eqb Ascii.eqb Bool.eqb andb].
  - exists b1. split; [exact (firstBest_In _ _ _ F1)|].
    unfold bind. now rewrite H1.
  - exists b2. split; [exact (firstBest_In _ _ _ F2)|].
    unfold bind. now rewrite H2.
  - exists b3. split; [exact (firstBest_In _ _ _ F3)|].
    unfold bind. now rewrite H3.
  - destruct (OptimizerFacts.sort_descending_head (A := NetworkNode * Q) snd
                (map (fun node => (node, totalScore node)) candidates))
      as (before' & [best sc] & after' & rest & Hl & Hs & _).
    { destruct candidates; [congruence | discriminate]. }
    exists best. split.
    + assert (Hin : In (best, sc)
                      (map (fun node => (node, totalScore node)) candidates)).
      { rewrite Hl. apply in_or_app. right. now left. }
      apply in_map_iff in Hin as (n & [= -> _] & Hn). exact Hn.
    + unfold bind, findBalancedPath, scoredNodes.
      change (Sorting.sort (fun a b => sub (snd b) (snd a)))
        with (Sorting.sort (descending (A := NetworkNode * Q) snd)).
      now rewrite Hs.
Qed.

(** A name that is none of the four is looked up in
    [Object.prototype]. *)
Lemma findOptimalPath_unknown (O : Oracle) (candidates : list NetworkNode)
    (requirements : RouteRequirements) :
  ~ knownAlgorithm (algorithmOf requirements) ->
  findOptimalPath O candidates requirements
  = match inherited (algorithmOf requirements) with
    | Some Wraps | Some Describes => ret (NotAPath true)
    | Some Denies => ret (NotAPath false)
    | Some NeedsReceiver =>
        throw (NativeError (receiverError O (algorithmOf requirements)))
    | Some NotCallable => throw (NativeError "optimizer is not a function")
    | None =>
        throw (NetworkNeuronError
                 ("Unknown optimization algorithm: "
                  +:+ algorithmOf requirements)
                 "UNKNOWN_ALGORITHM")
    end.
Proof.
  intros Hunknown. unfold findOptimalPath.
  assert (H1 : String.eqb (algorithmOf requirements) "shortestPath" = false).
  { apply String.eqb_neq. intros H. apply Hunknown. rewrite H. now left. }
  assert (H2 : String.eqb (algorithmOf requirements) "lowestLatency" = false).
  { apply String.eqb_neq. intros H. apply Hunknown. rewrite H. right. now left. }
  assert (H3 : String.eqb (algorithmOf requirements) "highestBandwidth" = false).
  { apply String.eqb_neq. intros H. apply Hunknown. rewrite H.
    right. right. now left. }
  assert (H4 : String.eqb (algorithmOf requirements) "balanced" = false).
  { apply String.eqb_neq. intros H. apply Hunknown. rewrite H.
    right. right. right. now left. }
  now rewrite H1, H2, H3, H4.
Qed.

Section Lookup.
Variable O : Oracle.
Variable stringify : RouteRequirements -> string.

(** [findRoute] is the cache lookup followed by [computeRoute]. *)
Lemma findRoute_unfold destination requirements :
  findRoute O stringify destination requirements
  = let cacheKey := generateCacheKey O stringify destination requirements in
    tryCatch
      (let* cached := gets (fun s => JSMap.get cacheKey (routeCache s)) in
       match cached with
       | Some cachedRoute =>
           let* date := now O in
           if (date <? expiresAt cachedRoute)%Z then ret cachedRoute
           else modify (with_routeCache (JSMap.delete cacheKey)) ;;
                computeRoute O cacheKey destination requirements
       | None => computeRoute O cacheKey destination requirements
       end)
      (fun error => throw (RouteFindingError error)).
Proof. reflexivity. Qed.

(** Computing a route with candidates and a known algorithm. *)
Lemma computeRoute_creates cacheKey destination requirements k s :
  List.filter (available requirements) (discoveredNodes s) <> [] ->
  knownAlgorithm (algorithmOf requirements) ->
  exists best s',
    In best (List.filter (available requirements) (discoveredNodes s))
    /\ computeRoute O cacheKey destination requirements (mkWorld k s)
       = (Returned (routeThrough O k (routeTimeout s) requirements best),
          mkWorld (2 + k) s')
    /\ routeCache s'
       = JSMap.set cacheKey
           (routeThrough O k (routeTimeout s) requirements best)
           (evicted (maxCacheSize s) (routeCache s))
    /\ activeRoutes s'
       = JSMap.set (randomHex O k)
           (routeThrough O k (routeTimeout s) requirements best)
           (activeRoutes s)
    /\ clientSessions s' = clientSessions s
    /\ discoveredNodes s' = discoveredNodes s
    /\ maxCacheSize s' = maxCacheSize s
    /\ routeTimeout s' = routeTimeout s
    /\ emitted s'
       = emitted s
         ++ [RouteCreated (routeThrough O k (routeTimeout s) requirements best)].
Proof.
  intros Hne Hknown.
  unfold computeRoute. unfold bind at 1, getAvailableNodes, gets.
  cbn [self reads].
  destruct (findOptimalPath_known O _ requirements (mkWorld k s) Hne Hknown)
    as (best & Hin & Hpath).
  destruct (List.filter (available requirements) (discoveredNodes s))
    as [|c cs] eqn:Hc; [congruence|].
  unfold bind at 1. rewrite Hpath.
  unfold bind at 1, generateRandomString. cbn [self reads].
  unfold bind at 1, now. cbn [self reads].
  unfold bind at 1, gets. cbn [self reads].
  unfold bind at 1.
  match goal with
  | |- context [ cacheRoute cacheKey ?r (mkWorld ?k1 s) ] =>
      destruct (cacheRoute_run cacheKey r k1 s)
        as (s1 & -> & Hcache & Ha & Hcs & Hd & Hm & Ht & He)
  end.
  unfold bind, modify, emit, ret. cbn [self reads]. unfold modify.
  cbn [self reads].
  exists best. eexists. split; [exact Hin|]. split; [reflexivity|].
  fields. rewrite Hcache, Ha, He.
  repeat split; assumption.
Qed.

(** X19. On a cache miss, with at least one candidate and one of the
    four algorithms, [findRoute] returns a new route: one hop through a
    discovered node that meets the requirements, expiring
    [routeTimeout] after the clock reading, encrypted unless encryption
    was asked to be [false]; the route is in the cache under the key of
    the lookup and in the active-route table under its identifier, and
    [route:created] is emitted. *)
Theorem findRoute_creates (destination : string)
    (requirements : RouteRequirements) (k : nat) (s : TrafficRouter) :
  JSMap.get (generateCacheKey O stringify destination requirements)
            (routeCache s) = None ->
  List.filter (available requirements) (discoveredNodes s) <> [] ->
  knownAlgorithm (algorithmOf requirements) ->
  exists best r s',
    findRoute O stringify destination requirements (mkWorld k s)
      = (Returned r, mkWorld (2 + k) s')
    /\ In best (discoveredNodes s) /\ available requirements best = true
    /\ nodes r = Some [id best]
    /\ route_id r = randomHex O k
    /\ expiresAt r = clock O (S k) + routeTimeout s
    /\ encrypted r = match encryption requirements with
                     | Some false => false
                     | _ => true
                     end
    /\ JSMap.get (generateCacheKey O stringify destination requirements)
                 (routeCache s') = Some r
    /\ JSMap.get (route_id r) (activeRoutes s') = Some r
    /\ clientSessions s' = clientSessions s
    /\ emitted s' = emitted s ++ [RouteCreated r].
Proof.
  intros Hmiss Hne Hknown.
  destruct (computeRoute_creates
              (generateCacheKey O stringify destination requirements)
              destination requirements k s Hne Hknown)
    as (best & s' & Hin & Hrun & Hcache & Hact & Hcs & _ & _ & _ & Hev).
  exists best, (routeThrough O k (routeTimeout s) requirements best), s'.
  split.
  { rewrite findRoute_unfold. cbv zeta. unfold tryCatch.
    unfold bind at 1, gets. cbn [self reads]. rewrite Hmiss.
    now rewrite Hrun. }
  apply filter_In in Hin as [Hdisc Hav].
  repeat split; try assumption.
  - rewrite Hcache. apply get_set_eq.
  - rewrite Hact. apply get_set_eq.
Qed.

(** X20. A lookup that has just created a route, repeated while the
    clock is still below the expiry of the route, returns the same route
    and neither computes nor changes anything. *)
Theorem findRoute_repeat (destination : string)
    (requirements : RouteRequirements) (k : nat) (s : TrafficRouter) :
  JSMap.get (generateCacheKey O stringify destination requirements)
            (routeCache s) = None ->
  List.filter (available requirements) (discoveredNodes s) <> [] ->
  knownAlgorithm (algorithmOf requirements) ->
  clock O (2 + k) < clock O (S k) + routeTimeout s ->
  exists r s',
    findRoute O stringify destination requirements (mkWorld k s)
      = (Returned r, mkWorld (2 + k) s')
    /\ findRoute O stringify destination requirements (mkWorld (2 + k) s')
       = (Returned r, mkWorld (3 + k) s').
Proof.
  intros Hmiss Hne Hknown Hfresh.
  destruct (computeRoute_creates
              (generateCacheKey O stringify destination requirements)
              destination requirements k s Hne Hknown)
    as (best & s' & _ & Hrun & Hcache & _).
  exists (routeThrough O k (routeTimeout s) requirements best), s'.
  split.
  - rewrite findRoute_unfold. cbv zeta. unfold tryCatch.
    unfold bind at 1, gets. cbn [self reads]. rewrite Hmiss.
    now rewrite Hrun.
  - apply findRoute_hit.
    + rewrite Hcache. apply get_set_eq.
    + exact Hfresh.
Qed.

(** X21. A cached route is served strictly before its expiry only.
    When the clock reading equals or exceeds the expiry of the cached
    route, [findRoute] drops it and, with candidates and a known
    algorithm, returns a newly created route that replaces it in the
    cache. *)
Theorem findRoute_expired (destination : string)
    (requirements : RouteRequirements) (k : nat) (s : TrafficRouter)
    (cached : Route) :
  JSMap.get (generateCacheKey O stringify destination requirements)
            (routeCache s) = Some cached ->
  expiresAt cached <= clock O k ->
  List.filter (available requirements) (discoveredNodes s) <> [] ->
  knownAlgorithm (algorithmOf requirements) ->
  exists r s',
    findRoute O stringify destination requirements (mkWorld k s)
      = (Returned r, mkWorld (3 + k) s')
    /\ route_id r = randomHex O (S k)
    /\ expiresAt r = clock O (2 + k) + routeTimeout s
    /\ JSMap.get (generateCacheKey O stringify destination requirements)
                 (routeCache s') = Some r
    /\ In (RouteCreated r) (emitted s').
Proof.
  intros Hget Hexp Hne Hknown.
  set (key := generateCacheKey O stringify destination requirements) in *.
  destruct (computeRoute_creates key destination requirements (S k)
              (with_routeCache (JSMap.delete key) s) Hne Hknown)
    as (best & s' & _ & Hrun & Hcache & _ & _ & _ & _ & _ & Hev).
  fields.
  exists (routeThrough O (S k) (routeTimeout s) requirements best), s'.
  split.
  { rewrite findRoute_unfold. cbv zeta. fold key. unfold tryCatch.
    unfold bind at 1, gets. cbn [self reads]. rewrite Hget.
    unfold bind at 1, now. cbn [self reads].
    assert (Hold : (clock O k <? expiresAt cached) = false)
      by now apply Z.ltb_ge.
    rewrite Hold. unfold bind at 1, modify. cbn [self reads].
    now rewrite Hrun. }
  repeat split.
  - rewrite Hcache. apply get_set_eq.
  - rewrite Hev. apply in_or_app. right. now left.
Qed.

(** Computing a route when the optimizer gave back a truthy value that
    is no path. *)
Lemma computeRoute_without_path cacheKey destination requirements k s :
  List.filter (available requirements) (discoveredNodes s) <> [] ->
  ~ knownAlgorithm (algorithmOf requirements) ->
  inherited (algorithmOf requirements) = Some Wraps
  \/ inherited (algorithmOf requirements) = Some Describes ->
  exists s',
    computeRoute O cacheKey destination requirements (mkWorld k s)
      = (Returned (routeWithoutPath O k (routeTimeout s) requirements),
         mkWorld (2 + k) s')
    /\ routeCache s'
       = JSMap.set cacheKey
           (routeWithoutPath O k (routeTimeout s) requirements)
           (evicted (maxCacheSize s) (routeCache s))
    /\ activeRoutes s'
       = JSMap.set (randomHex O k)
           (routeWithoutPath O k (routeTimeout s) requirements)
           (activeRoutes s)
    /\ clientSessions s' = clientSessions s
    /\ emitted s'
       = emitted s
         ++ [RouteCreated (routeWithoutPath O k (routeTimeout s) requirements)].
Proof.
  intros Hne Hunknown Hinh.
  unfold computeRoute. unfold bind at 1, getAvailableNodes, gets.
  cbn [self reads].
  destruct (List.filter (available requirements) (discoveredNodes s))
    as [|c cs] eqn:Hc; [congruence|].
  unfold bind at 1. rewrite (findOptimalPath_unknown O _ _ Hunknown).
  assert (Hret : match inherited (algorithmOf requirements) with
                 | Some Wraps | Some Describes => ret (NotAPath true)
                 | Some Denies => ret (NotAPath false)
                 | Some NeedsReceiver =>
                     throw (NativeError
                              (receiverError O (algorithmOf requirements)))
                 | Some NotCallable =>
                     throw (NativeError "optimizer is not a function")
                 | None =>
                     throw (NetworkNeuronError
                              ("Unknown optimization algorithm: "
                               +:+ algorithmOf requirements)
                              "UNKNOWN_ALGORITHM")
                 end (mkWorld k s)
                 = (Returned (NotAPath true), mkWorld k s)).
  { destruct Hinh as [-> | ->]; reflexivity. }
  rewrite Hret.
  unfold bind at 1, generateRandomString. cbn [self reads].
  unfold bind at 1, now. cbn [self reads].
  unfold bind at 1, gets. cbn [self reads].
  unfold bind at 1.
  match goal with
  | |- context [ cacheRoute cacheKey ?r (mkWorld ?k1 s) ] =>
      destruct (cacheRoute_run cacheKey r k1 s)
        as (s1 & -> & Hcache & Ha & Hcs & Hd & Hm & Ht & He)
  end.
  unfold bind, modify, emit, ret. cbn [self reads]. unfold modify.
  cbn [self reads].
  eexists. split; [reflexivity|].
  fields. rewrite Hcache, Ha, He.
  repeat split; assumption.
Qed.

(** Computing a route when the optimizer threw, or gave back
    [false]. *)
Lemma computeRoute_throws cacheKey destination requirements k s :
  List.filter (available requirements) (discoveredNodes s) <> [] ->
  ~ knownAlgorithm (algorithmOf requirements) ->
  computeRoute O cacheKey destination requirements (mkWorld k s)
  = match inherited (algorithmOf requirements) with
    | Some Wraps | Some Describes =>
        computeRoute O cacheKey destination requirements (mkWorld k s)
    | Some Denies => (Thrown (RouteNotFoundError destination), mkWorld k s)
    | Some NeedsReceiver =>
        (Thrown (NativeError (receiverError O (algorithmOf requirements))),
         mkWorld k s)
    | Some NotCallable =>
        (Thrown (NativeError "optimizer is not a function"), mkWorld k s)
    | None =>
        (Thrown (NetworkNeuronError
                   ("Unknown optimization algorithm: "
                    +:+ algorithmOf requirements)
                   "UNKNOWN_ALGORITHM"), mkWorld k s)
    end.
Proof.
  intros Hne Hunknown.
  destruct (inherited (algorithmOf requirements)) as [[| | | |]|] eqn:Hinh;
    try reflexivity;
    unfold computeRoute; unfold bind at 1, getAvailableNodes, gets;
    cbn [self reads];
    (destruct (List.filter (available requirements) (discoveredNodes s))
       as [|c cs] eqn:Hc; [congruence|]);
    unfold bind at 1; rewrite (findOptimalPath_unknown O _ _ Hunknown), Hinh;
    reflexivity.
Qed.

(** X22. On a cache miss with candidates, an algorithm name that is
    none of the four is looked up in the optimizer table all the same,
    a plain object, and so in [Object.prototype].  A name that is not
    found there makes [findRoute] fail with the unknown-algorithm error
    inside the [ROUTE_FINDING_ERROR] wrapper, and nothing changes.  The
    names [constructor] and [toString] are found and called, and give
    back a value that is no path: [findRoute] returns a route without
    hop list, latency, bandwidth and cost, caches it, registers it and
    emits [route:created].  The name [isPrototypeOf] gives back [false]:
    the route-not-found error.  The other inherited names throw a
    [TypeError], which the wrapper reports; nothing changes. *)
Theorem findRoute_unknown_algorithm (destination : string)
    (requirements : RouteRequirements) (k : nat) (s : TrafficRouter) :
  JSMap.get (generateCacheKey O stringify destination requirements)
            (routeCache s) = None ->
  List.filter (available requirements) (discoveredNodes s) <> [] ->
  ~ knownAlgorithm (algorithmOf requirements) ->
  (inherited (algorithmOf requirements) = None ->
   findRoute O stringify destination requirements (mkWorld k s)
   = (Thrown (RouteFindingError
                (NetworkNeuronError
                   ("Unknown optimization algorithm: "
                    +:+ algorithmOf requirements)
                   "UNKNOWN_ALGORITHM")),
      mkWorld k s))
  /\ (inherited (algorithmOf requirements) = Some Wraps
      \/ inherited (algorithmOf requirements) = Some Describes ->
      exists r s',
        findRoute O stringify destination requirements (mkWorld k s)
          = (Returned r, mkWorld (2 + k) s')
        /\ r = routeWithoutPath O k (routeTimeout s) requirements
        /\ nodes r = None
        /\ JSMap.get (generateCacheKey O stringify destination requirements)
                     (routeCache s') = Some r
        /\ JSMap.get (route_id r) (activeRoutes s') = Some r
        /\ emitted s' = emitted s ++ [RouteCreated r])
  /\ (inherited (algorithmOf requirements) = Some Denies ->
      findRoute O stringify destination requirements (mkWorld k s)
      = (Thrown (RouteFindingError (RouteNotFoundError destination)),
         mkWorld k s))
  /\ (inherited (algorithmOf requirements) = Some NeedsReceiver ->
      findRoute O stringify destination requirements (mkWorld k s)
      = (Thrown (RouteFindingError
                   (NativeError (receiverError O (algorithmOf requirements)))),
         mkWorld k s))
  /\ (inherited (algorithmOf requirements) = Some NotCallable ->
      findRoute O stringify destination requirements (mkWorld k s)
      = (Thrown (RouteFindingError
                   (NativeError "optimizer is not a function")),
         mkWorld k s)).
Proof.
  intros Hmiss Hne Hunknown.
  assert (Hrun : findRoute O stringify destination requirements (mkWorld k s)
                 = tryCatch
                     (computeRoute O
                        (generateCacheKey O stringify destination requirements)
                        destination requirements)
                     (fun error => throw (RouteFindingError error))
                     (mkWorld k s)).
  { rewrite findRoute_unfold. cbv zeta. unfold tryCatch.
    unfold bind at 1, gets. cbn [self reads]. now rewrite Hmiss. }
  pose proof (computeRoute_throws
                (generateCacheKey O stringify destination requirements)
                destination requirements k s Hne Hunknown) as Hthrow.
  split; [|split; [|split; [|split]]].
  - intros Hinh. rewrite Hinh in Hthrow. rewrite Hrun. unfold tryCatch.
    now rewrite Hthrow.
  - intros Hinh.
    destruct (computeRoute_without_path
                (generateCacheKey O stringify destination requirements)
                destination requirements k s Hne Hunknown Hinh)
      as (s' & Hcomp & Hcache & Hact & _ & Hev).
    exists (routeWithoutPath O k (routeTimeout s) requirements), s'.
    split; [rewrite Hrun; unfold tryCatch; now rewrite Hcomp|].
    split; [reflexivity|]. split; [reflexivity|].
    split; [rewrite Hcache; apply get_set_eq|].
    split; [rewrite Hact; apply get_set_eq | exact Hev].
  - intros Hinh. rewrite Hinh in Hthrow. rewrite Hrun. unfold tryCatch.
    now rewrite Hthrow.
  - intros Hinh. rewrite Hinh in Hthrow. rewrite Hrun. unfold tryCatch.
    now rewrite Hthrow.
  - intros Hinh. rewrite Hinh in Hthrow. rewrite Hrun. unfold tryCatch.
    now rewrite Hthrow.
Qed.
End Lookup.

Lemma demo_balanced : knownAlgorithm (algorithmOf DemoRouter.anyRoute).
Proof. right. right. right. left. reflexivity. Qed.

Lemma findRoute_creates_witness :
  exists best r s',
    findRoute Demo.oracle DemoRouter.stringify "dest" DemoRouter.anyRoute
        (mkWorld 0 DemoRouter.mesh)
      = (Returned r, mkWorld 2 s')
    /\ In best (discoveredNodes DemoRouter.mesh)
    /\ available DemoRouter.anyRoute best = true
    /\ nodes r = Some [id best]
    /\ route_id r = randomHex Demo.oracle 0
    /\ expiresAt r = clock Demo.oracle 1 + routeTimeout DemoRouter.mesh
    /\ encrypted r = match encryption DemoRouter.anyRoute with
                     | Some false => false
                     | _ => true
                     end
    /\ JSMap.get (generateCacheKey Demo.oracle DemoRouter.stringify "dest"
                    DemoRouter.anyRoute)
                 (routeCache s') = Some r
    /\ JSMap.get (route_id r) (activeRoutes s') = Some r
    /\ clientSessions s' = clientSessions DemoRouter.mesh
    /\ emitted s' = emitted DemoRouter.mesh ++ [RouteCreated r].
Proof.
  refine (findRoute_creates Demo.oracle DemoRouter.stringify "dest"
            DemoRouter.anyRoute 0 DemoRouter.mesh _ _ _).
  - reflexivity.
  - vm_compute. discriminate.
  - exact demo_balanced.
Defined.

Lemma findRoute_repeat_witness :
  exists r s',
    findRoute Demo.oracle DemoRouter.stringify "dest" DemoRouter.anyRoute
        (mkWorld 0 DemoRouter.mesh)
      = (Returned r, mkWorld 2 s')
    /\ findRoute Demo.oracle DemoRouter.stringify "dest" DemoRouter.anyRoute
         (mkWorld 2 s')
       = (Returned r, mkWorld 3 s').
Proof.
  refine (findRoute_repeat Demo.oracle DemoRouter.stringify "dest"
            DemoRouter.anyRoute 0 DemoRouter.mesh _ _ _ _).
  - reflexivity.
  - vm_compute. discriminate.
  - exact demo_balanced.
  - vm_compute. reflexivity.
Defined.

Lemma findRoute_expired_witness :
  exists r s',
    findRoute Demo.oracle DemoRouter.stringify "dest" DemoRouter.anyRoute
        (mkWorld 301 (self DemoRouter.routed))
      = (Returned r, mkWorld 304 s')
    /\ route_id r = randomHex Demo.oracle 302
    /\ expiresAt r
       = clock Demo.oracle 303 + routeTimeout (self DemoRouter.routed)
    /\ JSMap.get (generateCacheKey Demo.oracle DemoRouter.stringify "dest"
                    DemoRouter.anyRoute)
                 (routeCache (self DemoRouter.routed)) = Some DemoRouter.cachedRoute
    /\ JSMap.get (generateCacheKey Demo.oracle DemoRouter.stringify "dest"
                    DemoRouter.anyRoute)
                 (routeCache s') = Some r
    /\ In (RouteCreated r) (emitted s').
Proof.
  assert (Hcached :
    JSMap.get (generateCacheKey Demo.oracle DemoRouter.stringify "dest"
                 DemoRouter.anyRoute)
              (routeCache (self DemoRouter.routed))
    = Some DemoRouter.cachedRoute) by (vm_compute; reflexivity).
  destruct (findRoute_expired Demo.oracle DemoRouter.stringify "dest"
              DemoRouter.anyRoute 301 (self DemoRouter.routed)
              DemoRouter.cachedRoute Hcached)
    as (r & s' & Hrun & Hid & Hexp & Hget & Hev).
  - vm_compute. intros H. discriminate H.
  - vm_compute. discriminate.
  - exact demo_balanced.
  - exists r, s'. repeat split; assumption.
Defined.

Lemma findRoute_unknown_algorithm_witness :
  findRoute Demo.oracle DemoRouter.stringify "dest" DemoRouter.fastest
    (mkWorld 0 DemoRouter.mesh)
  = (Thrown (RouteFindingError
               (NetworkNeuronError
                  ("Unknown optimization algorithm: "
                   +:+ algorithmOf DemoRouter.fastest)
                  "UNKNOWN_ALGORITHM")),
     mkWorld 0 DemoRouter.mesh)
  /\ exists r s',
       findRoute Demo.oracle DemoRouter.stringify "dest"
           DemoRouter.inheritedName (mkWorld 0 DemoRouter.mesh)
         = (Returned r, mkWorld 2 s')
       /\ r = routeWithoutPath Demo.oracle 0 (routeTimeout DemoRouter.mesh)
                DemoRouter.inheritedName
       /\ nodes r = None
       /\ JSMap.get (generateCacheKey Demo.oracle DemoRouter.stringify "dest"
                       DemoRouter.inheritedName)
                    (routeCache s') = Some r
       /\ JSMap.get (route_id r) (activeRoutes s') = Some r
       /\ emitted s' = emitted DemoRouter.mesh ++ [RouteCreated r].
Proof.
  split.
  - refine (proj1 (findRoute_unknown_algorithm Demo.oracle DemoRouter.stringify
                     "dest" DemoRouter.fastest 0 DemoRouter.mesh _ _ _) _).
    + reflexivity.
    + vm_compute. discriminate.
    + intros [H|[H|[H|[H|[]]]]]; discriminate H.
    + reflexivity.
  - refine (proj1 (proj2 (findRoute_unknown_algorithm Demo.oracle
                            DemoRouter.stringify "dest"
                            DemoRouter.inheritedName 0 DemoRouter.mesh _ _ _))
              _).
    + reflexivity.
    + vm_compute. discriminate.
    + intros [H|[H|[H|[H|[]]]]]; discriminate H.
    + right. reflexivity.
Defined.
End LookupExtras.

(** * The route cache, further *)

Module CacheExtras.
Import JS JSFacts JSMapFacts Router RouterSpec RouterFacts RouteFacts
       CandidateExtras LookupExtras.
Local Open Scope Z_scope.

Lemma evicted_set_bound (limit : nat) (cache : JSMap.t Route) key r :
  (1 <= limit)%nat ->
  (JSMap.size cache <= limit)%nat ->
  (JSMap.size (JSMap.set key r (evicted limit cache)) <= limit)%nat.
Proof.
  intros Hpos Hsize. unfold evicted.
  destruct (Nat.leb_spec limit (JSMap.size cache)) as [Hfull|Hroom].
  - destruct cache as [|[k0 r0] rest].
    + unfold JSMap.size in Hfull. simpl in Hfull. lia.
    + cbn [JSMap.firstKey].
      pose proof (size_delete_first ((k0, r0) :: rest) k0 eq_refl).
      pose proof (size_set_le (JSMap.delete k0 ((k0, r0) :: rest)) key r).
      lia.
  - pose proof (size_set_le cache key r). lia.
Qed.

(** Whatever the algorithm, choosing a path leaves the router alone. *)
Lemma findOptimalPath_pure (O : Oracle) candidates requirements
    (w : World TrafficRouter) :
  exists outcome, findOptimalPath O candidates requirements w = (outcome, w).
Proof.
  assert (P1 : exists o, findShortestPath candidates w = (o, w)).
  { unfold findShortestPath. destruct candidates; eexists; reflexivity. }
  assert (P2 : exists o, findLowestLatency candidates w = (o, w)).
  { unfold findLowestLatency. destruct (Sorting.sort _ _); eexists; reflexivity. }
  assert (P3 : exists o, findHighestBandwidth candidates w = (o, w)).
  { unfold findHighestBandwidth.
    destruct (Sorting.sort _ _); eexists; reflexivity. }
  assert (P4 : exists o, findBalancedPath candidates w = (o, w)).
  { unfold findBalancedPath.
    destruct (scoredNodes _) as [|[? ?] ?]; eexists; reflexivity. }
  unfold findOptimalPath, bind.
  destruct (String.eqb _ "shortestPath");
    [destruct P1 as [[p|e] ->]; eexists; reflexivity|].
  destruct (String.eqb _ "lowestLatency");
    [destruct P2 as [[p|e] ->]; eexists; reflexivity|].
  destruct (String.eqb _ "highestBandwidth");
    [destruct P3 as [[p|e] ->]; eexists; reflexivity|].
  destruct (String.eqb _ "balanced");
    [destruct P4 as [[p|e] ->]; eexists; reflexivity|].
  destruct (inherited _) as [[| | | |]|]; eexists; reflexivity.
Qed.

Section Bound.
Variable O : Oracle.
Variable stringify : RouteRequirements -> string.

Lemma computeRoute_bound cacheKey destination requirements k s outcome w' :
  (1 <= maxCacheSize s)%nat ->
  (JSMap.size (routeCache s) <= maxCacheSize s)%nat ->
  computeRoute O cacheKey destination requirements (mkWorld k s) = (outcome, w') ->
  (JSMap.size (routeCache (self w')) <= maxCacheSize (self w'))%nat
  /\ maxCacheSize (self w') = maxCacheSize s.
Proof.
  intros Hpos Hsize.
  unfold computeRoute. unfold bind at 1, getAvailableNodes, gets.
  cbn [self reads].
  destruct (List.filter (available requirements) (discoveredNodes s))
    as [|c cs].
  - intros [= _ <-]. cbn [self]. split; [exact Hsize | reflexivity].
  - unfold bind at 1.
    destruct (findOptimalPath_pure O (c :: cs) requirements (mkWorld k s))
      as ([p|e] & ->);
      [|intros [= _ <-]; cbn [self]; split; [exact Hsize | reflexivity]].
    assert (Hfalse : p = NotAPath false \/ p <> NotAPath false).
    { destruct p as [path|[|]]; [right|right|left]; congruence. }
    destruct Hfalse as [->|Hp].
    + intros [= _ <-]. cbn [self]. split; [exact Hsize | reflexivity].
    + assert (Hgo : forall (A : Type) (x y : A),
                match p with NotAPath false => x | _ => y end = y).
      { intros A x y. destruct p as [path|[|]]; congruence. }
      rewrite Hgo.
      unfold bind at 1, generateRandomString. cbn [self reads].
      unfold bind at 1, now. cbn [self reads].
      unfold bind at 1, gets. cbn [self reads].
      unfold bind at 1.
      match goal with
      | |- context [ cacheRoute cacheKey ?r (mkWorld ?k1 s) ] =>
          destruct (cacheRoute_run cacheKey r k1 s)
            as (s1 & -> & Hcache & _ & _ & _ & Hm & _);
          pose proof (evicted_set_bound (maxCacheSize s) (routeCache s)
                        cacheKey r Hpos Hsize) as Hbound
      end.
      unfold bind, modify, emit, ret. cbn [self reads]. unfold modify.
      cbn [self reads].
      intros [= _ <-]. fields. rewrite Hcache, Hm.
      split; [exact Hbound | reflexivity].
Qed.

(** X23. Whatever a lookup does (serves the cache, fails, or creates a
    route), the route cache stays within [maxCacheSize], provided it was
    within it before and the limit is at least one; the limit itself is
    never changed. *)
Theorem findRoute_cache_bound (destination : string)
    (requirements : RouteRequirements) (k : nat) (s : TrafficRouter)
    (outcome : Outcome Route) (w' : World TrafficRouter) :
  (1 <= maxCacheSize s)%nat ->
  (JSMap.size (routeCache s) <= maxCacheSize s)%nat ->
  findRoute O stringify destination requirements (mkWorld k s) = (outcome, w') ->
  (JSMap.size (routeCache (self w')) <= maxCacheSize (self w'))%nat
  /\ maxCacheSize (self w') = maxCacheSize s.
Proof.
  intros Hpos Hsize.
  rewrite findRoute_unfold. cbv zeta.
  set (key := generateCacheKey O stringify destination requirements).
  unfold tryCatch. unfold bind at 1, gets. cbn [self reads].
  destruct (JSMap.get key (routeCache s)) as [cached|].
  - unfold bind at 1, now. cbn [self reads].
    destruct (clock O k <? expiresAt cached)%Z.
    + unfold ret. intros [= _ <-]. cbn [self]. split; [exact Hsize | reflexivity].
    + unfold bind at 1, modify. cbn [self reads].
      destruct (computeRoute O key destination requirements
                  (mkWorld (S k) (with_routeCache (JSMap.delete key) s)))
        as [[r|e] w1] eqn:Hrun;
        (apply computeRoute_bound in Hrun;
         [| exact Hpos
          | fields; pose proof (size_delete_le (routeCache s) key); lia]);
        fields; unfold throw; intros [= _ <-]; exact Hrun.
  - destruct (computeRoute O key destination requirements (mkWorld k s))
      as [[r|e] w1] eqn:Hrun;
      (apply computeRoute_bound in Hrun; [| exact Hpos | exact Hsize]);
      unfold throw; intros [= _ <-]; exact Hrun.
Qed.
End Bound.

Lemma findRoute_cache_bound_witness :
  (JSMap.size (routeCache (self DemoRouter.thirdKey))
   <= maxCacheSize (self DemoRouter.thirdKey))%nat
  /\ maxCacheSize (self DemoRouter.thirdKey)
     = maxCacheSize (self DemoRouter.reused).
Proof.
  refine (findRoute_cache_bound Demo.oracle DemoRouter.stringify "d3"
            DemoRouter.anyRoute (reads DemoRouter.reused) (self DemoRouter.reused)
            (fst (DemoRouter.find "d3"
                    (mkWorld (reads DemoRouter.reused) (self DemoRouter.reused))))
            DemoRouter.thirdKey _ _ _).
  - vm_compute. lia.
  - vm_compute. lia.
  - vm_compute. reflexivity.
Defined.

Lemma set_fresh {V} (m : JSMap.t V) key (v : V) :
  JSMap.get key m = None -> JSMap.set key v m = m ++ [(key, v)].
Proof.
  induction m as [|[k0 v0] m IH]; cbn [JSMap.get JSMap.set]; [reflexivity|].
  destruct (String.eqb key k0); [discriminate|].
  intros H. now rewrite IH.
Qed.

Lemma get_None_not_key {V} (m : JSMap.t V) key :
  ~ In key (JSMap.keys m) -> JSMap.get key m = None.
Proof.
  intros H. apply get_None_iff. intros v Hin. apply H.
  apply (in_map fst) in Hin. exact Hin.
Qed.

(** X24. Eviction is by age of insertion.  When the cache is full and
    the key is new, [cacheRoute] removes the entry that was inserted
    first, keeps the others in their order and appends the new one. *)
Theorem cacheRoute_evicts_first_inserted (key : string) (r : Route) (k : nat)
    (s : TrafficRouter) (firstKey : string) (firstRoute : Route)
    (rest : JSMap.t Route) :
  routeCache s = (firstKey, firstRoute) :: rest ->
  List.NoDup (JSMap.keys (routeCache s)) ->
  (maxCacheSize s <= JSMap.size (routeCache s))%nat ->
  JSMap.get key (routeCache s) = None ->
  exists s',
    cacheRoute key r (mkWorld k s) = (Returned tt, mkWorld k s')
    /\ routeCache s' = rest ++ [(key, r)]
    /\ activeRoutes s' = activeRoutes s.
Proof.
  intros Hcache Hnodup Hfull Hnew.
  destruct (cacheRoute_run key r k s) as (s' & Hrun & Hc & Ha & _).
  exists s'. split; [exact Hrun|]. split; [|exact Ha].
  rewrite Hc. apply Nat.leb_le in Hfull. rewrite Hfull, Hcache.
  rewrite Hcache in Hnodup, Hnew. cbn [JSMap.firstKey JSMap.delete].
  rewrite String.eqb_refl.
  cbn [JSMap.keys map fst] in Hnodup. inversion Hnodup as [|? ? Hnotin _]; subst.
  rewrite (get_None_delete rest firstKey (get_None_not_key _ _ Hnotin)).
  apply set_fresh.
  cbn [JSMap.get] in Hnew. destruct (String.eqb key firstKey); [discriminate|].
  exact Hnew.
Qed.

Lemma cacheRoute_evicts_first_inserted_witness :
  exists firstRoute rest s',
    routeCache (self DemoRouter.reused) = ("d1:{}"%string, firstRoute) :: rest
    /\ cacheRoute "d3:{}" DemoRouter.cachedRoute
         (mkWorld 0 (self DemoRouter.reused))
       = (Returned tt, mkWorld 0 s')
    /\ routeCache s' = rest ++ [("d3:{}"%string, DemoRouter.cachedRoute)]
    /\ activeRoutes s' = activeRoutes (self DemoRouter.reused).
Proof.
  assert (Hcache : exists firstRoute rest,
            routeCache (self DemoRouter.reused)
            = ("d1:{}"%string, firstRoute) :: rest).
  { do 2 eexists. vm_compute. reflexivity. }
  destruct Hcache as (firstRoute & rest & Hcache).
  destruct (cacheRoute_evicts_first_inserted "d3:{}" DemoRouter.cachedRoute 0
              (self DemoRouter.reused) "d1:{}" firstRoute rest Hcache)
    as (s' & Hrun & Hc & Ha).
  - vm_compute. repeat constructor; simpl; intuition discriminate.
  - vm_compute. lia.
  - vm_compute. reflexivity.
  - exists firstRoute, rest, s'. repeat split; assumption.
Defined.

(** The second loop of [handlePeerDisconnection] on any sessions:
    however it ends, the cache is as before. *)
Lemma closeSessions_cache (O : Oracle) (peer : string)
    (entries : list (string * ClientSession)) : forall k s,
  exists outcome k' s',
    forEach entries
      (fun e =>
         let* found := hopsInclude peer (route (snd e)) in
         if found then closeSession O (fst e) else ret tt)
      (mkWorld k s)
    = (outcome, mkWorld k' s')
    /\ routeCache s' = routeCache s.
Proof.
  induction entries as [|[sid0 c0] entries IH]; intros k s; cbn [forEach].
  - exists (Returned tt), k, s. split; reflexivity.
  - unfold bind at 1. cbn [fst snd]. unfold bind at 1.
    destruct (nodes (route c0)) as [l0|] eqn:Hn0.
    + rewrite (hopsInclude_hops peer (route c0) l0 _ Hn0).
      destruct (includes peer l0).
      * destruct (closeSession_run O sid0 k s)
          as (k1 & s1 & evs1 & -> & _ & Hrc1 & _).
        destruct (IH k1 s1) as (outcome & k2 & s2 & -> & Hrc2).
        exists outcome, k2, s2. split; [reflexivity | congruence].
      * unfold ret at 1.
        destruct (IH k s) as (outcome & k2 & s2 & -> & Hrc2).
        exists outcome, k2, s2. split; [reflexivity | exact Hrc2].
    + rewrite (hopsInclude_fails peer (route c0) _ Hn0).
      exists (Thrown NoHops), k, s. split; reflexivity.
Qed.

(** X25. [handlePeerDisconnection] never touches the route cache:
    however the call ends, the cache after it is the cache before it,
    routes through the disconnected peer included.  The call returns
    when every active route and every session's route has a hop list. *)
Theorem handlePeerDisconnection_keeps_cache (O : Oracle) (peer : string)
    (k : nat) (s : TrafficRouter) :
  exists outcome k' s',
    handlePeerDisconnection O peer (mkWorld k s) = (outcome, mkWorld k' s')
    /\ routeCache s' = routeCache s
    /\ ((forall rid r, In (rid, r) (activeRoutes s) -> hasHops r) ->
        (forall sid c, In (sid, c) (clientSessions s) -> hasHops (route c)) ->
        outcome = Returned tt).
Proof.
  unfold handlePeerDisconnection. unfold bind at 1, gets. cbn [self reads].
  unfold bind at 1.
  pose proof (keysThrough_state peer (activeRoutes s) (mkWorld k s)) as Hstate.
  destruct (keysThrough peer (activeRoutes s) (mkWorld k s))
    as [[ids|e] w1] eqn:Hkeys; cbn [snd] in Hstate; subst w1.
  - unfold bind at 1.
    destruct (removeRoutes_run ids k s) as (s1 & evs1 & -> & Hcs1 & Hrc1 & _).
    unfold bind at 1. cbn [self reads]. rewrite Hcs1.
    destruct (closeSessions_cache O peer (clientSessions s) k s1)
      as (outcome & k2 & s2 & Hrun & Hrc2).
    exists outcome, k2, s2. split; [exact Hrun|]. split; [congruence|].
    intros _ Hsessions.
    destruct (closeSessions_run O peer (clientSessions s) k s1
                (Forall_entries (fun c => hasHops (route c)) _ Hsessions))
      as (k3 & s3 & evs3 & Hrun3 & _).
    rewrite Hrun3 in Hrun. congruence.
  - exists (Thrown e), k, s. split; [reflexivity|]. split; [reflexivity|].
    intros Hroutes _.
    rewrite (keysThrough_hops peer (activeRoutes s) (mkWorld k s)
               (Forall_entries hasHops _ Hroutes)) in Hkeys.
    discriminate Hkeys.
Qed.

Lemma handlePeerDisconnection_keeps_cache_witness :
  exists k' s',
    handlePeerDisconnection Demo.oracle "node-1"
        (mkWorld (reads DemoRouter.routed) (self DemoRouter.routed))
      = (Returned tt, mkWorld k' s')
    /\ routeCache s' = routeCache (self DemoRouter.routed).
Proof.
  destruct (handlePeerDisconnection_keeps_cache Demo.oracle "node-1"
              (reads DemoRouter.routed) (self DemoRouter.routed))
    as (outcome & k' & s' & Hrun & Hcache & Hreturns).
  exists k', s'. split; [|exact Hcache].
  rewrite Hrun, Hreturns; [reflexivity| |].
  - intros rid r Hin. vm_compute in Hin. destruct Hin as [H|[]].
    injection H as _ <-. discriminate.
  - intros sid c Hin. vm_compute in Hin. destruct Hin.
Defined.

(** A route without hop list in the active-route table: the call
    throws before it removes anything. *)
Example handlePeerDisconnection_pathless :
  activeRoutes (self DemoRouter.pathless)
  = [("id0"%string,
      routeWithoutPath Demo.oracle 0 300000 DemoRouter.inheritedName)]
  /\ handlePeerDisconnection Demo.oracle "node-1" DemoRouter.pathless
     = (Thrown NoHops, DemoRouter.pathless).
Proof. split; vm_compute; reflexivity. Qed.

Lemma deleteAll_head {V} (ks : list string) (e : string * V) (rest : JSMap.t V) :
  ~ In (fst e) ks ->
  fold_left (fun m key => JSMap.delete key m) ks (e :: rest)
  = e :: fold_left (fun m key => JSMap.delete key m) ks rest.
Proof.
  revert rest. induction ks as [|k0 ks IH]; intros rest Hnot; [reflexivity|].
  cbn [fold_left JSMap.delete]. destruct e as [k v]. cbn [fst] in Hnot.
  destruct (String.eqb_spec k0 k) as [->|Hne].
  - exfalso. apply Hnot. now left.
  - apply IH. intros H. apply Hnot. now right.
Qed.

Lemma deleteAll_filter {V} (P : string * V -> bool) (m : JSMap.t V) :
  List.NoDup (JSMap.keys m) ->
  fold_left (fun m key => JSMap.delete key m) (map fst (List.filter P m)) m
  = List.filter (fun e => negb (P e)) m.
Proof.
  induction m as [|[k0 v0] rest IH]; intros Hnodup; [reflexivity|].
  cbn [JSMap.keys map fst] in Hnodup.
  inversion Hnodup as [|? ? Hnotin Hrest]; subst.
  cbn [List.filter]. destruct (P (k0, v0)) eqn:HP; cbn [negb map fst fold_left].
  - cbn [JSMap.delete]. rewrite String.eqb_refl.
    rewrite (get_None_delete rest k0 (get_None_not_key _ _ Hnotin)).
    now apply IH.
  - rewrite deleteAll_head.
    + f_equal. now apply IH.
    + cbn [fst]. intros Hin. apply Hnotin.
      apply in_map_iff in Hin as (e & <- & He).
      apply filter_In in He as [He _]. now apply (in_map fst).
Qed.

Lemma deleteKeys_run (ks : list string) : forall k s,
  exists s',
    forEach ks (fun key => modify (with_routeCache (JSMap.delete key)))
      (mkWorld k s)
    = (Returned tt, mkWorld k s')
    /\ routeCache s'
       = fold_left (fun m key => JSMap.delete key m) ks (routeCache s)
    /\ activeRoutes s' = activeRoutes s
    /\ clientSessions s' = clientSessions s
    /\ emitted s' = emitted s.
Proof.
  set (body := fun key : string => modify (with_routeCache (JSMap.delete key))).
  induction ks as [|k0 ks IH]; intros k s; cbn [forEach].
  - unfold ret. exists s. repeat split.
  - unfold bind at 1.
    assert (Hstep : body k0 (mkWorld k s)
              = (Returned tt, mkWorld k (with_routeCache (JSMap.delete k0) s)))
      by reflexivity.
    rewrite Hstep.
    destruct (IH k (with_routeCache (JSMap.delete k0) s))
      as (s' & -> & Hc & Ha & Hcs & He).
    exists s'. split; [reflexivity|]. fields. repeat split; assumption.
Qed.

(** X26. [invalidateRouteCache(node)], when every cached route has a
    hop list, removes from the cache exactly the routes whose hop list
    contains the node and keeps the others in their order; the
    active-route table and the sessions are not touched.  When a cached
    route has no hop list, the call throws the [TypeError] of reading
    [includes] of [undefined] and removes nothing. *)
Theorem invalidateRouteCache_purges (node : string) (k : nat)
    (s : TrafficRouter) :
  List.NoDup (JSMap.keys (routeCache s)) ->
  ((forall key r, In (key, r) (routeCache s) -> hasHops r) ->
   exists s',
     invalidateRouteCache node (mkWorld k s) = (Returned tt, mkWorld k s')
     /\ routeCache s'
        = List.filter (fun e => negb (includes node (hops (snd e))))
                      (routeCache s)
     /\ (forall key r, In (key, r) (routeCache s') -> ~ In node (hops r))
     /\ activeRoutes s' = activeRoutes s
     /\ clientSessions s' = clientSessions s)
  /\ (forall key r, In (key, r) (routeCache s) -> nodes r = None ->
      invalidateRouteCache node (mkWorld k s) = (Thrown NoHops, mkWorld k s)).
Proof.
  intros Hnodup. split.
  - intros Hwf.
    unfold invalidateRouteCache. unfold bind at 1, gets. cbn [self reads].
    unfold bind at 1.
    rewrite (keysThrough_hops node (routeCache s) (mkWorld k s)
               (Forall_entries hasHops _ Hwf)).
    match goal with
    | |- context [ forEach ?ks _ (mkWorld k s) ] =>
        destruct (deleteKeys_run ks k s) as (s' & -> & Hc & Ha & Hcs & _)
    end.
    exists s'. split; [reflexivity|].
    rewrite (deleteAll_filter (fun e => includes node (hops (snd e)))
               (routeCache s) Hnodup) in Hc.
    split; [exact Hc|]. split; [|split; assumption].
    intros key r Hin. rewrite Hc in Hin. apply filter_In in Hin as [_ Hin].
    apply negb_true_iff in Hin. cbn [snd] in Hin. now apply includes_not_In.
  - intros key r Hin Hnone.
    unfold invalidateRouteCache. unfold bind at 1, gets. cbn [self reads].
    unfold bind at 1. rewrite keysThrough_fails; [reflexivity|].
    intros Hall. rewrite List.Forall_forall in Hall.
    apply (Hall (key, r) Hin). exact Hnone.
Qed.

Lemma invalidateRouteCache_purges_witness :
  (exists s',
     invalidateRouteCache "node-1" (mkWorld 0 (self DemoRouter.thirdKey))
       = (Returned tt, mkWorld 0 s')
     /\ routeCache s'
        = List.filter (fun e => negb (includes "node-1" (hops (snd e))))
                      (routeCache (self DemoRouter.thirdKey))
     /\ (forall key r, In (key, r) (routeCache s') ->
                       ~ In "node-1"%string (hops r))
     /\ activeRoutes s' = activeRoutes (self DemoRouter.thirdKey)
     /\ clientSessions s' = clientSessions (self DemoRouter.thirdKey))
  /\ invalidateRouteCache "node-1" (mkWorld 0 (self DemoRouter.pathless))
     = (Thrown NoHops, mkWorld 0 (self DemoRouter.pathless)).
Proof.
  split.
  - refine (proj1 (invalidateRouteCache_purges "node-1" 0
                     (self DemoRouter.thirdKey) _) _).
    + vm_compute. repeat constructor; simpl; intuition discriminate.
    + intros key r Hin. vm_compute in Hin.
      destruct Hin as [H|[H|[]]]; injection H as _ <-; discriminate.
  - refine (proj2 (invalidateRouteCache_purges "node-1" 0
                     (self DemoRouter.pathless) _)
              "dest:{algorithm:toString}"%string
              (routeWithoutPath Demo.oracle 0 300000 DemoRouter.inheritedName)
              _ _).
    + vm_compute. repeat constructor; simpl; intuition discriminate.
    + vm_compute. left. reflexivity.
    + reflexivity.
Defined.
End CacheExtras.

(** * Client sessions, further *)

Module SessionExtras.
Import JS JSFacts JSMapFacts Router RouterSpec RouterFacts RouteFacts
       CandidateExtras LookupExtras CacheExtras.
Local Open Scope Z_scope.

Lemma delete_set_fresh {V} (m : JSMap.t V) key (v : V) :
  JSMap.get key m = None -> JSMap.delete key (JSMap.set key v m) = m.
Proof.
  intros H. rewrite (set_fresh m key v H).
  induction m as [|[k0 v0] m IH]; cbn [app JSMap.delete].
  - now rewrite String.eqb_refl.
  - cbn [JSMap.get] in H. destruct (String.eqb key k0); [discriminate|].
    now rewrite IH.
Qed.

Section Sessions.
Variable O : Oracle.
Variable stringify : RouteRequirements -> string.

(** [createSession] after a lookup that returned a route with a hop
    list. *)
Lemma createSession_after client requirements w r hops k1 s1 :
  findRoute O stringify client requirements w = (Returned r, mkWorld k1 s1) ->
  nodes r = Some hops ->
  exists s',
    createSession O stringify client requirements w
      = (Returned {| session_id := randomHex O k1; clientId := client;
                     nodeId := head hops; startTime := clock O (S k1);
                     bytesTransferred := 0; session_isActive := true;
                     route := r |},
         mkWorld (2 + k1) s')
    /\ clientSessions s'
       = JSMap.set (randomHex O k1)
           {| session_id := randomHex O k1; clientId := client;
              nodeId := head hops; startTime := clock O (S k1);
              bytesTransferred := 0; session_isActive := true; route := r |}
           (clientSessions s1)
    /\ activeRoutes s' = activeRoutes s1
    /\ routeCache s' = routeCache s1
    /\ emitted s'
       = emitted s1
         ++ [SessionCreated
               {| session_id := randomHex O k1; clientId := client;
                  nodeId := head hops; startTime := clock O (S k1);
                  bytesTransferred := 0; session_isActive := true;
                  route := r |}].
Proof.
  intros Hfind Hhops. unfold createSession, tryCatch. unfold bind at 1.
  rewrite Hfind.
  unfold bind at 1, generateRandomString. cbn [self reads].
  rewrite Hhops.
  unfold bind, now, modify, emit, ret.
  cbn [self reads]. unfold modify. cbn [self reads].
  eexists. split; [reflexivity|]. fields. repeat split.
Qed.

(** X27. [createSession(client, requirements)] looks up a route to the
    client id.  On a cache miss with candidates and a known algorithm it
    returns an active session with no bytes transferred, bound to the new
    route and to the route's only hop, and stores it in the session
    table under its identifier; on a cache miss without candidates it
    fails with the route-not-found error wrapped twice, first by
    [findRoute], then by [createSession], and stores nothing. *)
Theorem createSession_outcomes (client : string)
    (requirements : RouteRequirements) (k : nat) (s : TrafficRouter) :
  JSMap.get (generateCacheKey O stringify client requirements)
            (routeCache s) = None ->
  (List.filter (available requirements) (discoveredNodes s) <> [] ->
   knownAlgorithm (algorithmOf requirements) ->
   exists best session s',
     createSession O stringify client requirements (mkWorld k s)
       = (Returned session, mkWorld (4 + k) s')
     /\ In best (discoveredNodes s) /\ available requirements best = true
     /\ nodes (route session) = Some [id best]
     /\ nodeId session = Some (id best)
     /\ clientId session = client
     /\ session_isActive session = true
     /\ bytesTransferred session = 0%Q
     /\ JSMap.get (session_id session) (clientSessions s') = Some session
     /\ JSMap.get (route_id (route session)) (activeRoutes s')
        = Some (route session))
  /\ (List.filter (available requirements) (discoveredNodes s) = [] ->
      createSession O stringify client requirements (mkWorld k s)
      = (Thrown (SessionCreationError
                   (RouteFindingError (RouteNotFoundError client))),
         mkWorld k s)).
Proof.
  intros Hmiss. split.
  - intros Hne Hknown.
    destruct (computeRoute_creates O
                (generateCacheKey O stringify client requirements)
                client requirements k s Hne Hknown)
      as (best & s1 & Hin & Hrun & _ & Hact & _).
    assert (Hfind : findRoute O stringify client requirements (mkWorld k s)
              = (Returned (routeThrough O k (routeTimeout s) requirements best),
                 mkWorld (2 + k) s1)).
    { rewrite findRoute_unfold. cbv zeta. unfold tryCatch.
      unfold bind at 1, gets. cbn [self reads]. rewrite Hmiss.
      now rewrite Hrun. }
    destruct (createSession_after client requirements _ _ [id best] _ _ Hfind
                eq_refl)
      as (s' & Hcreate & Hcs & Hact' & _).
    apply filter_In in Hin as [Hdisc Hav].
    exists best. do 2 eexists. split; [exact Hcreate|].
    cbn [route nodeId clientId session_isActive bytesTransferred session_id
         routeThrough nodes head route_id].
    repeat split; try assumption.
    + rewrite Hcs. apply get_set_eq.
    + rewrite Hact', Hact. apply get_set_eq.
  - intros Hnone.
    unfold createSession, tryCatch. unfold bind at 1.
    rewrite findRoute_unfold. cbv zeta. unfold tryCatch.
    unfold bind at 1, gets. cbn [self reads]. rewrite Hmiss.
    unfold computeRoute. unfold bind at 1, getAvailableNodes, gets.
    cbn [self reads]. rewrite Hnone. reflexivity.
Qed.

(** Closing a session whose route has not expired. *)
Lemma closeSession_kept (sid : string) (k : nat) (s : TrafficRouter)
    (c : ClientSession) (r : Route) :
  JSMap.get sid (clientSessions s) = Some c ->
  JSMap.get (route_id (route c)) (activeRoutes s) = Some r ->
  clock O k <= expiresAt r ->
  exists s',
    closeSession O sid (mkWorld k s) = (Returned tt, mkWorld (S k) s')
    /\ clientSessions s' = JSMap.delete sid (clientSessions s)
    /\ routeCache s' = routeCache s
    /\ activeRoutes s' = activeRoutes s
    /\ emitted s' = emitted s ++ [SessionClosed (closed c)].
Proof.
  intros Hget Hr Hlive.
  unfold closeSession. unfold bind at 1, gets. cbn [self reads].
  rewrite Hget. unfold bind at 1, modify. cbn [self reads].
  unfold bind at 1. unfold cleanupRoute. unfold bind at 1, gets.
  fields. rewrite Hr. unfold bind at 1, now. cbn [self reads].
  apply Z.ltb_ge in Hlive. rewrite Hlive.
  unfold emit, modify, ret. cbn [self reads]. fields.
  eexists. split; [reflexivity|]. fields. repeat split.
Qed.

(** X28. Closing a session that is in the table removes it and emits
    [session:closed] with the session marked inactive.  The route of the
    session is dropped from the active routes only when the entry stored
    under its identifier has an expiry strictly before the clock reading;
    an entry that expires at that very reading, or later, stays, whether
    or not another session uses it.  The route cache is not touched. *)
Theorem closeSession_existing (sid : string) (k : nat) (s : TrafficRouter)
    (c : ClientSession) :
  JSMap.get sid (clientSessions s) = Some c ->
  exists k' s',
    closeSession O sid (mkWorld k s) = (Returned tt, mkWorld k' s')
    /\ clientSessions s' = JSMap.delete sid (clientSessions s)
    /\ JSMap.get sid (clientSessions s') = None
    /\ routeCache s' = routeCache s
    /\ (forall r, JSMap.get (route_id (route c)) (activeRoutes s) = Some r ->
                  expiresAt r < clock O k ->
                  k' = S k
                  /\ activeRoutes s'
                     = JSMap.delete (route_id (route c)) (activeRoutes s)
                  /\ emitted s'
                     = emitted s ++ [RouteExpired (route_id (route c));
                                     SessionClosed (closed c)])
    /\ (forall r, JSMap.get (route_id (route c)) (activeRoutes s) = Some r ->
                  clock O k <= expiresAt r ->
                  k' = S k
                  /\ activeRoutes s' = activeRoutes s
                  /\ emitted s' = emitted s ++ [SessionClosed (closed c)])
    /\ (JSMap.get (route_id (route c)) (activeRoutes s) = None ->
        k' = k
        /\ activeRoutes s' = activeRoutes s
        /\ emitted s' = emitted s ++ [SessionClosed (closed c)]).
Proof.
  intros Hget.
  unfold closeSession. unfold bind at 1, gets. cbn [self reads].
  rewrite Hget. unfold bind at 1, modify. cbn [self reads].
  unfold bind at 1. unfold cleanupRoute. unfold bind at 1, gets.
  fields.
  destruct (JSMap.get (route_id (route c)) (activeRoutes s)) as [r|] eqn:Hr.
  - unfold bind at 1, now. cbn [self reads].
    destruct (expiresAt r <? clock O k) eqn:Hexp.
    + unfold bind, emit, modify, ret. cbn [self reads]. fields.
      do 2 eexists. split; [reflexivity|]. fields.
      split; [reflexivity|]. split; [apply get_delete_eq|].
      split; [reflexivity|].
      apply Z.ltb_lt in Hexp. rewrite <- app_assoc.
      repeat split; intros; try reflexivity; try discriminate;
        exfalso; match goal with H : Some _ = Some _ |- _ => injection H as <- end;
        lia.
    + unfold emit, modify, ret. cbn [self reads]. fields.
      do 2 eexists. split; [reflexivity|]. fields.
      split; [reflexivity|]. split; [apply get_delete_eq|].
      split; [reflexivity|].
      apply Z.ltb_ge in Hexp.
      repeat split; intros; try reflexivity; try discriminate;
        exfalso; match goal with H : Some _ = Some _ |- _ => injection H as <- end;
        lia.
  - unfold emit, modify, ret. cbn [self reads]. fields.
    do 2 eexists. split; [reflexivity|]. fields.
    split; [reflexivity|]. split; [apply get_delete_eq|].
    split; [reflexivity|].
    repeat split; intros; try reflexivity; discriminate.
Qed.

(** X29. A session created on a cache miss and closed right away, its
    identifier being new to the session table and the route not yet past
    its expiry: the session table is what it was before the session,
    while the route made for the session stays in the active routes and
    in the cache, and the three events [route:created],
    [session:created], [session:closed] are emitted in this order. *)
Theorem createSession_then_close (client : string)
    (requirements : RouteRequirements) (k : nat) (s : TrafficRouter) :
  JSMap.get (generateCacheKey O stringify client requirements)
            (routeCache s) = None ->
  List.filter (available requirements) (discoveredNodes s) <> [] ->
  knownAlgorithm (algorithmOf requirements) ->
  JSMap.get (randomHex O (2 + k)) (clientSessions s) = None ->
  clock O (4 + k) <= clock O (S k) + routeTimeout s ->
  exists session s1 s2,
    createSession O stringify client requirements (mkWorld k s)
      = (Returned session, mkWorld (4 + k) s1)
    /\ closeSession O (session_id session) (mkWorld (4 + k) s1)
       = (Returned tt, mkWorld (5 + k) s2)
    /\ clientSessions s2 = clientSessions s
    /\ JSMap.get (route_id (route session)) (activeRoutes s2)
       = Some (route session)
    /\ JSMap.get (generateCacheKey O stringify client requirements)
                 (routeCache s2) = Some (route session)
    /\ emitted s2
       = emitted s ++ [RouteCreated (route session); SessionCreated session;
                       SessionClosed (closed session)].
Proof.
  intros Hmiss Hne Hknown Hfresh Hlive.
  destruct (computeRoute_creates O
              (generateCacheKey O stringify client requirements)
              client requirements k s Hne Hknown)
    as (best & s0 & Hin & Hrun & Hcache & Hact & Hcs0 & _ & _ & _ & Hev0).
  set (r := routeThrough O k (routeTimeout s) requirements best) in *.
  assert (Hfind : findRoute O stringify client requirements (mkWorld k s)
            = (Returned r, mkWorld (2 + k) s0)).
  { rewrite findRoute_unfold. cbv zeta. unfold tryCatch.
    unfold bind at 1, gets. cbn [self reads]. rewrite Hmiss.
    now rewrite Hrun. }
  destruct (createSession_after client requirements _ _ [id best] _ _ Hfind
              eq_refl)
    as (s1 & Hcreate & Hcs1 & Hact1 & Hcache1 & Hev1).
  set (session := {| session_id := randomHex O (2 + k); clientId := client;
                     nodeId := head [id best]; startTime := clock O (S (2 + k));
                     bytesTransferred := 0; session_isActive := true;
                     route := r |}) in *.
  assert (Hstored : JSMap.get (session_id session) (clientSessions s1)
                    = Some session).
  { rewrite Hcs1. apply get_set_eq. }
  assert (Hroute : JSMap.get (route_id (route session)) (activeRoutes s1)
                   = Some r).
  { rewrite Hact1, Hact. apply get_set_eq. }
  destruct (closeSession_kept (session_id session) (4 + k) s1 session r
              Hstored Hroute)
    as (s2 & Hclose & Hcs2 & Hcache2 & Hact2 & Hev2).
  { cbn [expiresAt r routeThrough]. exact Hlive. }
  exists session, s1, s2.
  split; [exact Hcreate|]. split; [exact Hclose|].
  split.
  { rewrite Hcs2, Hcs1, Hcs0. cbn [session_id session].
    apply delete_set_fresh. exact Hfresh. }
  split; [rewrite Hact2; exact Hroute|].
  split.
  { rewrite Hcache2, Hcache1, Hcache. apply get_set_eq. }
  rewrite Hev2, Hev1, Hev0, <- !app_assoc. reflexivity.
Qed.
End Sessions.

Lemma createSession_outcomes_witness :
  (exists best session s',
     createSession Demo.oracle DemoRouter.stringify "client"
         DemoRouter.anyRoute (mkWorld 0 DemoRouter.mesh)
       = (Returned session, mkWorld (4 + 0) s')
     /\ In best (discoveredNodes DemoRouter.mesh)
     /\ available DemoRouter.anyRoute best = true
     /\ nodes (route session) = Some [id best]
     /\ nodeId session = Some (id best)
     /\ clientId session = "client"%string
     /\ session_isActive session = true
     /\ bytesTransferred session = 0%Q
     /\ JSMap.get (session_id session) (clientSessions s') = Some session
     /\ JSMap.get (route_id (route session)) (activeRoutes s')
        = Some (route session))
  /\ createSession Demo.oracle DemoRouter.stringify "client"
       DemoRouter.anyRoute (mkWorld 0 (create []))
     = (Thrown (SessionCreationError
                  (RouteFindingError (RouteNotFoundError "client"))),
        mkWorld 0 (create [])).
Proof.
  split.
  - refine (proj1 (createSession_outcomes Demo.oracle DemoRouter.stringify
                     "client" DemoRouter.anyRoute 0 DemoRouter.mesh _) _ _).
    + reflexivity.
    + vm_compute. discriminate.
    + exact demo_balanced.
  - refine (proj2 (createSession_outcomes Demo.oracle DemoRouter.stringify
                     "client" DemoRouter.anyRoute 0 (create []) _) _).
    + reflexivity.
    + reflexivity.
Defined.

Lemma closeSession_existing_witness :
  (exists s',
     closeSession Demo.oracle "id2" (mkWorld 4 (self DemoRouter.connected))
       = (Returned tt, mkWorld 5 s')
     /\ clientSessions s' = []
     /\ activeRoutes s' = [("id0"%string, DemoRouter.cachedRoute)])
  /\ (exists s',
        closeSession Demo.oracle "id2"
          (mkWorld 302 (self DemoRouter.connected))
        = (Returned tt, mkWorld 303 s')
        /\ clientSessions s' = []
        /\ activeRoutes s' = []).
Proof.
  assert (Hget : JSMap.get "id2" (clientSessions (self DemoRouter.connected))
                 = Some DemoRouter.clientSession) by (vm_compute; reflexivity).
  assert (Hroute :
    JSMap.get (route_id (route DemoRouter.clientSession))
              (activeRoutes (self DemoRouter.connected))
    = Some DemoRouter.cachedRoute) by (vm_compute; reflexivity).
  split.
  - destruct (closeSession_existing Demo.oracle "id2" 4
                (self DemoRouter.connected) DemoRouter.clientSession Hget)
      as (k' & s' & Hrun & Hcs & _ & _ & _ & Hkeep & _).
    destruct (Hkeep DemoRouter.cachedRoute Hroute) as (Hk & Hact & _).
    { vm_compute. intros H. discriminate H. }
    exists s'. rewrite Hk in Hrun. split; [exact Hrun|].
    split; [rewrite Hcs | rewrite Hact]; vm_compute; reflexivity.
  - destruct (closeSession_existing Demo.oracle "id2" 302
                (self DemoRouter.connected) DemoRouter.clientSession Hget)
      as (k' & s' & Hrun & Hcs & _ & _ & Hdrop & _).
    destruct (Hdrop DemoRouter.cachedRoute Hroute) as (Hk & Hact & _).
    { vm_compute. reflexivity. }
    exists s'. rewrite Hk in Hrun. split; [exact Hrun|].
    split; [rewrite Hcs | rewrite Hact]; vm_compute; reflexivity.
Defined.

Lemma createSession_then_close_witness :
  exists session s1 s2,
    createSession Demo.oracle DemoRouter.stringify "client"
        DemoRouter.anyRoute (mkWorld 0 DemoRouter.mesh)
      = (Returned session, mkWorld (4 + 0) s1)
    /\ closeSession Demo.oracle (session_id session) (mkWorld (4 + 0) s1)
       = (Returned tt, mkWorld (5 + 0) s2)
    /\ clientSessions s2 = clientSessions DemoRouter.mesh
    /\ JSMap.get (route_id (route session)) (activeRoutes s2)
       = Some (route session)
    /\ JSMap.get (generateCacheKey Demo.oracle DemoRouter.stringify "client"
                    DemoRouter.anyRoute)
                 (routeCache s2) = Some (route session)
    /\ emitted s2
       = emitted DemoRouter.mesh
         ++ [RouteCreated (route session); SessionCreated session;
             SessionClosed (closed session)].
Proof.
  refine (createSession_then_close Demo.oracle DemoRouter.stringify "client"
            DemoRouter.anyRoute 0 DemoRouter.mesh _ _ _ _ _).
  - reflexivity.
  - vm_compute. discriminate.
  - exact demo_balanced.
  - reflexivity.
  - vm_compute. intros H. discriminate H.
Defined.
(** A session asked for with the algorithm [toString]: the lookup
    returns a route without hop list, reading its first hop throws, and
    [createSession] fails after the route has been cached and
    registered. *)
Example createSession_pathless :
  exists w',
    createSession Demo.oracle DemoRouter.stringify "dest"
      DemoRouter.inheritedName (DemoRouter.router [DemoRouter.node1])
    = (Thrown (SessionCreationError
                 (NativeError
                    "Cannot read properties of undefined (reading '0')")),
       w')
    /\ clientSessions (self w') = []
    /\ routeCache (self w') = routeCache (self DemoRouter.pathless)
    /\ activeRoutes (self w') = activeRoutes (self DemoRouter.pathless).
Proof. eexists. split; [vm_compute; reflexivity|]. repeat split. Qed.
End SessionExtras.

(** * The load balancer *)

Module BalancerExtras.
Import JS JSFacts JSMapFacts RouterSpec SortFacts LoadBalancer.
Local Open Scope Q_scope.

Lemma firstBest_map {A B} (f : A -> B) (score : B -> Q) (l : list A) (b : B) :
  firstBest score (map f l) b ->
  exists a, b = f a /\ firstBest (fun x => score (f x)) l a.
Proof.
  intros (before & after & Hl & Hb & Ha).
  apply map_eq_app in Hl as (l1 & l2 & -> & <- & Hl2).
  apply map_eq_cons in Hl2 as (a & l3 & -> & <- & <-).
  exists a. split; [reflexivity|]. exists l1, l3. split; [reflexivity|].
  split; intros x Hx; [apply Hb | apply Ha]; now apply in_map.
Qed.

(** X30. [selectNode] answers with a node registered in the capacity
    table whose capacity (a missing or zero capacity counting as 1)
    is not below a non-zero [minCapacity]; among those it picks the one
    with the highest score [1 - load/capacity] as the code computes it,
    the quotient rounded to a double and the difference rounded again,
    the earliest registered when the computed scores tie; it answers
    [null] exactly when no registered node qualifies. *)
Theorem selectNode_first_best (requirements : Requirements)
    (lb : LoadBalancer) :
  let qualifying :=
    List.filter (fun n => meets requirements (scoreOf lb n))
                (JSMap.keys (nodeCapacities lb)) in
  (qualifying = [] -> selectNode requirements lb = None)
  /\ (qualifying <> [] ->
      exists best,
        selectNode requirements lb = Some best
        /\ firstBest (fun n => score (scoreOf lb n)) qualifying best).
Proof.
  intros qualifying. unfold selectNode.
  change (fun a b : NodeScore => sub (score b) (score a))
    with (descending score).
  rewrite filter_sort, filter_map_swap. fold qualifying.
  destruct (JSMap.keys (nodeCapacities lb)) as [|n ns] eqn:Hkeys.
  - cbn. split; [reflexivity | congruence].
  - cbn [length Nat.eqb]. split.
    + intros ->. reflexivity.
    + intros Hne.
      destruct (OptimizerFacts.sort_descending_head score
                  (map (scoreOf lb) qualifying))
        as (before & best & after & rest & Hl & -> & Hb & Ha).
      { destruct qualifying; [congruence | discriminate]. }
      destruct (firstBest_map (scoreOf lb) score qualifying best)
        as (a & -> & Hbest).
      { exists before, after. auto. }
      exists a. split; [reflexivity | exact Hbest].
Qed.

Lemma selectNode_first_best_witness :
  selectNode DemoBalancer.large DemoBalancer.balancer = None
  /\ exists best,
       selectNode DemoBalancer.anyNode DemoBalancer.balancer = Some best
       /\ firstBest (fun n => score (scoreOf DemoBalancer.balancer n))
            (List.filter
               (fun n => meets DemoBalancer.anyNode
                           (scoreOf DemoBalancer.balancer n))
               (JSMap.keys (nodeCapacities DemoBalancer.balancer)))
            best.
Proof.
  split.
  - refine (proj1 (selectNode_first_best DemoBalancer.large
                     DemoBalancer.balancer) _).
    vm_compute. reflexivity.
  - refine (proj2 (selectNode_first_best DemoBalancer.anyNode
                     DemoBalancer.balancer) _).
    vm_compute. discriminate.
Defined.

(** The lightly loaded node is the one selected. *)
Example selectNode_scenario :
  selectNode DemoBalancer.anyNode DemoBalancer.balancer = Some "idle"%string.
Proof. vm_compute. reflexivity. Qed.
(** Loads that tie as they are written.  2.1 of 3 and 0.7 of 1 are
    both seven tenths in decimals; the code computes the scores
    0.29999999999999993 and 0.30000000000000004, and the node
    registered second is selected. *)
Example selectNode_breaks_written_tie :
  (21 # 10) / 3 == (7 # 10) / 1
  /\ score (scoreOf DemoBalancer.tied "first")
     == lit (29999999999999993 # 100000000000000000)
  /\ score (scoreOf DemoBalancer.tied "second")
     == lit (30000000000000004 # 100000000000000000)
  /\ selectNode DemoBalancer.anyNode DemoBalancer.tied = Some "second"%string.
Proof. repeat split; vm_compute; reflexivity. Qed.
End BalancerExtras.
